(** * image-dms: the variant pipeline of [d4_generation.py]

    A shallow embedding of the augmentation engine ([augment]), the
    wild-type encoder ([data_generator_vals]) and the batch generator
    ([DataGenerator]) together with the properties the specification
    states about them, followed by the training callback [CustomPrint]
    and the augmentation block of [run_all] with properties read off the
    code.

    Conventions of the embedding:
    - a Python exception is a [Raise e] in the [result] monad;
    - a one-dimensional numpy array is a [list]; integer arrays hold [Z]
      with the 64-bit wrap-around of numpy's default integer written out;
    - [float64] values are [spec_float]s of the Standard Library at
      precision 53 and maximal exponent 1024, so every float operation
      computes;
    - [np.random.shuffle] is an oracle that returns a permutation of its
      argument ([shuffler]);
    - strings are byte strings compared lexicographically, which is the
      code point order numpy uses for UTF-8 encoded text. *)

From Stdlib Require Import ZArith Lia Ascii String Floats.SpecFloat.
From stdpp Require Import base tactics option list sorting strings gmap.

Open Scope string_scope.
Open Scope list_scope.
Open Scope Z_scope.

(** ** Python exceptions *)

Inductive py_exn : Type :=
  | IndexError
  | ValueError
  | KeyError
  | TypeError
  | AttributeError
  | OverflowError
  | ZeroDivisionError.

Inductive result (A : Type) : Type :=
  | Ok (a : A)
  | Raise (e : py_exn).
Arguments Ok {A} a.
Arguments Raise {A} e.

Global Instance result_ret : MRet result := fun A a => Ok a.
Global Instance result_bind : MBind result := fun A B f m =>
  match m with
  | Ok a => f a
  | Raise e => Raise e
  end.
Global Instance result_fmap : FMap result := fun A B f m =>
  match m with
  | Ok a => Ok (f a)
  | Raise e => Raise e
  end.

Definition is_ok {A} (r : result A) : Prop :=
  match r with Ok _ => True | Raise _ => False end.

(** [for x in xs: st = body(st, x)] where the body may raise. *)
Fixpoint foldlM {S X : Type} (body : S -> X -> result S) (st : S) (xs : list X)
  : result S :=
  match xs with
  | [] => Ok st
  | x :: xs' => st' ← body st x; foldlM body st' xs'
  end.

(** [[f(x) for x in xs]] where [f] may raise. *)
Fixpoint traverse {X Y : Type} (f : X -> result Y) (xs : list X)
  : result (list Y) :=
  match xs with
  | [] => Ok []
  | x :: xs' => y ← f x; ys ← traverse f xs'; Ok (y :: ys)
  end.

(** ** Python strings *)

Module PyStr.

Definition comma : ascii := ","%char.

(** [s.split(sep)] for a one-character separator: never the empty list,
    [''.split(',') == ['']]. *)
Fixpoint split (sep : ascii) (s : string) : list string :=
  match s with
  | EmptyString => [EmptyString]
  | String c s' =>
      if decide (c = sep) then EmptyString :: split sep s'
      else match split sep s' with
           | [] => [String c EmptyString]
           | w :: ws => String c w :: ws
           end
  end.

(** [sep.join(l)]. *)
Fixpoint join (sep : string) (l : list string) : string :=
  match l with
  | [] => EmptyString
  | [x] => x
  | x :: l' => x +:+ sep +:+ join sep l'
  end.

(** Whether the character [c] occurs in [s]. *)
Fixpoint contains (c : ascii) (s : string) : bool :=
  match s with
  | EmptyString => false
  | String c' s' => bool_decide (c' = c) || contains c s'
  end.

End PyStr.

(** ** numpy on one-dimensional arrays *)

Module Np.

(** numpy's default integer: 64 bits, two's complement. *)
Definition wrap64 (z : Z) : Z := (z + 2 ^ 63) mod 2 ^ 64 - 2 ^ 63.
Definition int64 (z : Z) : Prop := - 2 ^ 63 <= z < 2 ^ 63.
Definition add64 (a b : Z) : Z := wrap64 (a + b).

(** [np.arange(n)]. *)
Definition arange (n : nat) : list Z := Z.of_nat <$> seq 0 n.

(** [a[i]] for an integer [i]: negative indices count from the end. *)
Definition getitem {A} (a : list A) (i : Z) : result A :=
  let n := Z.of_nat (length a) in
  let j := if i <? 0 then i + n else i in
  if (0 <=? j) && (j <? n) then
    match a !! Z.to_nat j with
    | Some x => Ok x
    | None => Raise IndexError
    end
  else Raise IndexError.

(** [a[idx]] for an integer array [idx] (a fresh array). *)
Definition take {A} (a : list A) (idx : list Z) : result (list A) :=
  traverse (getitem a) idx.

(** [a + b] element-wise; arrays of different lengths broadcast only
    when one of them has a single element. *)
Definition add {A} (f : A -> A -> A) (a b : list A) : result (list A) :=
  if decide (length a = length b) then Ok (zip_with f a b)
  else match a, b with
       | [x], _ => Ok (f x <$> b)
       | _, [y] => Ok ((fun x => f x y) <$> a)
       | _, _ => Raise ValueError
       end.

(** [enumerate(l, n)]. *)
Fixpoint enumerate_from {A} (n : nat) (l : list A) : list (nat * A) :=
  match l with
  | [] => []
  | x :: l' => (n, x) :: enumerate_from (S n) l'
  end.

(** [np.delete(a, idx)] for a list [idx] of positions: a fresh array
    without the elements at those positions; a position outside the array
    is an error. *)
Definition delete {A} (a : list A) (idx : list nat) : result (list A) :=
  if forallb (fun i => Nat.ltb i (length a)) idx then
    Ok (snd <$> filter (fun p => p.1 ∉ idx) (enumerate_from 0 a))
  else Raise IndexError.

(** [np.sort] on strings. *)
Definition sort (l : list string) : list string := merge_sort String.le l.

(** [np.unique(l)]: the distinct values, sorted. *)
Definition unique (l : list string) : list string :=
  merge_sort String.le (remove_dups l).

(** Position of the first occurrence of [s] in [l]. *)
Definition first_index (l : list string) (s : string) : nat :=
  match list_find (fun x => x = s) l with
  | Some (i, _) => i
  | None => 0%nat
  end.

(** [np.unique(l, return_index=True)[1]]: for each distinct value, in
    sorted order, the position of its first occurrence. *)
Definition unique_index (l : list string) : list Z :=
  (fun s => Z.of_nat (first_index l s)) <$> unique l.

End Np.

(** ** The augmentation engine *)

(** [np.random.shuffle(x)] rearranges [x] in place. Which arrangement it
    picks depends on the hidden state of the generator; the embedding
    takes it from an oracle indexed by the number of the call, and only
    knows that the outcome is a permutation of the argument. *)
Record shuffler : Type := Shuffler {
  random_shuffle : nat -> list Z -> list Z;
  random_shuffle_perm : forall c xs, random_shuffle c xs ≡ₚ xs
}.

Section Augment.
Context {L : Type}.
(** Addition on the dtype of the labels (integers or floats). *)
Variable ladd : L -> L -> L.
Variable rng : shuffler.

(** [np.sort(j.split(",") + k.split(","))]. *)
Definition pos_new_data (j k : string) : list string :=
  Np.sort (PyStr.split PyStr.comma j ++ PyStr.split PyStr.comma k).

(** The body of the inner loop of [augment]: the state is
    [(new_data, to_del)]. *)
Definition scan_step (new_mutations : list Z)
    (st : list string * list nat) (x : nat * (string * string))
  : result (list string * list nat) :=
  let '(new_data, to_del) := st in
  let '(cj, (j, k)) := x in
  let pnd := pos_new_data j k in
  m ← Np.getitem new_mutations (Z.of_nat cj);
  let to_del :=
    if decide (Z.of_nat (length (Np.unique pnd)) = m) then to_del
    else to_del ++ [cj] in
  Ok (new_data ++ [PyStr.join "," pnd], to_del).

(** [for cj, (j, k) in enumerate(zip(data, data[pos_inds])): ...]. *)
Definition scan (data shuffled_data : list string) (new_mutations : list Z)
  : result (list string * list nat) :=
  foldlM (scan_step new_mutations) ([], [])
         (Np.enumerate_from 0 (zip data shuffled_data)).

(** The first half of an iteration of the outer loop, up to the end of
    the inner loop: the candidates of the run and the discard list. *)
Definition run_candidates (data : list string) (labels : list L)
    (mutations : list Z) (pos_inds : list Z)
  : result (list L * list Z * list string * list nat) :=
  shuffled_labels ← Np.take labels pos_inds;
  new_labels ← Np.add ladd labels shuffled_labels;
  shuffled_mutations ← Np.take mutations pos_inds;
  new_mutations ← Np.add Np.add64 mutations shuffled_mutations;
  shuffled_data ← Np.take data pos_inds;
  '(new_data, to_del) ← scan data shuffled_data new_mutations;
  Ok (new_labels, new_mutations, new_data, to_del).

(** One iteration of the outer loop; the state is
    [(pos_inds, nd, nl, nm)]. *)
Definition augment_run (data : list string) (labels : list L)
    (mutations : list Z)
    (st : list Z * list string * list L * list Z) (i : nat)
  : result (list Z * list string * list L * list Z) :=
  let '(pos_inds, nd, nl, nm) := st in
  let pos_inds := random_shuffle rng i pos_inds in
  '(new_labels, new_mutations, new_data, to_del) ←
    run_candidates data labels mutations pos_inds;
  new_labels ← Np.delete new_labels to_del;
  new_mutations ← Np.delete new_mutations to_del;
  new_data ← Np.delete new_data to_del;
  Ok (pos_inds, nd ++ new_data, nl ++ new_labels, nm ++ new_mutations).

(** The three accumulated lists after [runs] iterations. *)
Definition augment_loop (data : list string) (labels : list L)
    (mutations : list Z) (runs : nat)
  : result (list Z * list string * list L * list Z) :=
  foldlM (augment_run data labels mutations)
         (Np.arange (length labels), [], [], []) (seq 0 runs).

(** [augment(data, labels, mutations, runs, un)]. *)
Definition augment (data : list string) (labels : list L)
    (mutations : list Z) (runs : nat) (un : bool)
  : result (list string * list L * list Z) :=
  '(_, nd, nl, nm) ← augment_loop data labels mutations runs;
  if un then
    let uni := Np.unique_index nd in
    nd' ← Np.take nd uni;
    nl' ← Np.take nl uni;
    nm' ← Np.take nm uni;
    Ok (nd', nl', nm')
  else Ok (nd, nl, nm).

(** *** What a run contributes

    A candidate of a run is described by its sorted tokens, its label and
    its mutation count; [pos_after n r] is [pos_inds] after [r] shuffles. *)

Definition row : Type := list string * L * Z.

Definition row_data (r : row) : string := PyStr.join "," r.1.1.
Definition row_label (r : row) : L := r.1.2.
Definition row_count (r : row) : Z := r.2.

(** The test of the inner loop: the candidate stays when its number of
    distinct tokens is its mutation count. *)
Definition accepted (r : row) : Prop :=
  Z.of_nat (length (Np.unique r.1.1)) = r.2.

#[export] Instance accepted_dec (r : row) : Decision (accepted r).
Proof. unfold accepted. apply _. Defined.

Fixpoint pos_after (n r : nat) : list Z :=
  match r with
  | O => Np.arange n
  | S r' => random_shuffle rng r' (pos_after n r')
  end.

(** The candidate built from row [cj] and its partner under [pos_inds]. *)
Definition candidate_row (data : list string) (labels : list L)
    (mutations : list Z) (pos_inds : list Z) (cj : nat) : option row :=
  p ← pos_inds !! cj;
  j ← data !! cj;
  k ← data !! Z.to_nat p;
  l1 ← labels !! cj;
  l2 ← labels !! Z.to_nat p;
  m1 ← mutations !! cj;
  m2 ← mutations !! Z.to_nat p;
  Some (pos_new_data j k, ladd l1 l2, Np.add64 m1 m2).

(** The candidates of a run, as [candidate_row] describes them. *)
Definition run_rows (data : list string) (labels : list L)
    (mutations pos_inds : list Z) (rows : list row) : Prop :=
  Forall2 (fun i r => candidate_row data labels mutations pos_inds i = Some r)
          (seq 0 (length labels)) rows.

(** What the [r]-th run keeps: the accepted candidates under the
    arrangement of [pos_inds] after [r + 1] shuffles. *)
Definition kept_of_run (data : list string) (labels : list L)
    (mutations : list Z) (r : nat) (kept : list row) : Prop :=
  exists rows,
    run_rows data labels mutations (pos_after (length labels) (S r)) rows /\
    kept = filter accepted rows.

(** The discard list [to_del] of a run whose candidates are [rows],
    numbered from [off]. *)
Fixpoint to_del_rows (off : nat) (rows : list row) : list nat :=
  match rows with
  | [] => []
  | r :: rows' =>
      (if decide (accepted r) then [] else [off]) ++ to_del_rows (S off) rows'
  end.

End Augment.

Arguments row : clear implicits.

(** *** Mutation tokens *)

(** The comma-separated tokens of a variant. *)
Definition tokens (variant : string) : list string :=
  PyStr.split PyStr.comma variant.

Fixpoint drop_last (s : string) : string :=
  match s with
  | EmptyString => EmptyString
  | String c EmptyString => EmptyString
  | String c s' => String c (drop_last s')
  end.

(** Modelled from the spec: the parsing of a token lives in
    [d4_interactions], which is not part of the sources at hand. A token
    such as [S1A] is the original residue, the position and the new
    residue; the position is what stands between the first and the last
    character. *)
Definition mutation_position (tok : string) : string :=
  match tok with
  | EmptyString => EmptyString
  | String _ rest => drop_last rest
  end.

(** Two variants mutate a common position. *)
Definition share_position (v1 v2 : string) : Prop :=
  exists t1 t2, t1 ∈ tokens v1 /\ t2 ∈ tokens v2 /\
    mutation_position t1 = mutation_position t2.

(** Two variants mutate a common position with different substitutions. *)
Definition conflicting (v1 v2 : string) : Prop :=
  exists t1 t2, t1 ∈ tokens v1 /\ t2 ∈ tokens v2 /\
    mutation_position t1 = mutation_position t2 /\ t1 <> t2.

(** The mutated positions of two variants are disjoint. *)
Definition disjoint_positions (v1 v2 : string) : Prop :=
  forall t1 t2, t1 ∈ tokens v1 -> t2 ∈ tokens v2 ->
    mutation_position t1 <> mutation_position t2.

(** The invariants of the data model on one sample: within a variant no
    position is mutated twice, and the mutation count is the number of
    tokens. *)
Definition well_formed_sample (variant : string) (count : Z) : Prop :=
  NoDup (mutation_position <$> tokens variant) /\
  count = Z.of_nat (length (tokens variant)).

(** An oracle that reverses its argument at every call. *)
Definition reversing : shuffler :=
  {| random_shuffle := fun _ xs => reverse xs;
     random_shuffle_perm := fun _ xs => reverse_Permutation xs |}.

(** An oracle that moves the first element to the end at every call. *)
Definition rotating : shuffler :=
  {| random_shuffle := fun _ xs =>
       match xs with [] => [] | x :: t => t ++ [x] end;
     random_shuffle_perm := fun _ xs =>
       match xs as l
             return (match l with [] => [] | x :: t => t ++ [x] end ≡ₚ l)
       with
       | [] => Permutation_refl []
       | x :: t => Permutation_sym (Permutation_cons_append t x)
       end |}.

(** An oracle that leaves its argument as it is. *)
Definition lazy_rng : shuffler :=
  {| random_shuffle := fun _ xs => xs;
     random_shuffle_perm := fun _ xs => reflexivity xs |}.

(** ** The augmentation engine on a store of arrays

    The arrays handed to [augment] are objects the caller keeps using.
    To tell what the call does to them, the same function is embedded a
    second time over a store: an array is a cell of the store, every numpy
    operation that returns an array allocates a new cell, and
    [np.random.shuffle] overwrites the cell of its argument. Python lists
    ([nd], [nl], [nm], [new_data], [to_del]) are local to the call and
    stay plain values. *)

Inductive ndarray (L : Type) : Type :=
  | NdStr (a : list string)
  | NdNum (a : list L)
  | NdInt (a : list Z).
Arguments NdStr {L} a.
Arguments NdNum {L} a.
Arguments NdInt {L} a.

(** The store: array objects by address. *)
Abbreviation heap L := (list (ndarray L)).

(** A computation on the store that may raise. *)
Definition St (L A : Type) : Type := heap L -> result (A * heap L).

Definition st_ret {L A} (a : A) : St L A := fun h => Ok (a, h).

Definition st_bind {L A B} (m : St L A) (k : A -> St L B) : St L B :=
  fun h =>
    match m h with
    | Ok (a, h') => k a h'
    | Raise e => Raise e
    end.

Definition st_lift {L A} (r : result A) : St L A :=
  fun h =>
    match r with
    | Ok a => Ok (a, h)
    | Raise e => Raise e
    end.

Notation "'let*' x ':=' m 'in' k" := (st_bind m (fun x => k))
  (at level 10, x pattern, m at level 100, k at level 200).

Fixpoint st_foldl {L S X} (body : S -> X -> St L S) (st : S) (xs : list X)
  : St L S :=
  match xs with
  | [] => st_ret st
  | x :: xs' => let* st' := body st x in st_foldl body st' xs'
  end.

Section Store.
Context {L : Type}.
Variable ladd : L -> L -> L.
Variable rng : shuffler.

(** A new array object. *)
Definition alloc (v : ndarray L) : St L nat :=
  fun h => Ok (length h, h ++ [v]).

Definition load (l : nat) : St L (ndarray L) :=
  fun h =>
    match h !! l with
    | Some v => Ok (v, h)
    | None => Raise AttributeError
    end.

(** Overwrite the content of an existing array object. *)
Definition store (l : nat) (v : ndarray L) : St L unit :=
  fun h =>
    match h !! l with
    | Some _ => Ok (tt, <[l := v]> h)
    | None => Raise AttributeError
    end.

Definition load_str (l : nat) : St L (list string) :=
  let* v := load l in
  match v with NdStr a => st_ret a | _ => st_lift (Raise TypeError) end.

Definition load_num (l : nat) : St L (list L) :=
  let* v := load l in
  match v with NdNum a => st_ret a | _ => st_lift (Raise TypeError) end.

Definition load_int (l : nat) : St L (list Z) :=
  let* v := load l in
  match v with NdInt a => st_ret a | _ => st_lift (Raise TypeError) end.

(** [len(a)]. *)
Definition st_len (a : nat) : St L nat :=
  let* v := load a in
  st_ret match v with
         | NdStr x => length x
         | NdNum x => length x
         | NdInt x => length x
         end.

(** [a[idx]]: a new array. *)
Definition st_take (a idx : nat) : St L nat :=
  let* i := load_int idx in
  let* v := load a in
  match v with
  | NdStr x => let* r := st_lift (Np.take x i) in alloc (NdStr r)
  | NdNum x => let* r := st_lift (Np.take x i) in alloc (NdNum r)
  | NdInt x => let* r := st_lift (Np.take x i) in alloc (NdInt r)
  end.

(** [a + b]: a new array. *)
Definition st_add (a b : nat) : St L nat :=
  let* va := load a in
  let* vb := load b in
  match va, vb with
  | NdNum x, NdNum y => let* r := st_lift (Np.add ladd x y) in alloc (NdNum r)
  | NdInt x, NdInt y =>
      let* r := st_lift (Np.add Np.add64 x y) in alloc (NdInt r)
  | _, _ => st_lift (Raise TypeError)
  end.

(** [np.delete(a, idx)]: a new array. *)
Definition st_delete (a : nat) (idx : list nat) : St L nat :=
  let* v := load a in
  match v with
  | NdStr x => let* r := st_lift (Np.delete x idx) in alloc (NdStr r)
  | NdNum x => let* r := st_lift (Np.delete x idx) in alloc (NdNum r)
  | NdInt x => let* r := st_lift (Np.delete x idx) in alloc (NdInt r)
  end.

(** [np.random.shuffle(a)]: in place. *)
Definition st_shuffle (c : nat) (a : nat) : St L unit :=
  let* x := load_int a in
  store a (NdInt (random_shuffle rng c x)).

(** One iteration of the outer loop of [augment]; [pos] is the cell of
    [pos_inds], the state is [(nd, nl, nm)]. *)
Definition augment_run_st (data labels mutations pos : nat)
    (st : list string * list L * list Z) (i : nat)
  : St L (list string * list L * list Z) :=
  let '(nd, nl, nm) := st in
  let* _ := st_shuffle i pos in
  let* shuffled_labels := st_take labels pos in
  let* new_labels := st_add labels shuffled_labels in
  let* shuffled_mutations := st_take mutations pos in
  let* new_mutations := st_add mutations shuffled_mutations in
  let* shuffled_data := st_take data pos in
  let* d := load_str data in
  let* sd := load_str shuffled_data in
  let* nmv := load_int new_mutations in
  let* (new_data, to_del) := st_lift (scan d sd nmv) in
  let* new_labels := st_delete new_labels to_del in
  let* new_mutations := st_delete new_mutations to_del in
  let* new_data := alloc (NdStr new_data) in
  let* new_data := st_delete new_data to_del in
  let* a := load_str new_data in
  let* b := load_num new_labels in
  let* c := load_int new_mutations in
  st_ret (nd ++ a, nl ++ b, nm ++ c).

(** [augment] on the store: takes and returns array objects. *)
Definition augment_st (data labels mutations : nat) (runs : nat) (un : bool)
  : St L (nat * nat * nat) :=
  let* n := st_len labels in
  let* pos := alloc (NdInt (Np.arange n)) in
  let* (nd, nl, nm) :=
    st_foldl (augment_run_st data labels mutations pos) ([], [], [])
             (seq 0 runs) in
  if un then
    let* uni := alloc (NdInt (Np.unique_index nd)) in
    let* a := alloc (NdStr nd) in
    let* rd := st_take a uni in
    let* b := alloc (NdNum nl) in
    let* rl := st_take b uni in
    let* c := alloc (NdInt nm) in
    let* rm := st_take c uni in
    st_ret (rd, rl, rm)
  else
    let* rd := alloc (NdStr nd) in
    let* rl := alloc (NdNum nl) in
    let* rm := alloc (NdInt nm) in
    st_ret (rd, rl, rm).

End Store.

(** ** float64 *)

Module B64.

Definition prec : Z := 53.
Definition emax : Z := 1024.

Definition zero : spec_float := S754_zero false.

(** Conversion of an integer, rounding to nearest even. *)
Definition of_Z (z : Z) : spec_float := binary_normalize prec emax z 0 false.

Definition add : spec_float -> spec_float -> spec_float := SFadd prec emax.
Definition sub : spec_float -> spec_float -> spec_float := SFsub prec emax.
Definition div : spec_float -> spec_float -> spec_float := SFdiv prec emax.

(** [x == y] on floats: false as soon as one side is NaN. *)
Definition eqb : spec_float -> spec_float -> bool := SFeqb.

(** [int(np.ceil(x))]: the least integer not below [x]. *)
Definition ceil_int (x : spec_float) : result Z :=
  match x with
  | S754_zero _ => Ok 0
  | S754_finite s m e =>
      let z := cond_Zopp s (Zpos m) in
      Ok (if 0 <=? e then z * 2 ^ e else - ((- z) / 2 ^ (- e)))
  | S754_infinity _ => Raise OverflowError
  | S754_nan => Raise ValueError
  end.

(** [a / b] on Python integers that a float64 holds exactly (up to
    [2^53] in absolute value): the quotient of the two conversions.
    Python raises [ZeroDivisionError] on a zero divisor. *)
Definition truediv (a b : Z) : result spec_float :=
  if b =? 0 then Raise ZeroDivisionError else Ok (div (of_Z a) (of_Z b)).

End B64.

(** ** Two-dimensional arrays *)

Module Mat.

(** The [r] by [c] array with entry [f i j] at row [i], column [j]. *)
Definition tabulate {A} (r c : nat) (f : nat -> nat -> A) : list (list A) :=
  (fun i => f i <$> seq 0 c) <$> seq 0 r.

Definition entry {A} (d : A) (M : list (list A)) (i j : nat) : A :=
  default d (M !! i ≫= fun row => row !! j).

(** [M.shape] of a two-dimensional array. *)
Definition shape {A} (M : list (list A)) : nat * nat :=
  (length M, match M with [] => 0%nat | row :: _ => length row end).

(** [l.reshape(r, c)] of a one-dimensional array of [r * c] elements. *)
Definition reshape {A} (d : A) (r c : nat) (l : list A) : list (list A) :=
  tabulate r c (fun i j => default d (l !! (i * c + j)%nat)).

(** [M / s] for an integer array [M] and a Python integer [s]: true
    division, element by element, in float64. *)
Definition true_divide (M : list (list Z)) (s : Z) : list (list spec_float) :=
  (fun row : list Z => (fun k => B64.div (B64.of_Z k) (B64.of_Z s)) <$> row) <$> M.

(** [np.triu(M)]: zero below the diagonal. *)
Definition triu (n : nat) (M : list (list spec_float)) : list (list spec_float) :=
  tabulate n n (fun i j =>
    if (j <? i)%nat then B64.zero else entry B64.zero M i j).

(** [M.T]. *)
Definition transpose (n : nat) (M : list (list spec_float))
  : list (list spec_float) :=
  tabulate n n (fun i j => entry B64.zero M j i).

(** [np.diag(np.diag(M))]: the diagonal of [M], zero elsewhere. *)
Definition diag_diag (n : nat) (M : list (list spec_float))
  : list (list spec_float) :=
  tabulate n n (fun i j =>
    if (i =? j)%nat then entry B64.zero M i i else B64.zero).

(** Element-wise combination of two arrays of the same shape. *)
Definition zip_with2 (f : spec_float -> spec_float -> spec_float)
    (M N : list (list spec_float)) : list (list spec_float) :=
  zip_with (zip_with f) M N.

(** [np.fill_diagonal(M, v)]. *)
Definition fill_diagonal (v : spec_float) (M : list (list spec_float))
  : list (list spec_float) :=
  imap (fun i row => <[i := v]> row) M.

End Mat.

(** ** The wild-type encoder *)

Module Dict.

(** A Python [dict] with string keys, in insertion order. *)
Definition t (V : Type) : Type := list (string * V).

(** [d.get(k)]: [None] when the key is missing. *)
Fixpoint get {V} (d : t V) (k : string) : option V :=
  match d with
  | [] => None
  | (k', v) :: d' => if decide (k' = k) then Some v else get d' k
  end.

(** [list(d.values())]. *)
Definition values {V} (d : t V) : list V := snd <$> d.

End Dict.

(** The characters of a Python string, each a string of length one. *)
Fixpoint chars (s : string) : list string :=
  match s with
  | EmptyString => []
  | String c s' => String c EmptyString :: chars s'
  end.

(** The symmetric index matrix built at the end of
    [data_generator_vals]. [np.arange] refuses a length that does not fit
    a signed 64-bit integer. *)
Definition build_mat_index (wt_len : nat) : result (list (list spec_float)) :=
  let mat_size := (Z.of_nat wt_len * Z.of_nat wt_len)%Z in
  if 2 ^ 63 <=? mat_size then Raise ValueError
  else
    let pre_mat_index :=
      Mat.true_divide
        (Mat.reshape 0 wt_len wt_len (Np.arange (Z.to_nat mat_size)))
        (mat_size - 1) in
    let pre_mat_index := Mat.triu wt_len pre_mat_index in
    let mat_index :=
      Mat.zip_with2 B64.sub
        (Mat.zip_with2 B64.add pre_mat_index
                       (Mat.transpose wt_len pre_mat_index))
        (Mat.diag_diag wt_len pre_mat_index) in
    Ok (Mat.fill_diagonal B64.zero mat_index).

Module WildType.

(** What [data_generator_vals] returns. A converted sequence holds
    [None] where [dict.get] found no entry. *)
Record vals (V CoTable CoRows : Type) : Type := Vals {
  hm_pos_vals : list Z;
  hp_norm : V;
  ia_norm : V;
  hm_converted : list (option V);
  hp_converted : list (option V);
  cm_converted : list (option V);
  ia_converted : list (option V);
  mat_index : list (list spec_float);
  cl_converted : list (option V);
  cl_norm : V;
  co_converted : option (list (option V));
  co_table : option CoTable;
  co_rows : option CoRows
}.
Arguments Vals {V CoTable CoRows}.
Arguments hm_pos_vals {V CoTable CoRows}.
Arguments hp_norm {V CoTable CoRows}.
Arguments ia_norm {V CoTable CoRows}.
Arguments hm_converted {V CoTable CoRows}.
Arguments hp_converted {V CoTable CoRows}.
Arguments cm_converted {V CoTable CoRows}.
Arguments ia_converted {V CoTable CoRows}.
Arguments mat_index {V CoTable CoRows}.
Arguments cl_converted {V CoTable CoRows}.
Arguments cl_norm {V CoTable CoRows}.
Arguments co_converted {V CoTable CoRows}.
Arguments co_table {V CoTable CoRows}.
Arguments co_rows {V CoTable CoRows}.

Section Encoder.
(** The property tables of [d4_utils] and the alignment loader of
    [d4_alignments] are not part of the sources at hand: the tables are
    dictionaries over some type [V] of numbers, given with the comparison
    and the arithmetic the encoder applies to their values. *)
Context {V CoTable CoRows : Type}.
Variable vlt : V -> V -> bool.
Variable vsub : V -> V -> V.
Variable vabs : V -> V.
Variable vdouble : V -> V.
Variables hydrophobicity h_bonding charge sasa side_chain_length aa_dict_pos
  : Dict.t V.
Variable alignment_table : string -> option string -> result (CoTable * CoRows).

(** [max(l)] and [min(l)]: [ValueError] on an empty list, otherwise the
    first largest (smallest) element. *)
Definition py_max (l : list V) : result V :=
  match l with
  | [] => Raise ValueError
  | x :: l' => Ok (foldl (fun m y => if vlt m y then y else m) x l')
  end.

Definition py_min (l : list V) : result V :=
  match l with
  | [] => Raise ValueError
  | x :: l' => Ok (foldl (fun m y => if vlt y m then y else m) x l')
  end.

(** [np.asarray(list(map(table.get, wt_seq)))]. *)
Definition convert (table : Dict.t V) (wt_seq : string) : list (option V) :=
  Dict.get table <$> chars wt_seq.

(** [data_generator_vals(wt_seq, alignment_path, alignment_base)]. *)
Definition data_generator_vals (wt_seq : string)
    (alignment_path alignment_base : option string)
  : result (vals V CoTable CoRows) :=
  let hm_pos_vals := [2; 3; 6; 9] in
  let h_vals := Dict.values hydrophobicity in
  h_max ← py_max h_vals;
  h_min ← py_min h_vals;
  let hp_norm := vabs (vsub h_max h_min) in
  s_max ← py_max (Dict.values sasa);
  let ia_norm := vdouble s_max in
  l_max ← py_max (Dict.values side_chain_length);
  let cl_norm := vdouble l_max in
  let hm_converted := convert h_bonding wt_seq in
  let hp_converted := convert hydrophobicity wt_seq in
  let cm_converted := convert charge wt_seq in
  let ia_converted := convert sasa wt_seq in
  let cl_converted := convert side_chain_length wt_seq in
  '(co_converted, co_table, co_rows) ←
    match alignment_path with
    | Some path =>
        let co_converted := convert aa_dict_pos wt_seq in
        '(co_table, co_rows) ← alignment_table path alignment_base;
        Ok (Some co_converted, Some co_table, Some co_rows)
    | None => Ok (None, None, None)
    end;
  let wt_len := String.length wt_seq in
  mat_index ← build_mat_index wt_len;
  Ok (Vals hm_pos_vals hp_norm ia_norm hm_converted hp_converted
           cm_converted ia_converted mat_index cl_converted cl_norm
           co_converted co_table co_rows).

End Encoder.

End WildType.

(** ** The batch generator *)

(** [l[start:stop]] on a sequence: negative bounds count from the end,
    bounds beyond the sequence are clipped. *)
Definition py_slice {A} (l : list A) (start stop : Z) : list A :=
  let n := Z.of_nat (length l) in
  let clip i := Z.max 0 (Z.min n (if i <? 0 then i + n else i)) in
  let lo := clip start in
  let hi := clip stop in
  take (Z.to_nat (hi - lo)) (drop (Z.to_nat lo) l).

(** Whether an array of shape [src] can be assigned to a slot of shape
    [dst] (numpy broadcasting: trailing dimensions agree or are 1 in the
    source, surplus leading dimensions of the source are 1). *)
Fixpoint broadcastable_rev (src dst : list nat) : bool :=
  match src, dst with
  | [], _ => true
  | _ :: _, [] => forallb (Nat.eqb 1) src
  | s :: src', d :: dst' =>
      ((s =? d)%nat || (s =? 1)%nat) && broadcastable_rev src' dst'
  end.

Definition broadcastable (src dst : list nat) : bool :=
  broadcastable_rev (reverse src) (reverse dst).

Module Gen.

(** The arguments [DataGenerator] only hands on to [model_interactions]. *)
Record encoding (V CoTable CoRows : Type) : Type := Encoding {
  interaction_matrix : list (list bool);
  mat_index : list (list spec_float);
  factor : list (list spec_float);
  dist_mat : list (list spec_float);
  dist_th : spec_float;
  first_ind : Z;
  hm_converted : list (option V);
  hm_pos_vals : list Z;
  hp_converted : list (option V);
  hp_norm : V;
  cm_converted : list (option V);
  ia_converted : list (option V);
  ia_norm : V;
  cl_converted : list (option V);
  cl_norm : V;
  co_converted : option (list (option V));
  co_table : option CoTable;
  co_rows : option CoRows
}.
Arguments interaction_matrix {V CoTable CoRows}.
Arguments co_table {V CoTable CoRows}.

(** The attributes of a [DataGenerator]. [idx] exists only once
    [on_epoch_end] has run. *)
Record t (L V CoTable CoRows : Type) : Type := Make {
  features : list string;
  labels : list L;
  enc : encoding V CoTable CoRows;
  dim : nat * nat;
  n_channels : nat;
  batch_size : Z;
  shuffle : bool;
  train : bool;
  idx : option (list Z)
}.
Arguments Make {L V CoTable CoRows}.
Arguments features {L V CoTable CoRows}.
Arguments labels {L V CoTable CoRows}.
Arguments enc {L V CoTable CoRows}.
Arguments dim {L V CoTable CoRows}.
Arguments n_channels {L V CoTable CoRows}.
Arguments batch_size {L V CoTable CoRows}.
Arguments shuffle {L V CoTable CoRows}.
Arguments train {L V CoTable CoRows}.
Arguments idx {L V CoTable CoRows}.

(** The number of channels [model_interactions] produces for a
    configuration, as the training function computes [channel_num]: 7
    with an alignment, 6 without. *)
Definition channel_num {V CoTable CoRows} (e : encoding V CoTable CoRows)
  : nat :=
  match co_table e with Some _ => 7%nat | None => 6%nat end.

Section Generator.
Context {L V CoTable CoRows tensor : Type}.
(** [model_interactions] of [d4_interactions] is not part of the sources
    at hand: it is a function from a variant and the encoding arguments
    to a tensor, or an exception. Of a tensor only its shape matters
    here. *)
Variable model_interactions :
  string -> encoding V CoTable CoRows -> result tensor.
Variable tshape : tensor -> list nat.
(** The copy numpy stores when the shapes differ but broadcast. *)
Variable broadcast_to : list nat -> tensor -> tensor.
(** Conversion of a label to the float64 of [batch_labels]. *)
Variable label_float : L -> spec_float.
Variable rng : shuffler.

Local Abbreviation generator := (t L V CoTable CoRows).

(** [DataGenerator.__init__]: stores its arguments. *)
Definition init (features : list string) (labels : list L)
    (e : encoding V CoTable CoRows) (dim : nat * nat) (n_channels : nat)
    (batch_size : Z) (shuffle train : bool) : result generator :=
  Ok (Make features labels e dim n_channels batch_size shuffle train None).

(** [DataGenerator.__len__]. *)
Definition len (self : generator) : result Z :=
  q ← B64.truediv (Z.of_nat (length (features self))) (batch_size self);
  B64.ceil_int q.

(** [batch_features[ci] = final_matrix] on an array of [np.empty] slots
    ([None] is a slot never written). *)
Definition set_slot (self : generator) (batch : list (option tensor))
    (ci : nat) (m : tensor) : result (list (option tensor)) :=
  if (ci <? length batch)%nat then
    let slot := [(dim self).1; (dim self).2; n_channels self] in
    if decide (tshape m = slot) then Ok (<[ci := Some m]> batch)
    else if broadcastable (tshape m) slot
         then Ok (<[ci := Some (broadcast_to slot m)]> batch)
         else Raise ValueError
  else Raise IndexError.

(** The body of the loop of [__batch_variants]; the state is
    [(batch_features, batch_labels)]. *)
Definition batch_step (self : generator) (corresponding_labels : list L)
    (st : list (option tensor) * list (option spec_float))
    (x : nat * string)
  : result (list (option tensor) * list (option spec_float)) :=
  let '(batch_features, batch_labels) := st in
  let '(ci, i) := x in
  final_matrix ← model_interactions i (enc self);
  batch_features ← set_slot self batch_features ci final_matrix;
  l ← Np.getitem corresponding_labels (Z.of_nat ci);
  if (ci <? length batch_labels)%nat then
    Ok (batch_features, <[ci := Some (label_float l)]> batch_labels)
  else Raise IndexError.

(** [DataGenerator.__batch_variants]. *)
Definition batch_variants (self : generator)
    (features_to_encode : list string) (corresponding_labels : list L)
  : result (list (option tensor) * list (option spec_float)) :=
  let first_dim := length corresponding_labels in
  foldlM (batch_step self corresponding_labels)
         (replicate first_dim None, replicate first_dim None)
         (Np.enumerate_from 0 features_to_encode).

(** The two windows [__getitem__] cuts. *)
Definition features_batch (self : generator) (i : Z) : list string :=
  py_slice (features self) (i * batch_size self) ((i + 1) * batch_size self).

Definition label_batch (self : generator) (i : Z) : list L :=
  py_slice (labels self) (i * batch_size self) ((i + 1) * batch_size self).

(** [DataGenerator.__getitem__]: the tensors, and the labels when
    [train] is set. *)
Definition getitem (self : generator) (i : Z)
  : result (list (option tensor) * option (list (option spec_float))) :=
  '(f, l) ← batch_variants self (features_batch self i) (label_batch self i);
  if train self then Ok (f, Some l) else Ok (f, None).

(** [DataGenerator.on_epoch_end]; [c] numbers the calls of
    [np.random.shuffle]. *)
Definition on_epoch_end (c : nat) (self : generator) : generator :=
  let fresh := Np.arange (length (features self)) in
  Make (features self) (labels self) (enc self) (dim self) (n_channels self)
       (batch_size self) (shuffle self) (train self)
       (Some (if shuffle self then random_shuffle rng c fresh else fresh)).

(** The dataset in the order [idx] gives, which is what a generator that
    shuffles between epochs would cut its windows from. *)
Definition epoch_order (self : generator) : result (list string) :=
  match idx self with
  | Some order => Np.take (features self) order
  | None => Raise AttributeError
  end.

End Generator.

End Gen.

(** ** Auxiliary notions used by the statements *)

(** An index that [np.take] accepts without wrapping around. *)
Definition in_range (n : nat) (i : Z) : Prop := 0 <= i < Z.of_nat n.

(** ** Small concrete instances for the examples *)

(** A property table with four residues; [X] is not among its keys. *)
Definition demo_table : Dict.t Z := [("A", 1); ("V", 2); ("L", 3); ("I", 4)].

(** No alignment is loaded in the examples. *)
Definition no_alignment (path : string) (base : option string)
  : result (unit * unit) :=
  Raise ValueError.

(** The encoder over [demo_table] for all six tables. *)
Definition demo_vals (wt_seq : string)
  : result (WildType.vals Z unit unit) :=
  WildType.data_generator_vals Z.ltb Z.sub Z.abs (Z.mul 2)
    demo_table demo_table demo_table demo_table demo_table demo_table
    no_alignment wt_seq None None.

(** A 2 by 2 contact mask and the encoding arguments around it; there
    is no alignment, so the configuration has 6 channels. *)
Definition demo_encoding : Gen.encoding Z unit unit :=
  Gen.Encoding Z unit unit
    [[false; true]; [true; false]] [] [] [] B64.zero 1
    [] [2; 3; 6; 9] [] 0 [] [] 0 [] 0 None None None.

(** A stand-in for [model_interactions] that returns a tensor of the
    given shape for every variant; a tensor is its shape. *)
Definition constant_model (shape : list nat) (variant : string)
    (e : Gen.encoding Z unit unit) : result (list nat) :=
  Ok shape.

Definition demo_init (dim : nat * nat) (n_channels : nat) (batch_size : Z)
  : result (Gen.t Z Z unit unit) :=
  Gen.init ["S1A"; "D35T"; "V2A"] [10; 20; 30] demo_encoding
           dim n_channels batch_size true true.

(** The generator [demo_init] builds. *)
Definition demo_generator (dim : nat * nat) (n_channels : nat)
    (batch_size : Z) : Gen.t Z Z unit unit :=
  Gen.Make ["S1A"; "D35T"; "V2A"] [10; 20; 30] demo_encoding
           dim n_channels batch_size true true None.

(** ** Frames on the store *)

(** Run from any store that extends [h0], the computation [m] leaves the
    cells of [h0] as they are, and its result satisfies [Q]. *)
Definition keeps {L A} (h0 : heap L) (m : St L A) (Q : A -> Prop) : Prop :=
  forall h, h0 `prefix_of` h ->
    match m h with
    | Ok (a, h') => h0 `prefix_of` h' /\ Q a
    | Raise _ => True
    end.

(** A cell that did not exist in [h0]. *)
Definition fresh_in {L} (h0 : heap L) (l : nat) : Prop := (length h0 <= l)%nat.

(** A store with the three arrays of the examples. *)
Definition demo_heap : heap Z :=
  [NdStr ["V2A"; "S1A"; "D35T"]; NdNum [10; 20; 30]; NdInt [1; 1; 1]].

(** ** Floats that are numbers *)

Definition is_nan (x : spec_float) : bool :=
  match x with S754_nan => true | _ => false end.

(** ** The entries of the index matrix *)

(** An [n] by [n] array. *)
Definition square {A} (n : nat) (M : list (list A)) : Prop :=
  length M = n /\ Forall (fun row => length row = n) M.

(** Entry [(i, j)] of [np.arange(n * n).reshape(n, n) / (n * n - 1)]. *)
Definition index_quotient (n i j : nat) : spec_float :=
  B64.div (B64.of_Z (Z.of_nat (i * n + j)))
          (B64.of_Z (Z.of_nat n * Z.of_nat n - 1)).

(** Entry [(i, j)] of its upper triangle. *)
Definition index_upper (n i j : nat) : spec_float :=
  if (j <? i)%nat then B64.zero else index_quotient n i j.

(** Entry [(i, j)] of the index matrix. *)
Definition index_entry (n i j : nat) : spec_float :=
  if (i =? j)%nat then B64.zero
  else B64.sub (B64.add (index_upper n i j) (index_upper n j i))
               (if (i =? j)%nat then index_upper n i i else B64.zero).

(** ** Counting batches *)

(** The least integer not below [a / b], for [b > 0]. *)
Definition ceil_div (a b : Z) : Z := - ((- a) / b).

(** A generator over [n] copies of one sample. *)
Definition sized_generator (n : nat) (batch_size : Z) : Gen.t Z Z unit unit :=
  Gen.Make (replicate n "S1A") (replicate n 10) demo_encoding
           (2, 2)%nat 6 batch_size false true None.

(** ** More instances for the examples *)

(** A stand-in for [model_interactions] that fails with [KeyError] on
    one variant and returns a tensor of the given shape for the others. *)
Definition failing_model (bad : string) (shape : list nat) (variant : string)
    (e : Gen.encoding Z unit unit) : result (list nat) :=
  if decide (variant = bad) then Raise KeyError else Ok shape.

(** A generator with its own features and labels over the 2 by 2 contact
    mask of the examples. *)
Definition small_generator (features : list string) (labels : list Z)
    (batch_size : Z) (train : bool) : Gen.t Z Z unit unit :=
  Gen.Make features labels demo_encoding (2, 2)%nat 6 batch_size false train
           None.

(** A variant that [model_interactions] encodes into a tensor that fits
    a slot of the batch array as it is. *)
Definition encodes {L V CoTable CoRows tensor : Type}
    (model_interactions :
       string -> Gen.encoding V CoTable CoRows -> result tensor)
    (tshape : tensor -> list nat)
    (self : Gen.t L V CoTable CoRows) (v : string) (m : tensor) : Prop :=
  model_interactions v (Gen.enc self) = Ok m /\
  tshape m = [(Gen.dim self).1; (Gen.dim self).2; Gen.n_channels self].

(** An alignment loader that succeeds, with a table and rows of no
    content. *)
Definition loaded_alignment (path : string) (base : option string)
  : result (unit * unit) :=
  Ok (tt, tt).

(** The encoder over [demo_table] with an alignment loader of choice. *)
Definition demo_vals_aligned
    (loader : string -> option string -> result (unit * unit))
    (wt_seq : string) (path : option string)
  : result (WildType.vals Z unit unit) :=
  WildType.data_generator_vals Z.ltb Z.sub Z.abs (Z.mul 2)
    demo_table demo_table demo_table demo_table demo_table demo_table
    loader wt_seq path None.

(** ** The training callback [CustomPrint]

    The callback keeps the best training and validation loss seen so far
    and saves the model when the validation loss improves. What it prints
    and the call of [model.save] are recorded as events that carry the
    values printed; the rendering of the text and the clock
    ([start_time_epoch], [start_time_training]) are left out. An
    exception ends the training, so the state it leaves behind is not
    kept. *)

Module CustomPrint.

Record t : Type := Make {
  epoch_print : Z;
  best_loss : spec_float;
  bl_epoch : Z;
  best_val_loss : spec_float;
  bvl_epoch : Z;
  latest_loss : spec_float;
  latest_val_loss : spec_float;
  epoch_stat_print : Z;
  num_batches : Z;
  pb_len : Z;
  model_d : string;
  epoch_since_model_save : Z;
  model_save_interval : Z;
  save : bool
}.

Inductive event : Type :=
  | PrintEpoch (epoch : Z)
      (cur_loss cur_val_loss loss_change val_loss_change : spec_float)
  | SaveModel (path : string)
  | PrintStats (bl_epoch bvl_epoch : Z)
      (d dp best_loss d_cl best_val_loss d_cvl : spec_float)
  | PrintOverall (bl_epoch : Z) (best_loss : spec_float)
      (bvl_epoch : Z) (best_val_loss : spec_float).

(** [np.Inf]. *)
Definition inf : spec_float := S754_infinity false.

(** [x < y] and [x * y] on floats. *)
Definition flt : spec_float -> spec_float -> bool := SFltb.
Definition fmul : spec_float -> spec_float -> spec_float :=
  SFmul B64.prec B64.emax.

(** [CustomPrint.__init__]. *)
Definition init (num_batches epoch_print epoch_stat_print pb_len : Z)
    (model_d : string) (model_save_interval : Z) (save : bool) : t :=
  Make epoch_print inf 0 inf 0 B64.zero B64.zero epoch_stat_print
       num_batches pb_len model_d 0 model_save_interval save.

(** [logs[key]]: [logs] defaults to [None], which cannot be
    subscripted. *)
Definition logs_getitem (logs : option (Dict.t spec_float)) (key : string)
  : result spec_float :=
  match logs with
  | None => Raise TypeError
  | Some d =>
      match Dict.get d key with
      | Some v => Ok v
      | None => Raise KeyError
      end
  end.

(** [a % b] on Python integers. *)
Definition py_mod (a b : Z) : result Z :=
  if b =? 0 then Raise ZeroDivisionError else Ok (a mod b).

(** [CustomPrint.on_epoch_end]: the new state and what the call printed
    and saved, in order. *)
Definition on_epoch_end (self : t) (epoch : Z)
    (logs : option (Dict.t spec_float)) : result (t * list event) :=
  cur_loss ← logs_getitem logs "loss";
  cur_val_loss ← logs_getitem logs "val_loss";
  r ← py_mod epoch (epoch_print self);
  let out1 :=
    if r =? 0
    then [PrintEpoch epoch cur_loss cur_val_loss
            (B64.sub cur_loss (latest_loss self))
            (B64.sub cur_val_loss (latest_val_loss self))]
    else [] in
  let '(best_loss1, bl_epoch1) :=
    if flt cur_loss (best_loss self) then (cur_loss, epoch)
    else (best_loss self, bl_epoch self) in
  let '(best_val_loss1, bvl_epoch1, since1, out2) :=
    if flt cur_val_loss (best_val_loss self) then
      if save self then
        if model_save_interval self <=? epoch - epoch_since_model_save self
        then (cur_val_loss, epoch, epoch, [SaveModel (model_d self)])
        else (cur_val_loss, epoch, epoch_since_model_save self, [])
      else (cur_val_loss, epoch, epoch_since_model_save self, [])
    else (best_val_loss self, bvl_epoch self, epoch_since_model_save self, [])
  in
  r2 ← py_mod epoch (epoch_stat_print self);
  let out3 :=
    if (r2 =? 0) && (0 <? epoch) then
      let d := SFabs (B64.sub best_loss1 best_val_loss1) in
      let dp :=
        if negb (B64.eqb d B64.zero) && negb (B64.eqb best_val_loss1 B64.zero)
        then fmul (B64.div d best_val_loss1) (B64.of_Z 100)
        else S754_nan in
      [PrintStats bl_epoch1 bvl_epoch1 d dp best_loss1
         (B64.sub cur_loss best_loss1) best_val_loss1
         (B64.sub cur_val_loss best_val_loss1)]
    else [] in
  Ok (Make (epoch_print self) best_loss1 bl_epoch1 best_val_loss1 bvl_epoch1
           cur_loss cur_val_loss (epoch_stat_print self) (num_batches self)
           (pb_len self) (model_d self) since1 (model_save_interval self)
           (save self),
      out1 ++ out2 ++ out3).

(** [CustomPrint.on_train_end]. *)
Definition on_train_end (self : t) : list event :=
  (if save self then [SaveModel (model_d self +:+ "_end")] else [])
  ++ [PrintOverall (bl_epoch self) (best_loss self)
        (bvl_epoch self) (best_val_loss self)].

(** The calls of [on_epoch_end] of a training, one after the other: the
    final state and, for every call, its epoch and its events. *)
Definition run_epochs (self : t)
    (calls : list (Z * option (Dict.t spec_float)))
  : result (t * list (Z * list event)) :=
  foldlM (fun st call =>
            '(s, out) ← on_epoch_end st.1 call.1 call.2;
            Ok (s, st.2 ++ [(call.1, out)]))
         (self, []) calls.

Definition is_save (e : event) : bool :=
  match e with SaveModel _ => true | _ => false end.

(** The epochs at which the model was saved. *)
Definition saved_epochs (trace : list (Z * list event)) : list Z :=
  omap (fun p : Z * list event =>
          if existsb is_save p.2 then Some p.1 else None) trace.

End CustomPrint.

(** Epochs that are at least [d] apart, the first at least [d] after
    [last]. *)
Fixpoint spaced (d last : Z) (l : list Z) : Prop :=
  match l with
  | [] => True
  | e :: l' => d <= e - last /\ spaced d e l'
  end.

(** The loss a call reports under [key], if it does. *)
Definition reported (key : string) (call : Z * option (Dict.t spec_float))
  : option spec_float :=
  call.2 ≫= fun d => Dict.get d key.

(** An order-preserving key for the floats that are numbers: the sign
    class, then exponent and mantissa. *)
Definition float_key (x : spec_float) : Z * Z * Z :=
  match x with
  | S754_infinity true => (- 2, 0, 0)
  | S754_finite true m e => (- 1, - e, - Zpos m)
  | S754_zero _ => (0, 0, 0)
  | S754_nan => (0, 0, 0)
  | S754_finite false m e => (1, e, Zpos m)
  | S754_infinity false => (2, 0, 0)
  end.

Definition lex3_lt (a b : Z * Z * Z) : Prop :=
  a.1.1 < b.1.1 \/
  (a.1.1 = b.1.1 /\ (a.1.2 < b.1.2 \/ (a.1.2 = b.1.2 /\ a.2 < b.2))).

(** The training losses of four epochs, the validation loss improving at
    epochs 0, 2 and 3. *)
Definition demo_calls : list (Z * option (Dict.t spec_float)) :=
  [(0, Some [("loss", B64.of_Z 9); ("val_loss", B64.of_Z 8)]);
   (1, Some [("loss", B64.of_Z 7); ("val_loss", B64.of_Z 8)]);
   (2, Some [("loss", B64.of_Z 7); ("val_loss", B64.of_Z 6)]);
   (3, Some [("loss", B64.of_Z 8); ("val_loss", B64.of_Z 5)])].

(** The update of a best loss and its epoch by one reported loss. *)
Definition track (best : spec_float * Z) (x : Z * spec_float)
  : spec_float * Z :=
  if CustomPrint.flt x.2 best.1 then (x.2, x.1) else best.

(** [b], first reached at epoch [e], is the best of the losses the calls
    report under [key]: no reported loss is below it, it is not NaN, and
    it is either the initial [inf] with epoch 0 or the loss of a call of
    epoch [e] that no earlier call reported. *)
Definition first_minimum (key : string)
    (calls : list (Z * option (Dict.t spec_float)))
    (b : spec_float) (e : Z) : Prop :=
  is_nan b = false /\
  (forall c l, c ∈ calls -> reported key c = Some l ->
     CustomPrint.flt l b = false) /\
  ((b = CustomPrint.inf /\ e = 0) \/
   exists i c, calls !! i = Some c /\ reported key c = Some b /\ e = c.1 /\
     forall j c', (j < i)%nat -> calls !! j = Some c' ->
       reported key c' <> Some b).

(** ** The augmentation block of [run_all]

    When [daug] is set, [run_all] enlarges the training split before it
    builds the generators: three rounds of [augment] on the growing
    training data, then a cut to [cap] samples and the original training
    split appended. The block is embedded as a function of the training
    split after the restriction to [max_train_mutations] and of the
    original split; what it prints is left out. Labels are [float64].
    The generator of [np.random] is shared by the three calls of
    [augment], so the oracle of the second call continues where the first
    one stopped. *)

(** The oracle after [k] calls of [np.random.shuffle]. *)
Definition shift_rng (k : nat) (rng : shuffler) : shuffler :=
  {| random_shuffle := fun c xs => random_shuffle rng (k + c) xs;
     random_shuffle_perm := fun c xs => random_shuffle_perm rng (k + c) xs |}.

Module RunAll.

Definition split : Type := list string * list spec_float * list Z.

(** [decay = 0.2]. *)
Definition decay : spec_float := B64.div (B64.of_Z 2) (B64.of_Z 10).

(** [1 - i * decay]. *)
Definition label_factor (i : nat) : spec_float :=
  B64.sub (B64.of_Z 1) (CustomPrint.fmul (B64.of_Z (Z.of_nat i)) decay).

(** One round of the loop [for i in range(3)]. *)
Definition daug_round (rng : shuffler) (st : split) (i : nat) : result split :=
  let '(train_data, train_labels, train_mutations) := st in
  '(aug_data, aug_labels, aug_mutations) ←
    augment B64.add (shift_rng (4 * i) rng)
            train_data train_labels train_mutations 4 false;
  Ok (train_data ++ aug_data,
      train_labels
      ++ ((fun x => CustomPrint.fmul x (label_factor i)) <$> aug_labels),
      train_mutations ++ aug_mutations).

(** The block under [if daug:]; [run_all] has [cap = 20000]. *)
Definition daug_with_cap (cap : Z) (rng : shuffler) (train orig : split)
  : result split :=
  let '(otd, otl, otm) := orig in
  let ot_len := Z.of_nat (length otl) in
  '(train_data, train_labels, train_mutations) ←
    foldlM (daug_round rng) train (seq 0 3);
  let nt_len := Z.of_nat (length train_labels) in
  let s_inds := Np.arange (length train_labels) in
  train_data ← Np.take train_data s_inds;
  train_labels ← Np.take train_labels s_inds;
  train_mutations ← Np.take train_mutations s_inds;
  if cap <? nt_len + ot_len then
    let need := cap - ot_len in
    let need := if need <? 0 then 0 else need in
    if 0 <? need then
      Ok (py_slice train_data 0 need ++ otd,
          py_slice train_labels 0 need ++ otl,
          py_slice train_mutations 0 need ++ otm)
    else Ok (otd, otl, otm)
  else
    Ok (train_data ++ otd, train_labels ++ otl, train_mutations ++ otm).

Definition daug : shuffler -> split -> split -> result split :=
  daug_with_cap 20000.

(** The three arrays of a split have the same length. *)
Definition parallel (s : split) : Prop :=
  length s.1.1 = length s.1.2 /\ length s.2 = length s.1.2.

End RunAll.

(** A training split of three samples for the examples. *)
Definition demo_split : RunAll.split :=
  (["V2A"; "S1A"; "D35T"], [B64.of_Z 1; B64.of_Z 2; B64.of_Z 3], [1; 1; 1]).
Example split_two : PyStr.split PyStr.comma "D35T,V20R" = ["D35T"; "V20R"].
Proof. reflexivity. Qed.

Example split_empty : PyStr.split PyStr.comma "" = [""].
Proof. reflexivity. Qed.

Example join_two : PyStr.join "," ["D35T"; "V20R"] = "D35T,V20R".
Proof. reflexivity. Qed.

Example sort_tokens : Np.sort ["S1A"; "D35T"; "V20R"] = ["D35T"; "S1A"; "V20R"].
Proof. vm_compute. reflexivity. Qed.

Example unique_index_ex :
  Np.unique_index ["b"; "a"; "b"; "c"; "a"] = [1; 0; 3].
Proof. vm_compute. reflexivity. Qed.

Example delete_ex : Np.delete ["a"; "b"; "c"; "d"] [1; 3]%nat = Ok ["a"; "c"].
Proof. vm_compute. reflexivity. Qed.


Example augment_disjoint :
  augment Z.add reversing ["S1A"; "D35T"] [10; 20] [1; 1] 1 false
  = Ok (["D35T,S1A"; "D35T,S1A"], [30; 30], [2; 2]).
Proof. vm_compute. reflexivity. Qed.

Example augment_same_token :
  augment Z.add lazy_rng ["S1A"; "D35T"] [10; 20] [1; 1] 1 false
  = Ok ([], [], []).
Proof. vm_compute. reflexivity. Qed.

Example augment_same_position :
  augment Z.add reversing ["S1A"; "S1R"] [10; 20] [1; 1] 1 false
  = Ok (["S1A,S1R"; "S1A,S1R"], [30; 30], [2; 2]).
Proof. vm_compute. reflexivity. Qed.

Example augment_un :
  augment Z.add reversing ["S1A"; "D35T"] [10; 20] [1; 1] 2 true
  = Ok (["D35T,S1A"], [30], [2]).
Proof. vm_compute. reflexivity. Qed.

(** * Properties *)

(** ** The exception monad and the numpy primitives *)

Lemma foldlM_app {S X} (body : S -> X -> result S) (st : S) (xs ys : list X) :
  foldlM body st (xs ++ ys) = (st' ← foldlM body st xs; foldlM body st' ys).
Proof.
  revert st. induction xs as [|x xs IH]; intros st; simpl; [done|].
  destruct (body st x) as [st'|e]; simpl; [apply IH|done].
Qed.

Lemma traverse_Forall2 {X Y} (f : X -> result Y) (P : X -> Y -> Prop) xs :
  Forall (fun x => exists y, f x = Ok y /\ P x y) xs ->
  exists ys, traverse f xs = Ok ys /\ Forall2 P xs ys.
Proof.
  induction 1 as [|x xs (y & Hy & HP) _ (ys & Hys & HF)]; simpl.
  - exists []. split; [done|constructor].
  - exists (y :: ys). rewrite Hy. simpl. rewrite Hys. simpl.
    split; [done|by constructor].
Qed.

Lemma getitem_in_range {A} (a : list A) (i : Z) :
  0 <= i < Z.of_nat (length a) ->
  exists x, a !! Z.to_nat i = Some x /\ Np.getitem a i = Ok x.
Proof.
  intros Hi. unfold Np.getitem.
  destruct (Z.ltb_spec i 0) as [?|_]; [lia|].
  destruct (Z.leb_spec 0 i) as [_|?]; [|lia].
  destruct (Z.ltb_spec i (Z.of_nat (length a))) as [_|?]; [|lia]. simpl.
  destruct (lookup_lt_is_Some_2 a (Z.to_nat i)) as [x Hx]; [lia|].
  exists x. by rewrite Hx.
Qed.

Lemma getitem_lookup {A} (a : list A) (i : nat) (x : A) :
  a !! i = Some x -> Np.getitem a (Z.of_nat i) = Ok x.
Proof.
  intros Hx. pose proof (lookup_lt_Some _ _ _ Hx) as Hlt.
  destruct (getitem_in_range a (Z.of_nat i)) as (y & Hy & ->); [lia|].
  rewrite Nat2Z.id in Hy. congruence.
Qed.

Lemma take_in_range {A} (a : list A) (idx : list Z) :
  Forall (in_range (length a)) idx ->
  exists b, Np.take a idx = Ok b /\
            Forall2 (fun i x => a !! Z.to_nat i = Some x) idx b.
Proof.
  intros H. apply traverse_Forall2. eapply Forall_impl; [exact H|].
  intros i Hi. destruct (getitem_in_range a i Hi) as (x & ? & ?). eauto.
Qed.

Lemma arange_in_range (n : nat) : Forall (in_range n) (Np.arange n).
Proof.
  unfold Np.arange. apply Forall_fmap, Forall_forall. intros i Hi.
  apply elem_of_seq in Hi. unfold in_range; simpl. lia.
Qed.

Lemma length_arange (n : nat) : length (Np.arange n) = n.
Proof. unfold Np.arange. by rewrite length_fmap, length_seq. Qed.

Lemma lookup_arange (n i : nat) :
  (i < n)%nat -> Np.arange n !! i = Some (Z.of_nat i).
Proof.
  intros Hi. unfold Np.arange. rewrite list_lookup_fmap.
  by rewrite lookup_seq_lt.
Qed.

Lemma add_same_length {A} (f : A -> A -> A) (a b : list A) :
  length a = length b -> Np.add f a b = Ok (zip_with f a b).
Proof. intros H. unfold Np.add. by rewrite decide_True. Qed.

Lemma wrap64_small (z : Z) : Np.int64 z -> Np.wrap64 z = z.
Proof.
  unfold Np.int64, Np.wrap64. intros H.
  rewrite Z.mod_small; lia.
Qed.

Lemma wrap64_range (z : Z) : Np.int64 (Np.wrap64 z).
Proof.
  unfold Np.int64, Np.wrap64.
  pose proof (Z.mod_pos_bound (z + 2 ^ 63) (2 ^ 64)). lia.
Qed.

Lemma wrap64_overflow (z : Z) :
  2 ^ 63 <= z < 2 ^ 64 -> Np.wrap64 z = z - 2 ^ 64.
Proof.
  unfold Np.wrap64. intros H.
  replace (z + 2 ^ 63) with ((z - 2 ^ 63) + 1 * 2 ^ 64) by lia.
  rewrite Z.mod_add by lia. rewrite Z.mod_small; lia.
Qed.

(** ** One run of the augmentation loop *)

Section AugmentRun.
Context {L : Type}.
Variable ladd : L -> L -> L.
Variable rng : shuffler.
Implicit Types (r : row L) (rows : list (row L)).

Lemma to_del_rows_bounds off rows :
  Forall (fun i => (off <= i < off + length rows)%nat) (to_del_rows off rows).
Proof.
  revert off. induction rows as [|r rows IH]; intros off; simpl; [constructor|].
  apply Forall_app. split.
  - destruct (decide (accepted r)); repeat constructor; lia.
  - eapply Forall_impl; [apply IH|]. simpl. intros; lia.
Qed.

(** The inner loop appends one string per candidate and records the
    positions of the candidates that fail the test. *)
Lemma scan_fold rows : forall (ps : list (string * string)) nm_pre nd0 td0,
  (fun p => pos_new_data p.1 p.2) <$> ps = (fun r => r.1.1) <$> rows ->
  foldlM (scan_step (nm_pre ++ (row_count <$> rows))) (nd0, td0)
         (Np.enumerate_from (length nm_pre) ps)
  = Ok (nd0 ++ (row_data <$> rows), td0 ++ to_del_rows (length nm_pre) rows).
Proof.
  induction rows as [|r rows IH]; intros [|[j k] ps] nm_pre nd0 td0 Hps;
    simpl in Hps; try discriminate Hps.
  { simpl. by rewrite !app_nil_r. }
  injection Hps as Hjk Hps.
  pose proof (IH ps (nm_pre ++ [row_count r])) as IH'.
  rewrite <- app_assoc, length_app, Nat.add_1_r in IH'. simpl in IH'.
  cbn [Np.enumerate_from foldlM scan_step fmap list_fmap to_del_rows].
  rewrite (getitem_lookup _ _ (row_count r))
    by apply list_lookup_middle, eq_refl.
  cbn [mbind result_bind]. rewrite IH' by exact Hps.
  unfold row_data at 2, accepted, row_count. rewrite Hjk.
  rewrite <- !app_assoc. simpl.
  destruct (decide (Z.of_nat (length (Np.unique r.1.1)) = r.2)),
    (decide (Z.of_nat (length (Np.unique r.1.1)) = r.2)); try done.
  by rewrite <- app_assoc.
Qed.

(** Deleting the recorded positions from any array that runs parallel to
    the candidates keeps exactly the entries of the accepted ones. *)
Lemma filter_to_del {X} (f : row L -> X) rows : forall off pre,
  Forall (fun i => (i < off)%nat) pre ->
  snd <$> filter (fun p => p.1 ∉ pre ++ to_del_rows off rows)
                 (Np.enumerate_from off (f <$> rows))
  = f <$> filter accepted rows.
Proof.
  induction rows as [|r rows IH]; intros off pre Hpre; simpl; [done|].
  assert (off ∉ pre) as Hoff.
  { intros Hin. rewrite Forall_forall in Hpre. specialize (Hpre _ Hin). lia. }
  assert (off ∉ to_del_rows (S off) rows) as Hoff'.
  { intros Hin. pose proof (to_del_rows_bounds (S off) rows) as Hb.
    rewrite Forall_forall in Hb. specialize (Hb _ Hin). lia. }
  destruct (decide (accepted r)) as [Hacc|Hrej]; simpl.
  - rewrite filter_cons_True by (simpl; by apply not_elem_of_app).
    rewrite (filter_cons_True accepted) by done. simpl. f_equal.
    apply IH. eapply Forall_impl; [exact Hpre|]. simpl; lia.
  - rewrite filter_cons_False
      by (simpl; intros Hn; apply Hn, elem_of_app; right; left).
    rewrite (filter_cons_False accepted) by done.
    replace (pre ++ off :: to_del_rows (S off) rows)
      with ((pre ++ [off]) ++ to_del_rows (S off) rows)
      by (by rewrite <- app_assoc).
    apply IH.
    apply Forall_app. split; [|repeat constructor; lia].
    eapply Forall_impl; [exact Hpre|]. simpl; lia.
Qed.

Lemma delete_to_del {X} (f : row L -> X) rows :
  Np.delete (f <$> rows) (to_del_rows 0 rows)
  = Ok (f <$> filter accepted rows).
Proof.
  unfold Np.delete.
  assert (forallb (fun i => (i <? length (f <$> rows))%nat) (to_del_rows 0 rows)
          = true) as ->.
  { apply forallb_forall. intros i Hi. apply Nat.ltb_lt.
    pose proof (to_del_rows_bounds 0 rows) as Hb.
    rewrite Forall_forall in Hb. apply list_elem_of_In in Hi.
    specialize (Hb _ Hi). rewrite length_fmap. lia. }
  f_equal. apply (filter_to_del f rows 0 []). constructor.
Qed.

(** Projections commute with the pairing of two parallel lists. *)
Lemma fmap_zip_with_proj {A B C D E R} (u : C -> E) (f : A -> B -> C)
    (g : D -> A) (g' : D -> B) (h : R -> E) (mk : D -> D -> R) :
  (forall x y, u (f (g x) (g' y)) = h (mk x y)) ->
  forall xs ys,
    u <$> zip_with f (g <$> xs) (g' <$> ys) = h <$> zip_with mk xs ys.
Proof.
  intros Hu. induction xs as [|x xs IH]; intros [|y ys]; simpl; try done.
  by rewrite Hu, IH.
Qed.

Lemma zip_with_proj {A B C D R} (f : A -> B -> C)
    (g : D -> A) (g' : D -> B) (h : R -> C) (mk : D -> D -> R) :
  (forall x y, f (g x) (g' y) = h (mk x y)) ->
  forall xs ys, zip_with f (g <$> xs) (g' <$> ys) = h <$> zip_with mk xs ys.
Proof.
  intros Hu xs ys.
  rewrite <- (fmap_zip_with_proj id f g g' h mk) by exact Hu.
  by rewrite list_fmap_id.
Qed.

Lemma zip3_proj {A B C} (a : list A) (b : list B) (c : list C) :
  length a = length b -> length c = length b ->
  (fun x => x.1.1) <$> zip (zip a b) c = a /\
  (fun x => x.1.2) <$> zip (zip a b) c = b /\
  snd <$> zip (zip a b) c = c.
Proof.
  intros Hab Hcb.
  assert (fst <$> zip (zip a b) c = zip a b) as H1.
  { apply fst_zip. rewrite length_zip. lia. }
  split_and!.
  - transitivity (fst <$> (fst <$> zip (zip a b) c)).
    { by rewrite <- list_fmap_compose. }
    rewrite H1. apply fst_zip. lia.
  - transitivity (snd <$> (fst <$> zip (zip a b) c)).
    { by rewrite <- list_fmap_compose. }
    rewrite H1. apply snd_zip. lia.
  - apply snd_zip. rewrite length_zip. lia.
Qed.

Lemma perm_arange (pos : list Z) (n : nat) :
  pos ≡ₚ Np.arange n -> Forall (in_range n) pos /\ length pos = n.
Proof.
  intros H. split.
  - rewrite H. apply arange_in_range.
  - rewrite H. apply length_arange.
Qed.

(** On parallel arrays the first half of an iteration never raises; its
    outcome is described by the candidates [rows] of the run. *)
Lemma run_candidates_spec data labels mutations pos :
  length data = length labels ->
  length mutations = length labels ->
  pos ≡ₚ Np.arange (length labels) ->
  exists rows,
    run_rows ladd data labels mutations pos rows /\
    run_candidates ladd data labels mutations pos
    = Ok (row_label <$> rows, row_count <$> rows, row_data <$> rows,
          to_del_rows 0 rows).
Proof.
  intros Hd Hm Hpos. unfold run_candidates, run_rows.
  destruct (perm_arange _ _ Hpos) as [Hrange Hlen].
  destruct (take_in_range labels pos) as (sl & -> & Fsl); [done|].
  destruct (take_in_range mutations pos) as (sm & -> & Fsm);
    [by rewrite Hm|].
  destruct (take_in_range data pos) as (sd & -> & Fsd); [by rewrite Hd|].
  pose proof (Forall2_length _ _ _ Fsl) as Lsl.
  pose proof (Forall2_length _ _ _ Fsm) as Lsm.
  pose proof (Forall2_length _ _ _ Fsd) as Lsd.
  destruct (zip3_proj data labels mutations) as (Xd & Xl & Xm); [done..|].
  destruct (zip3_proj sd sl sm) as (Yd & Yl & Ym); [lia..|].
  remember (zip (zip data labels) mutations) as xs eqn:Hxs.
  remember (zip (zip sd sl) sm) as ys eqn:Hys.
  set (mk := fun x y : string * L * Z =>
               (pos_new_data x.1.1 y.1.1, ladd x.1.2 y.1.2, Np.add64 x.2 y.2)).
  assert (length xs = length labels) as Lxs.
  { rewrite Hxs, !length_zip. lia. }
  assert (length ys = length labels) as Lys.
  { rewrite Hys, !length_zip. lia. }
  exists (zip_with mk xs ys). split.
  - apply Forall2_same_length_lookup_2.
    { rewrite length_seq, length_zip_with. lia. }
    intros k k' r Hk Hr. apply lookup_seq in Hk as [-> Hk]. simpl.
    apply lookup_zip_with_Some in Hr as (x & y & -> & Hx & Hy).
    destruct (lookup_lt_is_Some_2 pos k) as [p Hp]; [lia|].
    assert (data !! k = Some x.1.1) as Dk.
    { by rewrite <- Xd, list_lookup_fmap, Hx. }
    assert (labels !! k = Some x.1.2) as Lk.
    { by rewrite <- Xl, list_lookup_fmap, Hx. }
    assert (mutations !! k = Some x.2) as Mk.
    { by rewrite <- Xm, list_lookup_fmap, Hx. }
    assert (sd !! k = Some y.1.1) as Dk'.
    { by rewrite <- Yd, list_lookup_fmap, Hy. }
    assert (sl !! k = Some y.1.2) as Lk'.
    { by rewrite <- Yl, list_lookup_fmap, Hy. }
    assert (sm !! k = Some y.2) as Mk'.
    { by rewrite <- Ym, list_lookup_fmap, Hy. }
    pose proof (Forall2_lookup_lr _ _ _ _ _ _ Fsd Hp Dk') as Dp.
    pose proof (Forall2_lookup_lr _ _ _ _ _ _ Fsl Hp Lk') as Lp.
    pose proof (Forall2_lookup_lr _ _ _ _ _ _ Fsm Hp Mk') as Mp.
    simpl in Dp, Lp, Mp. unfold candidate_row.
    rewrite Hp. simpl. rewrite Dk. simpl. rewrite Dp. simpl.
    rewrite Lk. simpl. rewrite Lp. simpl. rewrite Mk. simpl.
    by rewrite Mp.
  - assert (zip_with ladd labels sl = row_label <$> zip_with mk xs ys) as El.
    { rewrite <- Xl, <- Yl.
      by apply (zip_with_proj ladd (fun x => x.1.2) (fun x => x.1.2)). }
    assert (zip_with Np.add64 mutations sm = row_count <$> zip_with mk xs ys)
      as Em.
    { rewrite <- Xm, <- Ym. by apply (zip_with_proj Np.add64 snd snd). }
    assert ((fun p => pos_new_data p.1 p.2) <$> zip data sd
            = (fun r => r.1.1) <$> zip_with mk xs ys) as Ed.
    { rewrite <- Xd, <- Yd.
      by apply (fmap_zip_with_proj _ pair (fun x => x.1.1) (fun x => x.1.1)). }
    cbn [mbind result_bind].
    rewrite !add_same_length by lia. cbn [mbind result_bind].
    rewrite El, Em. unfold scan.
    pose proof (scan_fold (zip_with mk xs ys) (zip data sd) [] [] [] Ed) as Hs.
    simpl in Hs. by rewrite Hs.
Qed.

(** One iteration of the outer loop shuffles [pos_inds] and appends the
    data, label and count of every accepted candidate. *)
Lemma augment_run_spec data labels mutations pos nd nl nm i :
  length data = length labels ->
  length mutations = length labels ->
  pos ≡ₚ Np.arange (length labels) ->
  exists rows,
    run_rows ladd data labels mutations (random_shuffle rng i pos) rows /\
    augment_run ladd rng data labels mutations (pos, nd, nl, nm) i
    = Ok (random_shuffle rng i pos,
          nd ++ (row_data <$> filter accepted rows),
          nl ++ (row_label <$> filter accepted rows),
          nm ++ (row_count <$> filter accepted rows)).
Proof.
  intros Hd Hm Hpos. unfold augment_run.
  destruct (run_candidates_spec data labels mutations
              (random_shuffle rng i pos)) as (rows & Hrows & ->); [done..| |].
  { by rewrite random_shuffle_perm. }
  exists rows. split; [done|]. cbn [mbind result_bind].
  by rewrite !delete_to_del.
Qed.

Lemma pos_after_perm (n k : nat) : pos_after rng n k ≡ₚ Np.arange n.
Proof.
  induction k as [|k IH]; simpl; [done|]. by rewrite random_shuffle_perm.
Qed.

(** The outer loop never raises on parallel arrays; the three
    accumulated lists are the projections of one list of accepted
    candidates, run after run. *)
Lemma augment_loop_spec data labels mutations runs :
  length data = length labels ->
  length mutations = length labels ->
  exists keptss,
    Forall2 (kept_of_run ladd rng data labels mutations) (seq 0 runs) keptss /\
    augment_loop ladd rng data labels mutations runs
    = Ok (pos_after rng (length labels) runs,
          row_data <$> mjoin keptss,
          row_label <$> mjoin keptss,
          row_count <$> mjoin keptss).
Proof.
  intros Hd Hm. unfold augment_loop. induction runs as [|runs IH].
  { exists []. split; [constructor|done]. }
  destruct IH as (keptss & HF & Hloop).
  rewrite seq_S, foldlM_app, Hloop.
  cbn [Nat.add foldlM mbind result_bind].
  destruct (augment_run_spec data labels mutations
              (pos_after rng (length labels) runs)
              (row_data <$> mjoin keptss) (row_label <$> mjoin keptss)
              (row_count <$> mjoin keptss) runs)
    as (rows & Hrows & Hrun); [done..|apply pos_after_perm|].
  exists (keptss ++ [filter accepted rows]). split.
  - apply Forall2_app; [done|]. constructor; [|constructor].
    by exists rows.
  - rewrite Hrun. cbn [mbind result_bind].
    rewrite join_app, !fmap_app. simpl. by rewrite app_nil_r.
Qed.

End AugmentRun.

(** ** Splitting and joining *)

Lemma split_nonempty sep s : PyStr.split sep s <> [].
Proof.
  destruct s as [|c s]; simpl; [done|].
  destruct (decide (c = sep)); [done|]. by destruct (PyStr.split sep s).
Qed.

Lemma split_no_sep sep s :
  Forall (fun t => PyStr.contains sep t = false) (PyStr.split sep s).
Proof.
  induction s as [|c s IH]; simpl; [by repeat constructor|].
  destruct (decide (c = sep)) as [->|Hc]; [by constructor|].
  destruct (PyStr.split sep s) as [|w ws] eqn:E;
    [by destruct (split_nonempty sep s)|].
  inversion IH as [|? ? Hw Hws]; subst. constructor; [|done].
  simpl. rewrite Hw. by rewrite bool_decide_eq_false_2.
Qed.

Lemma split_app_sep sep x rest :
  PyStr.contains sep x = false ->
  PyStr.split sep (x +:+ String sep rest) = x :: PyStr.split sep rest.
Proof.
  induction x as [|c x IH]; intros Hx.
  - change ("" +:+ String sep rest) with (String sep rest). simpl.
    by rewrite decide_True.
  - simpl in Hx. apply orb_false_iff in Hx as [Hc Hx].
    apply bool_decide_eq_false in Hc.
    change (String c x +:+ String sep rest)
      with (String c (x +:+ String sep rest)).
    simpl. rewrite decide_False by done. by rewrite IH.
Qed.

Lemma split_sep_free sep x :
  PyStr.contains sep x = false -> PyStr.split sep x = [x].
Proof.
  induction x as [|c x IH]; intros Hx; simpl; [done|].
  simpl in Hx. apply orb_false_iff in Hx as [Hc Hx].
  apply bool_decide_eq_false in Hc.
  rewrite decide_False by done. by rewrite IH.
Qed.

(** Splitting the join of tokens gives the tokens back. *)
Lemma split_join (l : list string) :
  l <> [] ->
  Forall (fun t => PyStr.contains PyStr.comma t = false) l ->
  PyStr.split PyStr.comma (PyStr.join "," l) = l.
Proof.
  induction l as [|x l IH]; intros Hne Hl; [done|].
  inversion Hl as [|? ? Hx Hl']; subst.
  destruct l as [|y l].
  - simpl. by apply split_sep_free.
  - change (PyStr.join "," (x :: y :: l))
      with (x +:+ String PyStr.comma (PyStr.join "," (y :: l))).
    rewrite split_app_sep by done. f_equal. by apply IH.
Qed.

(** ** Sorting and removing duplicates *)

Lemma sort_Permutation (l : list string) : Np.sort l ≡ₚ l.
Proof. apply merge_sort_Permutation. Qed.

Lemma sort_sorted (l : list string) : StronglySorted String.le (Np.sort l).
Proof. apply StronglySorted_merge_sort; apply _. Qed.

Lemma unique_elem_of (l : list string) (s : string) :
  s ∈ Np.unique l <-> s ∈ l.
Proof.
  unfold Np.unique. rewrite merge_sort_Permutation.
  apply elem_of_remove_dups.
Qed.

Lemma unique_NoDup (l : list string) : NoDup (Np.unique l).
Proof.
  unfold Np.unique. rewrite merge_sort_Permutation.
  apply NoDup_remove_dups.
Qed.

Lemma unique_sorted (l : list string) : StronglySorted String.le (Np.unique l).
Proof. apply StronglySorted_merge_sort; apply _. Qed.

Lemma length_remove_dups_le {A} `{EqDecision A} (l : list A) :
  (length (remove_dups l) <= length l)%nat.
Proof.
  induction l as [|x l IH]; simpl; [done|].
  destruct (decide_rel elem_of x l); simpl; lia.
Qed.

Lemma length_remove_dups_NoDup {A} `{EqDecision A} (l : list A) :
  NoDup l -> length (remove_dups l) = length l.
Proof.
  induction 1 as [|x l Hx _ IH]; simpl; [done|].
  destruct (decide_rel elem_of x l); [done|]. simpl. by rewrite IH.
Qed.

Lemma length_remove_dups_lt {A} `{EqDecision A} (l : list A) :
  ~ NoDup l -> (length (remove_dups l) < length l)%nat.
Proof.
  induction l as [|x l IH]; intros Hl; simpl.
  { exfalso. apply Hl. constructor. }
  pose proof (length_remove_dups_le l).
  destruct (decide_rel elem_of x l) as [Hx|Hx]; simpl; [lia|].
  assert (length (remove_dups l) < length l)%nat; [|lia].
  apply IH. intros Hnd. apply Hl. by constructor.
Qed.

Lemma length_unique (l : list string) :
  length (Np.unique l) = length (remove_dups l).
Proof. unfold Np.unique. by rewrite merge_sort_Permutation. Qed.

(** A list without repetition is its own sorted set of values. *)
Lemma unique_NoDup_sort (l : list string) : NoDup l -> Np.unique l = Np.sort l.
Proof.
  intros Hl. apply (StronglySorted_unique String.le).
  - apply unique_sorted.
  - apply sort_sorted.
  - unfold Np.unique, Np.sort. rewrite !merge_sort_Permutation.
    apply NoDup_Permutation; [apply NoDup_remove_dups|done|].
    intros x. apply elem_of_remove_dups.
Qed.

Lemma first_index_spec (l : list string) (s : string) :
  s ∈ l ->
  l !! Np.first_index l s = Some s /\
  forall j, (j < Np.first_index l s)%nat -> l !! j <> Some s.
Proof.
  intros Hs. unfold Np.first_index.
  destruct (list_find_elem_of (fun x => x = s) l s Hs eq_refl) as [[i x] Hf].
  rewrite Hf. apply list_find_Some in Hf as (Hi & -> & Hmin).
  split; [done|]. intros j Hj Hlj. by apply (Hmin j s).
Qed.

(** Indexing an array parallel to [l] with the positions of the first
    occurrences. *)
Lemma take_unique_index {A} (l : list string) (a : list A) :
  length a = length l ->
  exists b, Np.take a (Np.unique_index l) = Ok b /\
            Forall2 (fun s x => a !! Np.first_index l s = Some x)
                    (Np.unique l) b.
Proof.
  intros Hlen.
  destruct (take_in_range a (Np.unique_index l)) as (b & Hb & HF).
  { unfold Np.unique_index. apply Forall_fmap, Forall_forall.
    intros s Hs. apply (proj1 (unique_elem_of l s)) in Hs.
    destruct (first_index_spec l s Hs) as [Hi _].
    apply lookup_lt_Some in Hi. unfold in_range; simpl. lia. }
  exists b. split; [done|].
  unfold Np.unique_index in HF. apply Forall2_fmap_l in HF.
  eapply Forall2_impl; [exact HF|]. simpl. intros s x.
  by rewrite Nat2Z.id.
Qed.

Lemma take_unique_index_self (l : list string) :
  Np.take l (Np.unique_index l) = Ok (Np.unique l).
Proof.
  destruct (take_unique_index l l eq_refl) as (b & -> & HF). f_equal.
  symmetry. apply list_eq_Forall2.
  assert (Forall (fun s => s ∈ l) (Np.unique l)) as Hin.
  { apply Forall_forall. intros s. apply unique_elem_of. }
  induction HF as [|s x ss xs Hsx _ IH]; [constructor|].
  inversion Hin as [|? ? Hs Hss]; subst. constructor; [|by apply IH].
  destruct (first_index_spec l s Hs) as [Hi _]. congruence.
Qed.

(** ** The whole of [augment] *)

Section AugmentSpec.
Context {L : Type}.
Variable ladd : L -> L -> L.
Variable rng : shuffler.
Implicit Types (r : row L) (rows : list (row L)).

(** Without deduplication [augment] returns the accepted candidates of
    all runs, in the order of their generation. *)
Lemma augment_plain data labels mutations runs :
  length data = length labels ->
  length mutations = length labels ->
  exists keptss,
    Forall2 (kept_of_run ladd rng data labels mutations) (seq 0 runs) keptss /\
    augment ladd rng data labels mutations runs false
    = Ok (row_data <$> mjoin keptss, row_label <$> mjoin keptss,
          row_count <$> mjoin keptss).
Proof.
  intros Hd Hm.
  destruct (augment_loop_spec ladd rng data labels mutations runs Hd Hm)
    as (keptss & HF & Hloop).
  exists keptss. split; [done|]. unfold augment. by rewrite Hloop.
Qed.

(** With deduplication the data are the sorted distinct strings and the
    other two arrays are read at the first occurrence of each string. *)
Lemma augment_dedup data labels mutations runs nd nl nm :
  length data = length labels ->
  length mutations = length labels ->
  augment ladd rng data labels mutations runs false = Ok (nd, nl, nm) ->
  length nl = length nd /\ length nm = length nd /\
  exists nl' nm',
    augment ladd rng data labels mutations runs true
    = Ok (Np.unique nd, nl', nm') /\
    Forall2 (fun s x => nl !! Np.first_index nd s = Some x) (Np.unique nd) nl' /\
    Forall2 (fun s x => nm !! Np.first_index nd s = Some x) (Np.unique nd) nm'.
Proof.
  intros Hd Hm Hplain.
  destruct (augment_loop_spec ladd rng data labels mutations runs Hd Hm)
    as (keptss & _ & Hloop).
  unfold augment in *. rewrite Hloop in *. cbn [mbind result_bind] in *.
  injection Hplain as <- <- <-. rewrite !length_fmap.
  split; [done|]. split; [done|].
  rewrite take_unique_index_self. cbn [mbind result_bind].
  destruct (take_unique_index (row_data <$> mjoin keptss)
              (row_label <$> mjoin keptss)) as (nl' & -> & Hnl).
  { by rewrite !length_fmap. }
  destruct (take_unique_index (row_data <$> mjoin keptss)
              (row_count <$> mjoin keptss)) as (nm' & -> & Hnm).
  { by rewrite !length_fmap. }
  by exists nl', nm'.
Qed.

(** Every kept candidate passed the test of some run. *)
Lemma kept_row_inv data labels mutations runs keptss r :
  Forall2 (kept_of_run ladd rng data labels mutations) (seq 0 runs) keptss ->
  r ∈ mjoin keptss ->
  exists k i, (k < runs)%nat /\ accepted r /\
    candidate_row ladd data labels mutations
      (pos_after rng (length labels) (S k)) i = Some r.
Proof.
  intros HF Hr. apply list_elem_of_join in Hr as (kept & Hr & Hkept).
  apply list_elem_of_lookup in Hkept as [k Hk].
  destruct (Forall2_lookup_r _ _ _ _ _ HF Hk) as (k' & Hk' & rows & Hrows & ->).
  apply lookup_seq in Hk' as [-> Hlt]. simpl in *.
  apply list_elem_of_filter in Hr as [Hacc Hr].
  apply list_elem_of_lookup in Hr as [i Hi].
  destruct (Forall2_lookup_r _ _ _ _ _ Hrows Hi) as (i' & Hi' & Hc).
  apply lookup_seq in Hi' as [-> _]. simpl in Hc. eauto.
Qed.

(** Every accepted candidate of every run is kept. *)
Lemma kept_row_intro data labels mutations runs keptss k i r :
  Forall2 (kept_of_run ladd rng data labels mutations) (seq 0 runs) keptss ->
  (k < runs)%nat -> (i < length labels)%nat ->
  candidate_row ladd data labels mutations
    (pos_after rng (length labels) (S k)) i = Some r ->
  accepted r ->
  r ∈ mjoin keptss.
Proof.
  intros HF Hk Hi Hc Hacc.
  destruct (Forall2_lookup_l _ _ _ k k HF) as (kept & Hkept & rows & Hrows & ->).
  { by apply lookup_seq. }
  destruct (Forall2_lookup_l _ _ _ i i Hrows) as (r' & Hr' & Hc').
  { by apply lookup_seq. }
  cbn beta in Hc'. assert (r' = r) as -> by congruence.
  apply list_elem_of_join. exists (filter accepted rows). split.
  - apply list_elem_of_filter. split; [done|].
    apply list_elem_of_lookup. eauto.
  - apply list_elem_of_lookup. eauto.
Qed.

Lemma candidate_row_inv data labels mutations pos i r :
  candidate_row ladd data labels mutations pos i = Some r ->
  exists p j k l1 l2 m1 m2,
    pos !! i = Some p /\ data !! i = Some j /\ data !! Z.to_nat p = Some k /\
    labels !! i = Some l1 /\ labels !! Z.to_nat p = Some l2 /\
    mutations !! i = Some m1 /\ mutations !! Z.to_nat p = Some m2 /\
    r = (pos_new_data j k, ladd l1 l2, Np.add64 m1 m2).
Proof.
  unfold candidate_row. intros H.
  destruct (pos !! i) as [p|] eqn:E1; [|done]. simpl in H.
  destruct (data !! i) as [j|] eqn:E2; [|done]. simpl in H.
  destruct (data !! Z.to_nat p) as [k|] eqn:E3; [|done]. simpl in H.
  destruct (labels !! i) as [l1|] eqn:E4; [|done]. simpl in H.
  destruct (labels !! Z.to_nat p) as [l2|] eqn:E5; [|done]. simpl in H.
  destruct (mutations !! i) as [m1|] eqn:E6; [|done]. simpl in H.
  destruct (mutations !! Z.to_nat p) as [m2|] eqn:E7; [|done]. simpl in H.
  injection H as <-. by exists p, j, k, l1, l2, m1, m2.
Qed.

End AugmentSpec.

(** ** float64: digits, shifts and rounding *)

Lemma digits2_pos_size (p : positive) : digits2_pos p = Pos.size p.
Proof. induction p as [p IH|p IH|]; simpl; by rewrite ?IH. Qed.

Lemma Zdigits2_log2 (z : Z) : 0 < z -> Zdigits2 z = Z.log2 z + 1.
Proof.
  destruct z as [|p|p]; try lia. intros _.
  destruct p as [p|p|]; simpl; rewrite ?digits2_pos_size; lia.
Qed.

Lemma Zdigits2_bounds (z : Z) :
  0 < z -> 2 ^ (Zdigits2 z - 1) <= z < 2 ^ Zdigits2 z.
Proof.
  intros Hz. rewrite Zdigits2_log2 by done.
  pose proof (Z.log2_spec z Hz) as H.
  replace (Z.log2 z + 1 - 1) with (Z.log2 z) by lia.
  replace (Z.log2 z + 1) with (Z.succ (Z.log2 z)) by lia. done.
Qed.

Lemma Zdigits2_unique (z d : Z) :
  1 <= d -> 2 ^ (d - 1) <= z < 2 ^ d -> Zdigits2 z = d.
Proof.
  intros Hd Hz.
  assert (0 < z) as Hpos.
  { pose proof (Z.pow_pos_nonneg 2 (d - 1)). lia. }
  rewrite Zdigits2_log2 by done.
  rewrite (Z.log2_unique z (d - 1)); [lia|lia|].
  replace (Z.succ (d - 1)) with d by lia. done.
Qed.

Lemma Zdigits2_pos (z : Z) : 0 < z -> 1 <= Zdigits2 z.
Proof.
  intros Hz. rewrite Zdigits2_log2 by done.
  pose proof (Z.log2_nonneg z). lia.
Qed.

Lemma Zdigits2_le (z : Z) (d : Z) : 0 < z -> z < 2 ^ d -> Zdigits2 z <= d.
Proof.
  intros Hz Hd. destruct (Z.le_gt_cases (Zdigits2 z) d) as [|Hgt]; [done|].
  destruct (Zdigits2_bounds z Hz) as [Hlo _].
  assert (0 <= d).
  { destruct (Z.le_gt_cases 0 d); [done|].
    rewrite Z.pow_neg_r in Hd by lia. lia. }
  assert (2 ^ d <= 2 ^ (Zdigits2 z - 1)); [|lia].
  apply Z.pow_le_mono_r; lia.
Qed.

Lemma pos_iter_xO (p k : positive) :
  Zpos (Pos.iter xO p k) = Zpos p * 2 ^ Zpos k.
Proof.
  induction k as [|k IH] using Pos.peano_ind.
  - simpl. lia.
  - rewrite Pos.iter_succ.
    replace (Zpos (Pos.iter xO p k)~0) with (2 * Zpos (Pos.iter xO p k)) by lia.
    rewrite IH, Pos2Z.inj_succ, Z.pow_succ_r by lia. lia.
Qed.

(** One step of [shr] halves the mantissa, the bit shifted out becomes
    the round bit and the former round bit goes to the sticky bit. *)
Lemma shr_1_spec (m : Z) (r s : bool) :
  0 <= m ->
  shr_1 (Build_shr_record m r s)
  = Build_shr_record (m / 2) (Z.odd m) (r || s).
Proof.
  intros Hm. destruct m as [|p|p]; [done| |lia].
  destruct p as [p|p|]; simpl; f_equal.
  - rewrite Pos2Z.inj_xI. apply Z.div_unique with 1; lia.
  - rewrite Pos2Z.inj_xO. apply Z.div_unique with 0; lia.
Qed.

Lemma shr_m_shr_1 (mrs : shr_record) :
  0 <= shr_m mrs -> shr_m (shr_1 mrs) = shr_m mrs / 2.
Proof.
  destruct mrs as [m r s]. intros Hm. simpl in Hm.
  by rewrite shr_1_spec.
Qed.

Lemma pow2_xO (n : positive) : 2 ^ Zpos n~0 = 2 ^ Zpos n * 2 ^ Zpos n.
Proof.
  replace (Zpos n~0) with (Zpos n + Zpos n) by lia.
  rewrite Z.pow_add_r by lia. done.
Qed.

Lemma pow2_xI (n : positive) : 2 ^ Zpos n~1 = 2 * (2 ^ Zpos n * 2 ^ Zpos n).
Proof.
  replace (Zpos n~1) with (1 + (Zpos n + Zpos n)) by lia.
  rewrite !Z.pow_add_r by lia. done.
Qed.

Lemma shr_m_iter (n : positive) : forall mrs,
  0 <= shr_m mrs ->
  shr_m (SpecFloat.iter_pos shr_1 n mrs) = shr_m mrs / 2 ^ Zpos n.
Proof.
  induction n as [n IH|n IH|]; intros mrs Hm; simpl.
  - assert (0 <= shr_m (shr_1 mrs)) as H1.
    { rewrite shr_m_shr_1 by done. by apply Z.div_pos. }
    assert (0 <= shr_m (SpecFloat.iter_pos shr_1 n (shr_1 mrs))) as H2.
    { rewrite IH by done. apply Z.div_pos; lia. }
    rewrite IH, IH, shr_m_shr_1 by done.
    rewrite !Z.div_div by lia. by rewrite pow2_xI, Z.mul_assoc.
  - assert (0 <= shr_m (SpecFloat.iter_pos shr_1 n mrs)) as H2.
    { rewrite IH by done. apply Z.div_pos; lia. }
    rewrite IH, IH by done. rewrite Z.div_div by lia. by rewrite pow2_xO.
  - by rewrite shr_m_shr_1.
Qed.

Lemma fexp_b64 (x : Z) : fexp 53 1024 x = Z.max (x - 53) (- 1074).
Proof. reflexivity. Qed.

Lemma shr_m_of_loc (m : Z) (l : location) : shr_m (shr_record_of_loc m l) = m.
Proof. by destruct l as [|[]]. Qed.

Lemma loc_of_shr_record_of_loc (m : Z) (l : location) :
  loc_of_shr_record (shr_record_of_loc m l) = l.
Proof. by destruct l as [|[]]. Qed.

Lemma round_nearest_even_bounds (m : Z) (l : location) :
  m <= round_nearest_even m l <= m + 1.
Proof.
  unfold round_nearest_even. destruct l as [|[]]; try lia.
  destruct (Z.even m); lia.
Qed.

Lemma shr_fexp_nonneg (m e : Z) (l : location) :
  0 <= m -> 0 <= shr_m (shr_fexp 53 1024 m e l).1.
Proof.
  intros Hm. unfold shr_fexp, shr.
  destruct (fexp 53 1024 (Zdigits2 m + e) - e) as [|n|n]; simpl;
    rewrite ?shr_m_of_loc; try done.
  rewrite shr_m_iter by (by rewrite shr_m_of_loc).
  rewrite shr_m_of_loc. apply Z.div_pos; lia.
Qed.

(** Rounding a non-negative mantissa never gives NaN. *)
Lemma binary_round_aux_not_nan (sx : bool) (mx ex : Z) (lx : location) :
  0 <= mx -> binary_round_aux 53 1024 sx mx ex lx <> S754_nan.
Proof.
  intros Hm. unfold binary_round_aux.
  pose proof (shr_fexp_nonneg mx ex lx Hm) as H1.
  destruct (shr_fexp 53 1024 mx ex lx) as [mrs' e']. simpl in H1.
  pose proof (round_nearest_even_bounds (shr_m mrs') (loc_of_shr_record mrs'))
    as [H2 _].
  pose proof (shr_fexp_nonneg
                (round_nearest_even (shr_m mrs') (loc_of_shr_record mrs'))
                e' loc_Exact ltac:(lia)) as H3.
  destruct (shr_fexp 53 1024 _ e' loc_Exact) as [mrs'' e'']. simpl in H3.
  destruct (shr_m mrs'') as [|m|m]; [done| |lia].
  by destruct (e'' <=? 1024 - 53).
Qed.

(** What [shr_fexp] returns on a positive mantissa that is not too far
    down: a positive mantissa, an exponent that only grows, and the same
    sum of digits and exponent. *)
Lemma shr_fexp_facts (m e : Z) (l : location) :
  0 < m -> - 1073 <= e ->
  let r := shr_fexp 53 1024 m e l in
  0 < shr_m r.1 /\ e <= r.2 /\
  r.2 <= Z.max e (Zdigits2 m + e - 53) /\
  Zdigits2 (shr_m r.1) + r.2 <= Zdigits2 m + e.
Proof.
  intros Hm He. unfold shr_fexp, shr. rewrite fexp_b64.
  pose proof (Zdigits2_bounds m Hm) as [Hlo Hhi].
  pose proof (Zdigits2_pos m Hm) as Hd.
  set (d := Zdigits2 m) in *.
  destruct (Z.max (d + e - 53) (- 1074) - e) as [|n|n] eqn:Hn; simpl;
    rewrite ?shr_m_of_loc; fold d; try lia.
  rewrite shr_m_iter by (rewrite shr_m_of_loc; lia). rewrite shr_m_of_loc.
  assert (Zpos n = d - 53) as Hn' by lia.
  assert (2 ^ d = 2 ^ Zpos n * 2 ^ 53) as Hpd.
  { rewrite <- Z.pow_add_r by lia. f_equal. lia. }
  assert (2 ^ (d - 1) = 2 ^ Zpos n * 2 ^ 52) as Hpd'.
  { rewrite <- Z.pow_add_r by lia. f_equal. lia. }
  assert (0 < 2 ^ Zpos n) as Hpos by lia.
  assert (2 ^ 52 <= m / 2 ^ Zpos n) as Hq1.
  { apply Z.div_le_lower_bound; lia. }
  assert (m / 2 ^ Zpos n < 2 ^ 53) as Hq2.
  { apply Z.div_lt_upper_bound; lia. }
  rewrite (Zdigits2_unique (m / 2 ^ Zpos n) 53) by (simpl; lia). lia.
Qed.

(** Rounding a positive mantissa in the range of float64 gives a finite,
    non-zero number. *)
Lemma binary_round_aux_finite (sx : bool) (mx ex : Z) (lx : location) :
  0 < mx -> - 1073 <= ex <= 900 -> Zdigits2 mx + ex <= 1000 ->
  exists m e, binary_round_aux 53 1024 sx mx ex lx = S754_finite sx m e.
Proof.
  intros Hm He Hd. unfold binary_round_aux.
  pose proof (shr_fexp_facts mx ex lx Hm ltac:(lia)) as H1. simpl in H1.
  destruct (shr_fexp 53 1024 mx ex lx) as [mrs' e']. simpl in H1.
  destruct H1 as (M1 & E1 & E1' & D1).
  pose proof (round_nearest_even_bounds (shr_m mrs') (loc_of_shr_record mrs'))
    as [R1 R2].
  set (mr := round_nearest_even (shr_m mrs') (loc_of_shr_record mrs')) in *.
  assert (Zdigits2 mr <= Zdigits2 (shr_m mrs') + 1) as Dr.
  { apply Zdigits2_le; [lia|].
    pose proof (Zdigits2_bounds (shr_m mrs') M1) as [_ Hhi].
    pose proof (Zdigits2_pos (shr_m mrs') M1).
    rewrite Z.pow_add_r by lia. lia. }
  pose proof (shr_fexp_facts mr e' loc_Exact ltac:(lia) ltac:(lia)) as H2.
  simpl in H2.
  destruct (shr_fexp 53 1024 mr e' loc_Exact) as [mrs'' e'']. simpl in H2.
  destruct H2 as (M2 & E2 & E2' & D2).
  destruct (shr_m mrs'') as [|m|m]; [lia| |lia].
  destruct (Z.leb_spec e'' (1024 - 53)) as [_|Hgt]; [by eauto|lia].
Qed.

(** The conversion of a positive integer below [2^63] is finite. *)
Lemma of_Z_finite (z : Z) :
  0 < z < 2 ^ 63 -> exists m e, B64.of_Z z = S754_finite false m e.
Proof.
  intros [Hz1 Hz2]. destruct z as [|p|p]; try lia.
  unfold B64.of_Z, binary_normalize, binary_round.
  change B64.prec with 53. change B64.emax with 1024.
  pose proof (Zdigits2_bounds (Zpos p) Hz1) as [Hlo Hhi].
  pose proof (Zdigits2_pos (Zpos p) Hz1) as Hd1.
  pose proof (Zdigits2_le (Zpos p) 63 Hz1 Hz2) as Hd2.
  change (Zdigits2 (Zpos p)) with (Zpos (digits2_pos p)) in *.
  set (d := Zpos (digits2_pos p)) in *.
  rewrite fexp_b64. unfold shl_align.
  destruct (Z.max (d + 0 - 53) (- 1074) - 0) as [|k|k] eqn:Hk.
  - apply binary_round_aux_finite; [lia|lia|].
    change (Zdigits2 (Zpos p)) with d. lia.
  - apply binary_round_aux_finite; [lia|lia|].
    change (Zdigits2 (Zpos p)) with d. lia.
  - assert (Zdigits2 (Zpos (Pos.iter xO p k)) = 53) as Hd'.
    { apply Zdigits2_unique; [lia|]. rewrite pos_iter_xO.
      assert (Zpos k = 53 - d) as Hk' by lia.
      assert (2 ^ 53 = 2 ^ d * 2 ^ Zpos k) as ->.
      { rewrite <- Z.pow_add_r by lia. f_equal. lia. }
      assert (2 ^ (53 - 1) = 2 ^ (d - 1) * 2 ^ Zpos k) as ->.
      { rewrite <- Z.pow_add_r by lia. f_equal. lia. }
      assert (0 < 2 ^ Zpos k) by lia. nia. }
    apply binary_round_aux_finite; [lia|lia|]. rewrite Hd'. lia.
Qed.

Lemma SFdiv_core_binary_nonneg (m1 m2 : positive) (e1 e2 : Z) :
  0 <= (SFdiv_core_binary 53 1024 (Zpos m1) e1 (Zpos m2) e2).1.1.
Proof.
  unfold SFdiv_core_binary.
  set (s := e1 - e2 - _).
  set (m' := match s with Zpos _ => Z.shiftl (Zpos m1) s | Z0 => Zpos m1
                        | Zneg _ => 0 end).
  assert (0 <= m') as Hm'.
  { unfold m'. destruct s; [lia| |lia]. by apply Z.shiftl_nonneg. }
  pose proof (Z.div_pos m' (Zpos m2) Hm' ltac:(lia)) as Hq.
  unfold Z.div in Hq. by destruct (Z.div_eucl m' (Zpos m2)).
Qed.

(** The quotient of two finite numbers is not NaN. *)
Lemma div_finite_not_nan (s1 s2 : bool) (m1 m2 : positive) (e1 e2 : Z) :
  is_nan (B64.div (S754_finite s1 m1 e1) (S754_finite s2 m2 e2)) = false.
Proof.
  unfold B64.div, SFdiv. change B64.prec with 53. change B64.emax with 1024.
  pose proof (SFdiv_core_binary_nonneg m1 m2 e1 e2) as Hq.
  destruct (SFdiv_core_binary 53 1024 (Zpos m1) e1 (Zpos m2) e2)
    as [[mz ez] lz]. simpl in Hq.
  pose proof (binary_round_aux_not_nan (xorb s1 s2) mz ez lz Hq) as Hn.
  by destruct (binary_round_aux 53 1024 (xorb s1 s2) mz ez lz).
Qed.

(** Adding [+0.0] on either side gives the same float, and neither that
    nor subtracting [+0.0] turns a number into NaN. *)
Lemma add_zero_comm (x : spec_float) : B64.add x B64.zero = B64.add B64.zero x.
Proof. by destruct x as [[]|[]| |[] m e]. Qed.

Lemma add_zero_not_nan (x : spec_float) :
  is_nan x = false -> is_nan (B64.add x B64.zero) = false.
Proof. by destruct x as [[]|[]| |[] m e]. Qed.

Lemma sub_zero_not_nan (x : spec_float) :
  is_nan x = false -> is_nan (B64.sub x B64.zero) = false.
Proof. by destruct x as [[]|[]| |[] m e]. Qed.

Lemma pos_compare_cont_refl (m : positive) : Pos.compare_cont Eq m m = Eq.
Proof. apply Pos.compare_refl. Qed.

(** [x == x] holds for every float but NaN. *)
Lemma eqb_refl (x : spec_float) : is_nan x = false -> B64.eqb x x = true.
Proof.
  unfold B64.eqb, SFeqb. destruct x as [[]|[]| |[] m e]; try done; intros _;
    simpl; by rewrite Z.compare_refl, pos_compare_cont_refl.
Qed.

(** ** Division of two integers held by float64 *)

Lemma new_location_spec (b r : Z) :
  0 <= r < b ->
  new_location b r = if r =? 0 then loc_Exact else loc_Inexact (2 * r ?= b).
Proof.
  intros Hr. unfold new_location, new_location_even, new_location_odd.
  change (IntDef.Z.even b) with (Z.even b).
  destruct (Z.even b) eqn:Hb; [done|].
  destruct (r =? 0); [done|]. f_equal.
  assert (Z.odd b = true) as Ho by (by rewrite <- Z.negb_even, Hb).
  apply Z.odd_spec in Ho as [k Hk].
  destruct (Z.compare_spec (2 * r + 1) b), (Z.compare_spec (2 * r) b);
    try done; lia.
Qed.

Lemma shr_fexp_53 (m e : Z) (l : location) :
  Zdigits2 m = 53 -> - 1074 <= e ->
  shr_fexp 53 1024 m e l = (shr_record_of_loc m l, e).
Proof.
  intros Hd He. unfold shr_fexp. rewrite Hd, fexp_b64.
  by replace (Z.max (53 + e - 53) (- 1074) - e) with 0 by lia.
Qed.

Lemma shr_fexp_54 (m e : Z) (l : location) :
  Zdigits2 m = 54 -> - 1075 <= e ->
  shr_fexp 53 1024 m e l = (shr_1 (shr_record_of_loc m l), e + 1).
Proof.
  intros Hd He. unfold shr_fexp. rewrite Hd, fexp_b64.
  by replace (Z.max (54 + e - 53) (- 1074) - e) with 1 by lia.
Qed.

(** The end of [binary_round_aux]: a rounded mantissa of 53 digits is
    kept, [2^53] is renormalised to [2^52]. *)
Lemma round_tail (sx : bool) (R e : Z) :
  2 ^ 52 <= R <= 2 ^ 53 -> - 1074 <= e <= 900 ->
  (let '(mrs, e') := shr_fexp 53 1024 R e loc_Exact in
   match shr_m mrs with
   | 0 => S754_zero sx
   | Zpos m => if e' <=? 1024 - 53 then S754_finite sx m e'
               else S754_infinity sx
   | Zneg _ => S754_nan
   end)
  = if R =? 2 ^ 53 then S754_finite sx (Z.to_pos (2 ^ 52)) (e + 1)
    else S754_finite sx (Z.to_pos R) e.
Proof.
  intros HR He. destruct (Z.eqb_spec R (2 ^ 53)) as [->|Hne].
  - rewrite shr_fexp_54 by (done || lia).
    change (shr_m (shr_1 (shr_record_of_loc (2 ^ 53) loc_Exact)))
      with (2 ^ 52).
    change (2 ^ 52) with (Zpos (Z.to_pos (2 ^ 52))) at 1. cbv iota beta.
    by destruct (Z.leb_spec (e + 1) (1024 - 53)); [|lia].
  - rewrite shr_fexp_53 by (lia || apply Zdigits2_unique; lia).
    rewrite shr_m_of_loc. destruct R as [|R|R]; [lia| |lia].
    by destruct (Z.leb_spec e (1024 - 53)); [|lia].
Qed.

(** The record after one shift by [shr_1], as a location. *)
Lemma loc_after_shr_1 (q : Z) (l : location) :
  0 <= q ->
  let mrs := shr_1 (shr_record_of_loc q l) in
  shr_m mrs = q / 2 /\
  loc_of_shr_record mrs
  = match Z.odd q, l with
    | false, loc_Exact => loc_Exact
    | false, loc_Inexact _ => loc_Inexact Lt
    | true, loc_Exact => loc_Inexact Eq
    | true, loc_Inexact _ => loc_Inexact Gt
    end.
Proof.
  intros Hq. cbv zeta.
  destruct l as [|[]]; unfold shr_record_of_loc; rewrite shr_1_spec by done;
    simpl; by destruct (Z.odd q).
Qed.

(** Round to nearest, ties to even, on a quotient with its remainder:
    the rounded mantissa is within half a unit of the quotient. *)
Lemma round_quotient_nearest (a b : Z) :
  0 <= a -> 0 < b ->
  let R := round_nearest_even (a / b) (new_location b (a mod b)) in
  2 * Z.abs (R * b - a) <= b.
Proof.
  intros Ha Hb R. subst R.
  pose proof (Z.div_mod a b ltac:(lia)) as Hdm.
  pose proof (Z.mod_pos_bound a b Hb) as Hr.
  rewrite new_location_spec by done.
  set (q := a / b) in *. set (r := a mod b) in *.
  destruct (Z.eqb_spec r 0) as [Hr0|Hr0]; simpl.
  - nia.
  - destruct (Z.compare_spec (2 * r) b) as [He|Hl|Hg]; simpl.
    + destruct (Z.even q); nia.
    + nia.
    + nia.
Qed.

(** The same after one more bit of the quotient has been shifted out. *)
Lemma round_half_quotient_nearest (a b : Z) :
  0 <= a -> 0 < b ->
  let mrs := shr_1 (shr_record_of_loc (a / b) (new_location b (a mod b))) in
  let R := round_nearest_even (shr_m mrs) (loc_of_shr_record mrs) in
  a / b / 2 <= R <= a / b / 2 + 1 /\
  2 * Z.abs (R * 2 * b - a) <= 2 * b.
Proof.
  intros Ha Hb.
  pose proof (Z.div_mod a b ltac:(lia)) as Hdm.
  pose proof (Z.mod_pos_bound a b Hb) as Hr.
  assert (0 <= a / b) as Hq by (apply Z.div_pos; lia).
  destruct (loc_after_shr_1 (a / b) (new_location b (a mod b)) Hq)
    as [Hm Hl].
  cbv zeta. rewrite Hm, Hl. clear Hm Hl.
  rewrite new_location_spec by done.
  set (q := a / b) in *. set (r := a mod b) in *.
  pose proof (Z.div_mod q 2 ltac:(lia)) as Hq2.
  rewrite Zmod_odd in Hq2.
  set (h := q / 2) in *.
  destruct (Z.odd q); destruct (Z.eqb_spec r 0) as [Hr0|Hr0]; simpl.
  - destruct (Z.even h); split; nia.
  - split; nia.
  - split; nia.
  - split; nia.
Qed.

Lemma SFdiv_core_binary_53 (m1 m2 : positive) (e1 e2 : Z) :
  Zdigits2 (Zpos m1) = 53 -> Zdigits2 (Zpos m2) = 53 ->
  - 52 <= e1 <= 0 -> - 52 <= e2 <= 0 ->
  SFdiv_core_binary 53 1024 (Zpos m1) e1 (Zpos m2) e2
  = (Zpos m1 * 2 ^ 53 / Zpos m2, e1 - e2 - 53,
     new_location (Zpos m2) ((Zpos m1 * 2 ^ 53) mod Zpos m2)).
Proof.
  intros H1 H2 He1 He2. unfold SFdiv_core_binary.
  rewrite H1, H2, fexp_b64.
  change IntDef.Z.min with Z.min.
  replace (Z.min _ (e1 - e2)) with (e1 - e2 - 53) by lia.
  replace (e1 - e2 - (e1 - e2 - 53)) with 53 by lia.
  cbv iota beta zeta.
  change (IntDef.Z.shiftl (Zpos m1) 53) with (Z.shiftl (Zpos m1) 53).
  rewrite Z.shiftl_mul_pow2 by lia.
  change IntDef.Z.div_eucl with Z.div_eucl.
  unfold Z.div, Z.modulo.
  by destruct (Z.div_eucl (Zpos m1 * 2 ^ 53) (Zpos m2)).
Qed.

(** The quotient of two floats with full mantissas and exponents of
    integers below [2^53]: a finite positive float whose mantissa [R],
    read at the exponent [e1 - e2 - 53 + n1], is within half a unit of the
    exact quotient. *)
Lemma div_nearest (m1 m2 : positive) (e1 e2 : Z) :
  Zdigits2 (Zpos m1) = 53 -> Zdigits2 (Zpos m2) = 53 ->
  - 52 <= e1 <= 0 -> - 52 <= e2 <= 0 ->
  exists mr er R n1,
    B64.div (S754_finite false m1 e1) (S754_finite false m2 e2)
    = S754_finite false mr er /\
    0 <= n1 <= 1 /\
    2 ^ (52 + n1) * Zpos m2 <= Zpos m1 * 2 ^ 53 /\
    2 * Z.abs (R * 2 ^ n1 * Zpos m2 - Zpos m1 * 2 ^ 53) <= 2 ^ n1 * Zpos m2 /\
    ((Zpos mr = R /\ er = e1 - e2 - 53 + n1) \/
     (R = 2 ^ 53 /\ Zpos mr = 2 ^ 52 /\ er = e1 - e2 - 53 + n1 + 1)).
Proof.
  intros H1 H2 He1 He2.
  unfold B64.div, SFdiv. change B64.prec with 53. change B64.emax with 1024.
  rewrite SFdiv_core_binary_53 by done. cbn [xorb].
  pose proof (Zdigits2_bounds (Zpos m1) ltac:(lia)) as B1. rewrite H1 in B1.
  pose proof (Zdigits2_bounds (Zpos m2) ltac:(lia)) as B2. rewrite H2 in B2.
  set (a := Zpos m1 * 2 ^ 53). set (b := Zpos m2) in *.
  assert (0 <= a) as Ha by lia. assert (0 < b) as Hb by lia.
  pose proof (Z.div_mod a b ltac:(lia)) as Hdm.
  pose proof (Z.mod_pos_bound a b Hb) as Hr.
  assert (2 ^ 52 <= a / b) as Hq1.
  { apply Z.div_le_lower_bound; [done|]. unfold a. lia. }
  assert (a / b < 2 ^ 54) as Hq2.
  { apply Z.div_lt_upper_bound; [done|]. unfold a. lia. }
  unfold binary_round_aux.
  destruct (Z.lt_ge_cases (a / b) (2 ^ 53)) as [Hlt|Hge].
  - rewrite shr_fexp_53 by (lia || apply Zdigits2_unique; lia).
    rewrite shr_m_of_loc, loc_of_shr_record_of_loc.
    pose proof (round_quotient_nearest a b Ha Hb) as Hn. cbv zeta in Hn.
    pose proof (round_nearest_even_bounds (a / b)
                  (new_location b (a mod b))) as HR.
    set (R := round_nearest_even (a / b) (new_location b (a mod b))) in *.
    rewrite round_tail by lia.
    destruct (Z.eqb_spec R (2 ^ 53)) as [HR53|HR53].
    + exists (Z.to_pos (2 ^ 52)), (e1 - e2 - 53 + 1), R, 0.
      split; [done|]. split; [lia|]. split; [lia|].
      split; [lia|]. right. split; [done|]. split; [done|lia].
    + exists (Z.to_pos R), (e1 - e2 - 53), R, 0.
      split; [done|]. split; [lia|]. split; [lia|].
      split; [lia|]. left. split; [lia|lia].
  - rewrite shr_fexp_54 by (lia || apply Zdigits2_unique; lia).
    pose proof (round_half_quotient_nearest a b Ha Hb) as Hn.
    cbv zeta in Hn.
    set (mrs := shr_1 (shr_record_of_loc (a / b) (new_location b (a mod b))))
      in *.
    set (R := round_nearest_even (shr_m mrs) (loc_of_shr_record mrs)) in *.
    destruct Hn as [HR Hn].
    assert (2 ^ 52 <= a / b / 2) by (apply Z.div_le_lower_bound; lia).
    assert (a / b / 2 < 2 ^ 53) by (apply Z.div_lt_upper_bound; lia).
    rewrite round_tail by lia.
    assert (2 ^ (52 + 1) * b <= a) as Hlow.
    { change (2 ^ (52 + 1)) with (2 ^ 53). nia. }
    change (2 ^ 1) with 2.
    destruct (Z.eqb_spec R (2 ^ 53)) as [HR53|HR53].
    + exists (Z.to_pos (2 ^ 52)), (e1 - e2 - 53 + 1 + 1), R, 1.
      split; [done|]. split; [lia|]. split; [done|].
      split; [lia|]. right. split; [done|]. split; [done|lia].
    + exists (Z.to_pos R), (e1 - e2 - 53 + 1), R, 1.
      split; [done|]. split; [lia|]. split; [done|].
      split; [lia|]. left. split; [lia|lia].
Qed.

(** ** The number of batches *)

Lemma ceil_div_spec (a b c : Z) :
  0 < b -> (ceil_div a b = c <-> (c - 1) * b < a <= c * b).
Proof.
  intros Hb. unfold ceil_div.
  pose proof (Z.div_mod (- a) b ltac:(lia)) as Hdm.
  pose proof (Z.mod_pos_bound (- a) b Hb) as Hr.
  split.
  - intros <-. nia.
  - intros Hc. assert (- a / b = - c); [|lia].
    symmetry. apply (Z.div_unique (- a) b (- c) (c * b - a)); lia.
Qed.

Lemma ceil_div_add (a b : Z) : 0 < b -> ceil_div a b = (a + b - 1) / b.
Proof.
  intros Hb. apply ceil_div_spec; [done|].
  pose proof (Z.div_mod (a + b - 1) b ltac:(lia)) as Hdm.
  pose proof (Z.mod_pos_bound (a + b - 1) b Hb) as Hr. nia.
Qed.

(** A full mantissa at an exponent that keeps its value is what rounding
    returns. *)
Lemma binary_round_aux_exact (sx : bool) (m : positive) (e : Z) :
  Zdigits2 (Zpos m) = 53 -> - 1074 <= e <= 900 ->
  binary_round_aux 53 1024 sx (Zpos m) e loc_Exact = S754_finite sx m e.
Proof.
  intros Hd He. unfold binary_round_aux.
  rewrite shr_fexp_53 by (done || lia).
  rewrite shr_m_of_loc, loc_of_shr_record_of_loc.
  cbn [round_nearest_even].
  pose proof (Zdigits2_bounds (Zpos m) ltac:(lia)) as Hb. rewrite Hd in Hb.
  rewrite round_tail by (change (53 - 1) with 52 in Hb; lia).
  destruct (Z.eqb_spec (Zpos m) (2 ^ 53)) as [Heq|_]; [lia|done].
Qed.

(** An integer below [2^53] converts without rounding: the mantissa is
    the integer shifted up to 53 digits. *)
Lemma of_Z_exact (z : Z) :
  0 < z < 2 ^ 53 ->
  exists m a,
    B64.of_Z z = S754_finite false m (- a) /\
    0 <= a <= 52 /\ Zpos m = z * 2 ^ a /\ Zdigits2 (Zpos m) = 53.
Proof.
  intros [Hz1 Hz2]. destruct z as [|p|p]; try lia.
  unfold B64.of_Z, binary_normalize, binary_round.
  change B64.prec with 53. change B64.emax with 1024.
  pose proof (Zdigits2_bounds (Zpos p) Hz1) as [Hlo Hhi].
  pose proof (Zdigits2_pos (Zpos p) Hz1) as Hd1.
  pose proof (Zdigits2_le (Zpos p) 53 Hz1 Hz2) as Hd2.
  change (Zdigits2 (Zpos p)) with (Zpos (digits2_pos p)) in *.
  set (d := Zpos (digits2_pos p)) in *.
  rewrite fexp_b64. unfold shl_align.
  destruct (Z.max (d + 0 - 53) (- 1074) - 0) as [|k|k] eqn:Hk; [|lia|].
  - assert (d = 53) as Hd by lia.
    exists p, 0. rewrite binary_round_aux_exact by (done || lia).
    split; [done|]. split; [lia|]. split; [lia|done].
  - assert (Zpos k = 53 - d) as Hk' by lia.
    assert (Zdigits2 (Zpos (Pos.iter xO p k)) = 53) as Hd'.
    { apply Zdigits2_unique; [lia|]. rewrite pos_iter_xO.
      assert (2 ^ 53 = 2 ^ d * 2 ^ Zpos k) as ->.
      { rewrite <- Z.pow_add_r by lia. f_equal. lia. }
      assert (2 ^ (53 - 1) = 2 ^ (d - 1) * 2 ^ Zpos k) as ->.
      { rewrite <- Z.pow_add_r by lia. f_equal. lia. }
      assert (0 < 2 ^ Zpos k) by lia. nia. }
    exists (Pos.iter xO p k), (Zpos k).
    rewrite binary_round_aux_exact by (done || lia).
    split; [by replace (Z.max (d + 0 - 53) (- 1074)) with (- Zpos k) by lia|].
    split; [lia|]. split; [apply pos_iter_xO|done].
Qed.

(** The arithmetic behind [ceil(N / bs)]: a mantissa [R] within half a
    unit of [N / bs] at the scale [2^k], where the quotient has at least 53
    bits, lies in the last unit interval below the ceiling. *)
Lemma nearest_in_ceiling (N bs R n1 a1 a2 : Z) :
  0 < N < 2 ^ 53 -> 0 < bs ->
  0 <= a1 -> 0 <= a2 -> 0 <= n1 ->
  2 ^ (52 + n1) * (bs * 2 ^ a2) <= N * 2 ^ a1 * 2 ^ 53 ->
  2 * Z.abs (R * 2 ^ n1 * (bs * 2 ^ a2) - N * 2 ^ a1 * 2 ^ 53)
  <= 2 ^ n1 * (bs * 2 ^ a2) ->
  let k := a1 + 53 - a2 - n1 in
  let c := ceil_div N bs in
  0 <= k /\ (c - 1) * 2 ^ k < R <= c * 2 ^ k.
Proof.
  intros HN Hbs Ha1 Ha2 Hn1 Hlow Hnear k c.
  assert (0 <= k) as Hk.
  { assert (2 ^ (52 + n1 + a2) < 2 ^ (106 + a1)) as Hp.
    { rewrite !Z.pow_add_r by lia.
      rewrite !Z.pow_add_r in Hlow by lia.
      assert (0 < 2 ^ n1) by lia. assert (0 < 2 ^ a2) by lia.
      assert (0 < 2 ^ a1) by lia.
      change (2 ^ 106) with (2 ^ 53 * 2 ^ 53). nia. }
    apply Z.pow_lt_mono_r_iff in Hp; lia. }
  split; [done|].
  set (S := 2 ^ k). set (T := 2 ^ n1) in *. set (P := 2 ^ a2) in *.
  assert (0 < S) as HS by (unfold S; lia).
  assert (0 < T) as HT by (unfold T; lia).
  assert (0 < P) as HP by (unfold P; lia).
  assert (2 ^ a1 * 2 ^ 53 = S * (T * P)) as Hfac.
  { unfold S, T, P, k. rewrite <- !Z.pow_add_r by lia. f_equal. lia. }
  replace (N * 2 ^ a1 * 2 ^ 53) with (N * S * (T * P)) in Hlow, Hnear
    by (rewrite <- !Z.mul_assoc, <- Hfac; lia).
  assert (0 < T * P) as HTP by lia.
  set (TP := T * P) in *.
  replace (R * T * (bs * P) - N * S * TP) with ((R * bs - N * S) * TP)
    in Hnear by (unfold TP; lia).
  rewrite Z.abs_mul, (Z.abs_eq TP) in Hnear by lia.
  replace (T * (bs * P)) with (bs * TP) in Hnear by (unfold TP; lia).
  assert (2 * Z.abs (R * bs - N * S) <= bs) as Hnear'.
  { apply (Z.mul_le_mono_pos_r _ _ TP); lia. }
  assert (2 ^ 52 * bs <= N * S) as Hlow'.
  { apply (Z.mul_le_mono_pos_r _ _ TP); [lia|].
    replace (2 ^ (52 + n1)) with (2 ^ 52 * T) in Hlow
      by (unfold T; rewrite Z.pow_add_r by lia; done).
    unfold TP. lia. }
  assert (bs < 2 * S) as Hbs2.
  { assert (N * S < 2 ^ 53 * S) by nia. lia. }
  destruct (proj1 (ceil_div_spec N bs c Hbs) eq_refl) as [Hc1 Hc2].
  split.
  - assert ((c - 1) * S * bs < R * bs); [|nia].
    assert ((c - 1) * bs + 1 <= N) as Hc1' by lia.
    assert (((c - 1) * bs + 1) * S <= N * S) by nia. lia.
  - assert (R * bs < (c * S + 1) * bs); [|nia].
    assert (N * S <= c * bs * S) by nia. lia.
Qed.

(** [int(np.ceil(x))] of a positive finite float, from bounds on its
    mantissa. *)
Lemma ceil_int_finite (m : positive) (k c : Z) :
  0 <= k -> (c - 1) * 2 ^ k < Zpos m <= c * 2 ^ k ->
  B64.ceil_int (S754_finite false m (- k)) = Ok c.
Proof.
  intros Hk Hc. unfold B64.ceil_int. cbn [cond_Zopp]. f_equal.
  destruct (Z.leb_spec 0 (- k)) as [H0|H0].
  - assert (k = 0) as -> by lia. simpl in *. lia.
  - rewrite Z.opp_involutive. apply (ceil_div_spec (Zpos m) (2 ^ k) c); lia.
Qed.

(** [int(np.ceil(N / bs))] for two integers below [2^53]. *)
Lemma ceil_truediv (N bs : Z) :
  0 <= N < 2 ^ 53 -> 0 < bs < 2 ^ 53 ->
  (q ← B64.truediv N bs; B64.ceil_int q) = Ok (ceil_div N bs).
Proof.
  intros HN Hbs. unfold B64.truediv.
  destruct (Z.eqb_spec bs 0) as [?|_]; [lia|]. cbn [mbind result_bind].
  destruct (of_Z_exact bs Hbs) as (m2 & a2 & -> & Ha2 & Hm2 & Hd2).
  destruct (Z.eq_dec N 0) as [->|HN0].
  { change (B64.of_Z 0) with (S754_zero false). by simpl. }
  destruct (of_Z_exact N ltac:(lia)) as (m1 & a1 & -> & Ha1 & Hm1 & Hd1).
  destruct (div_nearest m1 m2 (- a1) (- a2) Hd1 Hd2 ltac:(lia) ltac:(lia))
    as (mr & er & R & n1 & -> & Hn1 & Hlow & Hnear & Hres).
  rewrite Hm1, Hm2 in Hlow, Hnear.
  destruct (nearest_in_ceiling N bs R n1 a1 a2 ltac:(lia) ltac:(lia)
              ltac:(lia) ltac:(lia) ltac:(lia) Hlow Hnear) as [Hk Hc].
  set (k := a1 + 53 - a2 - n1) in *. set (c := ceil_div N bs) in *.
  destruct Hres as [[HR ->]|(HR & Hmr & ->)].
  - replace (- a1 - - a2 - 53 + n1) with (- k) by (unfold k; lia).
    apply ceil_int_finite; [done|]. by rewrite HR.
  - assert (0 < 2 ^ k) as Hpk by lia.
    destruct (Z.eq_dec k 0) as [Hk0|Hk0].
    + replace (- a1 - - a2 - 53 + n1 + 1) with 1 by (unfold k in Hk0; lia).
      unfold B64.ceil_int. cbn [cond_Zopp]. f_equal.
      rewrite Hk0 in Hc. change (0 <=? 1) with true. cbv iota.
      rewrite Hmr. change (2 ^ 52 * 2 ^ 1) with (2 ^ 53). simpl in Hc. lia.
    + replace (- a1 - - a2 - 53 + n1 + 1) with (- (k - 1))
        by (unfold k; lia).
      apply ceil_int_finite; [lia|]. rewrite Hmr.
      assert (2 ^ k = 2 * 2 ^ (k - 1)) as Hp2.
      { rewrite <- (Z.pow_succ_r 2 (k - 1)) by lia. f_equal. lia. }
      rewrite Hp2, HR in Hc. change (2 ^ 53) with (2 * 2 ^ 52) in Hc. lia.
Qed.

(** ** Windows *)

Lemma py_slice_length {A} (l : list A) (a b : Z) :
  0 <= a <= b ->
  Z.of_nat (length (py_slice l a b))
  = Z.min b (Z.of_nat (length l)) - Z.min a (Z.of_nat (length l)).
Proof.
  intros Hab. unfold py_slice.
  destruct (Z.ltb_spec a 0); [lia|]. destruct (Z.ltb_spec b 0); [lia|].
  rewrite length_take, length_drop. lia.
Qed.

(** A window that starts inside the sequence and ends at or beyond its
    end is the rest of the sequence. *)
Lemma py_slice_tail {A} (l : list A) (a b : Z) :
  0 <= a <= Z.of_nat (length l) -> Z.of_nat (length l) <= b ->
  py_slice l a b = drop (Z.to_nat a) l.
Proof.
  intros Ha Hb. unfold py_slice.
  destruct (Z.ltb_spec a 0); [lia|]. destruct (Z.ltb_spec b 0); [lia|].
  replace (Z.max 0 (Z.min (Z.of_nat (length l)) a)) with a by lia.
  apply take_ge. rewrite length_drop. lia.
Qed.

(** ** The store: what a call leaves untouched *)

Section StoreFrame.
Context {L : Type}.
Variable ladd : L -> L -> L.
Variable rng : shuffler.
Implicit Types (h : heap L) (l : nat).

Lemma keeps_ret {A} (h0 : heap L) (a : A) (Q : A -> Prop) : Q a -> keeps h0 (st_ret a) Q.
Proof. intros HQ h Hh. split; [exact Hh|exact HQ]. Qed.

Lemma keeps_bind {A B} (h0 : heap L) (m : St L A) (k : A -> St L B) P Q :
  keeps h0 m P -> (forall a, P a -> keeps h0 (k a) Q) ->
  keeps h0 (st_bind m k) Q.
Proof.
  intros Hm Hk h Hh. unfold st_bind. specialize (Hm h Hh).
  destruct (m h) as [[a h']|e]; [|done].
  destruct Hm as [Hh' HP]. by apply Hk.
Qed.

Lemma keeps_weaken {A} (h0 : heap L) (m : St L A) (P Q : A -> Prop) :
  keeps h0 m P -> (forall a, P a -> Q a) -> keeps h0 m Q.
Proof.
  intros Hm HPQ h Hh. specialize (Hm h Hh).
  destruct (m h) as [[a h']|e]; [|done]. destruct Hm. split; auto.
Qed.

Lemma keeps_lift {A} (h0 : heap L) (r : result A) : keeps h0 (st_lift r) (fun _ => True).
Proof.
  intros h Hh. unfold st_lift. destruct r; simpl; [|exact I].
  split; [exact Hh|exact I].
Qed.

Lemma keeps_raise {A} (h0 : heap L) (e : py_exn) (Q : A -> Prop) :
  keeps h0 (st_lift (Raise e)) Q.
Proof. intros h Hh. exact I. Qed.

Lemma keeps_alloc (h0 : heap L) (v : ndarray L) : keeps h0 (alloc v) (fresh_in h0).
Proof.
  intros h Hh. unfold alloc. split.
  - by apply prefix_app_r.
  - by apply prefix_length.
Qed.

Lemma keeps_load (h0 : heap L) l : keeps h0 (load l) (fun _ => True).
Proof.
  intros h Hh. unfold load. destruct (h !! l); simpl; [|exact I].
  split; [exact Hh|exact I].
Qed.

Lemma keeps_store (h0 : heap L) l (v : ndarray L) :
  fresh_in h0 l -> keeps h0 (store l v) (fun _ => True).
Proof.
  intros Hl h [k ->]. unfold store.
  destruct ((h0 ++ k) !! l); [|done]. split; [|done].
  rewrite insert_app_r_alt by exact Hl. by apply prefix_app_r.
Qed.

Lemma keeps_load_str (h0 : heap L) l : keeps h0 (load_str l) (fun _ => True).
Proof.
  eapply keeps_bind; [apply keeps_load|]. intros [a|a|a] _.
  - by apply keeps_ret.
  - apply keeps_raise.
  - apply keeps_raise.
Qed.

Lemma keeps_load_num (h0 : heap L) l : keeps h0 (load_num l) (fun _ => True).
Proof.
  eapply keeps_bind; [apply keeps_load|]. intros [a|a|a] _.
  - apply keeps_raise.
  - by apply keeps_ret.
  - apply keeps_raise.
Qed.

Lemma keeps_load_int (h0 : heap L) l : keeps h0 (load_int l) (fun _ => True).
Proof.
  eapply keeps_bind; [apply keeps_load|]. intros [a|a|a] _.
  - apply keeps_raise.
  - apply keeps_raise.
  - by apply keeps_ret.
Qed.

Lemma keeps_lift_alloc {A} (h0 : heap L) (r : result A) (f : A -> ndarray L) :
  keeps h0 (st_bind (st_lift r) (fun x => alloc (f x))) (fresh_in h0).
Proof.
  eapply keeps_bind; [apply keeps_lift|]. intros x _. apply keeps_alloc.
Qed.

Lemma keeps_take (h0 : heap L) (a idx : nat) : keeps h0 (st_take a idx) (fresh_in h0).
Proof.
  eapply keeps_bind; [apply keeps_load_int|]. intros i _.
  eapply keeps_bind; [apply keeps_load|]. intros [x|x|x] _;
    apply keeps_lift_alloc.
Qed.

Lemma keeps_add (h0 : heap L) (a b : nat) : keeps h0 (st_add ladd a b) (fresh_in h0).
Proof.
  eapply keeps_bind; [apply keeps_load|]. intros va _.
  eapply keeps_bind; [apply keeps_load|]. intros vb _.
  destruct va, vb; first [apply keeps_lift_alloc|apply keeps_raise].
Qed.

Lemma keeps_delete (h0 : heap L) (a : nat) (idx : list nat) :
  keeps h0 (st_delete a idx) (fresh_in h0).
Proof.
  eapply keeps_bind; [apply keeps_load|]. intros [x|x|x] _;
    apply keeps_lift_alloc.
Qed.

Lemma keeps_shuffle (h0 : heap L) (c a : nat) :
  fresh_in h0 a -> keeps h0 (st_shuffle rng c a) (fun _ => True).
Proof.
  intros Ha. eapply keeps_bind; [apply keeps_load_int|]. intros x _.
  by apply keeps_store.
Qed.

Lemma keeps_foldl {S X} (h0 : heap L) (body : S -> X -> St L S) (xs : list X) :
  (forall st x, keeps h0 (body st x) (fun _ => True)) ->
  forall st, keeps h0 (st_foldl body st xs) (fun _ => True).
Proof.
  intros Hbody. induction xs as [|x xs IH]; intros st; simpl.
  - by apply keeps_ret.
  - eapply keeps_bind; [apply Hbody|]. intros st' _. apply IH.
Qed.

Lemma keeps_augment_run (h0 : heap L) (data labels mutations pos : nat) st i :
  fresh_in h0 pos ->
  keeps h0 (augment_run_st ladd rng data labels mutations pos st i)
        (fun _ => True).
Proof.
  intros Hpos. destruct st as [[nd nl] nm]. unfold augment_run_st.
  eapply keeps_bind; [by apply keeps_shuffle|]. intros _ _.
  eapply keeps_bind; [apply keeps_take|]. intros sl _.
  eapply keeps_bind; [apply keeps_add|]. intros new_labels _.
  eapply keeps_bind; [apply keeps_take|]. intros sm _.
  eapply keeps_bind; [apply keeps_add|]. intros new_mutations _.
  eapply keeps_bind; [apply keeps_take|]. intros sd _.
  eapply keeps_bind; [apply keeps_load_str|]. intros d _.
  eapply keeps_bind; [apply keeps_load_str|]. intros sdv _.
  eapply keeps_bind; [apply keeps_load_int|]. intros nmv _.
  eapply keeps_bind; [apply keeps_lift|]. intros [new_data to_del] _.
  eapply keeps_bind; [apply keeps_delete|]. intros new_labels' _.
  eapply keeps_bind; [apply keeps_delete|]. intros new_mutations' _.
  eapply keeps_bind; [apply keeps_alloc|]. intros nda _.
  eapply keeps_bind; [apply keeps_delete|]. intros nda' _.
  eapply keeps_bind; [apply keeps_load_str|]. intros a _.
  eapply keeps_bind; [apply keeps_load_num|]. intros b _.
  eapply keeps_bind; [apply keeps_load_int|]. intros c _.
  by apply keeps_ret.
Qed.

(** [augment] leaves every array that existed before the call as it
    was, and returns three new arrays. *)
Lemma keeps_augment (h0 : heap L) (data labels mutations : nat) runs un :
  keeps h0 (augment_st ladd rng data labels mutations runs un)
        (fun '(rd, rl, rm) =>
           fresh_in h0 rd /\ fresh_in h0 rl /\ fresh_in h0 rm).
Proof.
  unfold augment_st.
  eapply (keeps_bind h0 _ _ (fun _ : nat => True)).
  { eapply keeps_bind; [apply keeps_load|]. intros v _. by apply keeps_ret. }
  intros n _.
  eapply keeps_bind; [apply keeps_alloc|]. intros pos Hpos.
  eapply keeps_bind.
  { apply keeps_foldl. intros st i. by apply keeps_augment_run. }
  intros [[nd nl] nm] _. destruct un.
  - eapply keeps_bind; [apply keeps_alloc|]. intros uni _.
    eapply keeps_bind; [apply keeps_alloc|]. intros a _.
    eapply keeps_bind; [apply keeps_take|]. intros rd Hrd.
    eapply keeps_bind; [apply keeps_alloc|]. intros b _.
    eapply keeps_bind; [apply keeps_take|]. intros rl Hrl.
    eapply keeps_bind; [apply keeps_alloc|]. intros c _.
    eapply keeps_bind; [apply keeps_take|]. intros rm Hrm.
    by apply keeps_ret.
  - eapply keeps_bind; [apply keeps_alloc|]. intros rd Hrd.
    eapply keeps_bind; [apply keeps_alloc|]. intros rl Hrl.
    eapply keeps_bind; [apply keeps_alloc|]. intros rm Hrm.
    by apply keeps_ret.
Qed.

End StoreFrame.

(** ** The store: the call computes what [augment] computes *)

Section StoreRefine.
Context {L : Type}.
Variable ladd : L -> L -> L.
Variable rng : shuffler.

Lemma st_bind_ok {A B} (m : St L A) (k : A -> St L B) (h h' : heap L) (a : A) :
  m h = Ok (a, h') -> st_bind m k h = k a h'.
Proof. intros H. unfold st_bind. by rewrite H. Qed.

Lemma load_ok (h : heap L) l v : h !! l = Some v -> load l h = Ok (v, h).
Proof. intros H. unfold load. by rewrite H. Qed.

Lemma load_str_ok (h : heap L) l x :
  h !! l = Some (NdStr x) -> load_str l h = Ok (x, h).
Proof. intros H. unfold load_str. by rewrite (st_bind_ok _ _ _ _ _ (load_ok _ _ _ H)). Qed.

Lemma load_num_ok (h : heap L) l x :
  h !! l = Some (NdNum x) -> load_num l h = Ok (x, h).
Proof. intros H. unfold load_num. by rewrite (st_bind_ok _ _ _ _ _ (load_ok _ _ _ H)). Qed.

Lemma load_int_ok (h : heap L) l x :
  h !! l = Some (NdInt x) -> load_int l h = Ok (x, h).
Proof. intros H. unfold load_int. by rewrite (st_bind_ok _ _ _ _ _ (load_ok _ _ _ H)). Qed.

Lemma alloc_ok (h : heap L) (v : ndarray L) :
  exists l h', alloc v h = Ok (l, h') /\ h' !! l = Some v /\ h `prefix_of` h'.
Proof.
  exists (length h), (h ++ [v]). split; [done|]. split.
  - by apply list_lookup_middle.
  - by apply prefix_app_r.
Qed.

Lemma lift_alloc_ok {A} (h : heap L) (r : A) (f : A -> ndarray L) :
  exists l h',
    st_bind (st_lift (Ok r)) (fun x => alloc (f x)) h = Ok (l, h') /\
    h' !! l = Some (f r) /\ h `prefix_of` h'.
Proof. apply alloc_ok. Qed.

Lemma st_take_str_ok (h : heap L) a idx x i r :
  h !! a = Some (NdStr x) -> h !! idx = Some (NdInt i) ->
  Np.take x i = Ok r ->
  exists l h', st_take a idx h = Ok (l, h') /\
               h' !! l = Some (NdStr r) /\ h `prefix_of` h'.
Proof.
  intros Ha Hi Hr. unfold st_take.
  rewrite (st_bind_ok _ _ _ _ _ (load_int_ok _ _ _ Hi)).
  rewrite (st_bind_ok _ _ _ _ _ (load_ok _ _ _ Ha)). rewrite Hr.
  apply (lift_alloc_ok h r NdStr).
Qed.

Lemma st_take_num_ok (h : heap L) a idx x i r :
  h !! a = Some (NdNum x) -> h !! idx = Some (NdInt i) ->
  Np.take x i = Ok r ->
  exists l h', st_take a idx h = Ok (l, h') /\
               h' !! l = Some (NdNum r) /\ h `prefix_of` h'.
Proof.
  intros Ha Hi Hr. unfold st_take.
  rewrite (st_bind_ok _ _ _ _ _ (load_int_ok _ _ _ Hi)).
  rewrite (st_bind_ok _ _ _ _ _ (load_ok _ _ _ Ha)). rewrite Hr.
  apply (lift_alloc_ok h r NdNum).
Qed.

Lemma st_take_int_ok (h : heap L) a idx x i r :
  h !! a = Some (NdInt x) -> h !! idx = Some (NdInt i) ->
  Np.take x i = Ok r ->
  exists l h', st_take a idx h = Ok (l, h') /\
               h' !! l = Some (NdInt r) /\ h `prefix_of` h'.
Proof.
  intros Ha Hi Hr. unfold st_take.
  rewrite (st_bind_ok _ _ _ _ _ (load_int_ok _ _ _ Hi)).
  rewrite (st_bind_ok _ _ _ _ _ (load_ok _ _ _ Ha)). rewrite Hr.
  apply (lift_alloc_ok h r NdInt).
Qed.

Lemma st_add_num_ok (h : heap L) a b x y r :
  h !! a = Some (NdNum x) -> h !! b = Some (NdNum y) ->
  Np.add ladd x y = Ok r ->
  exists l h', st_add ladd a b h = Ok (l, h') /\
               h' !! l = Some (NdNum r) /\ h `prefix_of` h'.
Proof.
  intros Ha Hb Hr. unfold st_add.
  rewrite (st_bind_ok _ _ _ _ _ (load_ok _ _ _ Ha)).
  rewrite (st_bind_ok _ _ _ _ _ (load_ok _ _ _ Hb)). rewrite Hr.
  apply (lift_alloc_ok h r NdNum).
Qed.

Lemma st_add_int_ok (h : heap L) a b x y r :
  h !! a = Some (NdInt x) -> h !! b = Some (NdInt y) ->
  Np.add Np.add64 x y = Ok r ->
  exists l h', st_add ladd a b h = Ok (l, h') /\
               h' !! l = Some (NdInt r) /\ h `prefix_of` h'.
Proof.
  intros Ha Hb Hr. unfold st_add.
  rewrite (st_bind_ok _ _ _ _ _ (load_ok _ _ _ Ha)).
  rewrite (st_bind_ok _ _ _ _ _ (load_ok _ _ _ Hb)). rewrite Hr.
  apply (lift_alloc_ok h r NdInt).
Qed.

Lemma st_delete_str_ok (h : heap L) a x idx r :
  h !! a = Some (NdStr x) -> Np.delete x idx = Ok r ->
  exists l h', st_delete a idx h = Ok (l, h') /\
               h' !! l = Some (NdStr r) /\ h `prefix_of` h'.
Proof.
  intros Ha Hr. unfold st_delete.
  rewrite (st_bind_ok _ _ _ _ _ (load_ok _ _ _ Ha)). rewrite Hr.
  apply (lift_alloc_ok h r NdStr).
Qed.

Lemma st_delete_num_ok (h : heap L) a x idx r :
  h !! a = Some (NdNum x) -> Np.delete x idx = Ok r ->
  exists l h', st_delete a idx h = Ok (l, h') /\
               h' !! l = Some (NdNum r) /\ h `prefix_of` h'.
Proof.
  intros Ha Hr. unfold st_delete.
  rewrite (st_bind_ok _ _ _ _ _ (load_ok _ _ _ Ha)). rewrite Hr.
  apply (lift_alloc_ok h r NdNum).
Qed.

Lemma st_delete_int_ok (h : heap L) a x idx r :
  h !! a = Some (NdInt x) -> Np.delete x idx = Ok r ->
  exists l h', st_delete a idx h = Ok (l, h') /\
               h' !! l = Some (NdInt r) /\ h `prefix_of` h'.
Proof.
  intros Ha Hr. unfold st_delete.
  rewrite (st_bind_ok _ _ _ _ _ (load_ok _ _ _ Ha)). rewrite Hr.
  apply (lift_alloc_ok h r NdInt).
Qed.

Lemma st_shuffle_ok (h : heap L) c a x :
  h !! a = Some (NdInt x) ->
  exists h', st_shuffle rng c a h = Ok (tt, h') /\
             h' !! a = Some (NdInt (random_shuffle rng c x)) /\
             forall l v, l <> a -> h !! l = Some v -> h' !! l = Some v.
Proof.
  intros Ha. unfold st_shuffle.
  rewrite (st_bind_ok _ _ _ _ _ (load_int_ok _ _ _ Ha)).
  unfold store. rewrite Ha. eexists. split; [done|]. split.
  - apply list_lookup_insert_eq. by eapply lookup_lt_Some.
  - intros l v Hl Hv. by rewrite list_lookup_insert_ne.
Qed.

End StoreRefine.

(** Carry the known contents of the store over an extension of it. *)
Ltac carry P :=
  repeat match goal with
         | H : ?h !! _ = Some _ |- _ =>
             lazymatch type of P with
             | h `prefix_of` _ => apply (fun H' => prefix_lookup_Some _ _ _ _ H' P) in H
             end
         end.

(** Run one operation on the store whose outcome is known: [l] names
    the cell it returns, [Hl] what the cell holds. *)
Ltac run_op E l Hl :=
  let h' := fresh "h" in
  let Hrun := fresh "Hrun" in
  let P := fresh "P" in
  destruct E as (l & h' & Hrun & Hl & P);
  rewrite (st_bind_ok _ _ _ _ _ Hrun); clear Hrun; carry P; clear P.

Ltac run_alloc l Hl :=
  lazymatch goal with
  | |- context [st_bind (alloc ?v) _ ?h] => run_op (alloc_ok h v) l Hl
  end.

Section StoreRun.
Context {L : Type}.
Variable ladd : L -> L -> L.
Variable rng : shuffler.

(** One iteration on the store computes what the iteration on values
    computes, and leaves the three input arrays as they were. *)
Lemma augment_run_st_ok (h : heap L) ld ll lm pos data labels mutations
    pos_inds nd nl nm i pos_inds' nd' nl' nm' :
  h !! ld = Some (NdStr data) ->
  h !! ll = Some (NdNum labels) ->
  h !! lm = Some (NdInt mutations) ->
  h !! pos = Some (NdInt pos_inds) ->
  pos <> lm ->
  augment_run ladd rng data labels mutations (pos_inds, nd, nl, nm) i
  = Ok (pos_inds', nd', nl', nm') ->
  exists h',
    augment_run_st ladd rng ld ll lm pos (nd, nl, nm) i h
    = Ok ((nd', nl', nm'), h') /\
    h' !! ld = Some (NdStr data) /\
    h' !! ll = Some (NdNum labels) /\
    h' !! lm = Some (NdInt mutations) /\
    h' !! pos = Some (NdInt pos_inds').
Proof.
  intros Hd Hl Hm Hp Hne Hpure.
  unfold augment_run, run_candidates in Hpure.
  destruct (Np.take labels _) as [sl|] eqn:E1; [|done].
  cbn [mbind result_bind] in Hpure.
  destruct (Np.add ladd labels sl) as [new_labels|] eqn:E2; [|done].
  cbn [mbind result_bind] in Hpure.
  destruct (Np.take mutations _) as [sm|] eqn:E3; [|done].
  cbn [mbind result_bind] in Hpure.
  destruct (Np.add Np.add64 mutations sm) as [new_mutations|] eqn:E4; [|done].
  cbn [mbind result_bind] in Hpure.
  destruct (Np.take data _) as [sd|] eqn:E5; [|done].
  cbn [mbind result_bind] in Hpure.
  destruct (scan data sd new_mutations) as [[new_data to_del]|] eqn:E6; [|done].
  cbn [mbind result_bind] in Hpure.
  destruct (Np.delete new_labels to_del) as [new_labels'|] eqn:E7; [|done].
  cbn [mbind result_bind] in Hpure.
  destruct (Np.delete new_mutations to_del) as [new_mutations'|] eqn:E8;
    [|done].
  cbn [mbind result_bind] in Hpure.
  destruct (Np.delete new_data to_del) as [new_data'|] eqn:E9; [|done].
  cbn [mbind result_bind] in Hpure. injection Hpure as <- <- <- <-.
  unfold augment_run_st.
  destruct (st_shuffle_ok rng h i pos pos_inds Hp) as (h1 & Hrun & Hp1 & Hother).
  rewrite (st_bind_ok _ _ _ _ _ Hrun). clear Hrun.
  apply Hother in Hd; [|intros ->; congruence].
  apply Hother in Hl; [|intros ->; congruence].
  apply Hother in Hm; [|congruence].
  clear Hother Hp.
  run_op (st_take_num_ok _ ll pos _ _ _ Hl Hp1 E1) a1 Ha1.
  run_op (st_add_num_ok ladd _ ll a1 _ _ _ Hl Ha1 E2) a2 Ha2.
  run_op (st_take_int_ok _ lm pos _ _ _ Hm Hp1 E3) a3 Ha3.
  run_op (st_add_int_ok ladd _ lm a3 _ _ _ Hm Ha3 E4) a4 Ha4.
  run_op (st_take_str_ok _ ld pos _ _ _ Hd Hp1 E5) a5 Ha5.
  rewrite (st_bind_ok _ _ _ _ _ (load_str_ok _ _ _ Hd)).
  rewrite (st_bind_ok _ _ _ _ _ (load_str_ok _ _ _ Ha5)).
  rewrite (st_bind_ok _ _ _ _ _ (load_int_ok _ _ _ Ha4)).
  rewrite E6. unfold st_lift at 1. unfold st_bind at 1.
  run_op (st_delete_num_ok _ a2 _ to_del _ Ha2 E7) a6 Ha6.
  run_op (st_delete_int_ok _ a4 _ to_del _ Ha4 E8) a7 Ha7.
  run_alloc a8 Ha8.
  run_op (st_delete_str_ok _ a8 _ to_del _ Ha8 E9) a9 Ha9.
  rewrite (st_bind_ok _ _ _ _ _ (load_str_ok _ _ _ Ha9)).
  rewrite (st_bind_ok _ _ _ _ _ (load_num_ok _ _ _ Ha6)).
  rewrite (st_bind_ok _ _ _ _ _ (load_int_ok _ _ _ Ha7)).
  eexists. split; [reflexivity|]. by split_and!.
Qed.

End StoreRun.

Section StoreAugment.
Context {L : Type}.
Variable ladd : L -> L -> L.
Variable rng : shuffler.

Lemma augment_loop_st_ok ld ll lm pos data labels mutations (xs : list nat) :
  forall (h : heap L) pos_inds nd nl nm pos_inds' nd' nl' nm',
  h !! ld = Some (NdStr data) ->
  h !! ll = Some (NdNum labels) ->
  h !! lm = Some (NdInt mutations) ->
  h !! pos = Some (NdInt pos_inds) ->
  pos <> lm ->
  foldlM (augment_run ladd rng data labels mutations)
         (pos_inds, nd, nl, nm) xs
  = Ok (pos_inds', nd', nl', nm') ->
  exists h',
    st_foldl (augment_run_st ladd rng ld ll lm pos) (nd, nl, nm) xs h
    = Ok ((nd', nl', nm'), h') /\
    h' !! ld = Some (NdStr data) /\
    h' !! ll = Some (NdNum labels) /\
    h' !! lm = Some (NdInt mutations).
Proof.
  induction xs as [|x xs IH];
    intros h pos_inds nd nl nm pos_inds' nd' nl' nm' Hd Hl Hm Hp Hne Hpure.
  - injection Hpure as <- <- <- <-. exists h. by split_and!.
  - cbn [foldlM] in Hpure.
    destruct (augment_run ladd rng data labels mutations
                (pos_inds, nd, nl, nm) x)
      as [[[[p1 nd1] nl1] nm1]|] eqn:Hrun; [|done].
    cbn [mbind result_bind] in Hpure.
    destruct (augment_run_st_ok ladd rng h ld ll lm pos _ _ _ _ _ _ _ _ _ _ _ _
                Hd Hl Hm Hp Hne Hrun)
      as (h1 & Hst & Hd1 & Hl1 & Hm1 & Hp1).
    cbn [st_foldl]. rewrite (st_bind_ok _ _ _ _ _ Hst).
    by eapply IH.
Qed.

(** On arrays of the expected kinds the call on the store returns new
    arrays that hold what [augment] computes from the contents. *)
Lemma augment_st_ok (h : heap L) ld ll lm data labels mutations runs un
    nd nl nm :
  h !! ld = Some (NdStr data) ->
  h !! ll = Some (NdNum labels) ->
  h !! lm = Some (NdInt mutations) ->
  augment ladd rng data labels mutations runs un = Ok (nd, nl, nm) ->
  exists rd rl rm h',
    augment_st ladd rng ld ll lm runs un h = Ok ((rd, rl, rm), h') /\
    h' !! rd = Some (NdStr nd) /\
    h' !! rl = Some (NdNum nl) /\
    h' !! rm = Some (NdInt nm).
Proof.
  intros Hd Hl Hm Hpure. unfold augment, augment_loop in Hpure.
  destruct (foldlM _ _ _) as [[[[p1 nd1] nl1] nm1]|] eqn:Hloop; [|done].
  cbn [mbind result_bind] in Hpure.
  unfold augment_st, st_len.
  rewrite (st_bind_ok _ _ _ _ _
             (st_bind_ok _ _ _ _ _ (load_ok _ _ _ Hl))).
  cbn [st_ret].
  assert (length h <> lm) as Hne.
  { apply lookup_lt_Some in Hm. lia. }
  destruct (alloc_ok h (NdInt (Np.arange (length labels))))
    as (pos & h0 & Hrun & Hp & P).
  assert (pos = length h) as Hpos by (by injection Hrun).
  rewrite (st_bind_ok _ _ _ _ _ Hrun). clear Hrun. carry P. clear P.
  destruct (augment_loop_st_ok ld ll lm pos _ _ _ _ h0 _ _ _ _ _ _ _ _
              Hd Hl Hm Hp ltac:(congruence) Hloop)
    as (h1 & Hst & Hd1 & Hl1 & Hm1).
  rewrite (st_bind_ok _ _ _ _ _ Hst). clear Hst.
  destruct un.
  - destruct (Np.take nd1 _) as [rdv|] eqn:E1; [|done].
    cbn [mbind result_bind] in Hpure.
    destruct (Np.take nl1 _) as [rlv|] eqn:E2; [|done].
    cbn [mbind result_bind] in Hpure.
    destruct (Np.take nm1 _) as [rmv|] eqn:E3; [|done].
    cbn [mbind result_bind] in Hpure. injection Hpure as <- <- <-.
    run_alloc uni Huni. run_alloc a Ha.
    run_op (st_take_str_ok _ a uni _ _ _ Ha Huni E1) rd Hrd.
    run_alloc b Hb.
    run_op (st_take_num_ok _ b uni _ _ _ Hb Huni E2) rl Hrl.
    run_alloc c Hc.
    run_op (st_take_int_ok _ c uni _ _ _ Hc Huni E3) rm Hrm.
    eexists rd, rl, rm, _. split; [reflexivity|]. by split_and!.
  - injection Hpure as <- <- <-.
    run_alloc rd Hrd. run_alloc rl Hrl. run_alloc rm Hrm.
    eexists rd, rl, rm, _. split; [reflexivity|]. by split_and!.
Qed.

(** C9. [augment] leaves its input arrays unchanged. On a store holding
    the three arrays, the call returns whenever the arrays are parallel;
    and whenever it returns, the three input arrays (as every other array
    that existed before the call) hold what they held, and the three
    arrays returned are new ones that hold what [augment] computes. *)
Theorem augment_leaves_inputs_unchanged (h : heap L) ld ll lm
    data labels mutations runs un :
  h !! ld = Some (NdStr data) ->
  h !! ll = Some (NdNum labels) ->
  h !! lm = Some (NdInt mutations) ->
  (length data = length labels -> length mutations = length labels ->
   exists r h', augment_st ladd rng ld ll lm runs un h = Ok (r, h')) /\
  forall rd rl rm h',
    augment_st ladd rng ld ll lm runs un h = Ok ((rd, rl, rm), h') ->
    h' !! ld = Some (NdStr data) /\
    h' !! ll = Some (NdNum labels) /\
    h' !! lm = Some (NdInt mutations) /\
    (forall l v, h !! l = Some v -> h' !! l = Some v) /\
    fresh_in h rd /\ fresh_in h rl /\ fresh_in h rm /\
    (forall nd nl nm,
       augment ladd rng data labels mutations runs un = Ok (nd, nl, nm) ->
       h' !! rd = Some (NdStr nd) /\ h' !! rl = Some (NdNum nl) /\
       h' !! rm = Some (NdInt nm)).
Proof.
  intros Hd Hl Hm. split.
  - intros Ld Lm.
    assert (exists nd nl nm,
              augment ladd rng data labels mutations runs un = Ok (nd, nl, nm))
      as (nd & nl & nm & Hpure).
    { destruct (augment_plain ladd rng data labels mutations runs Ld Lm)
        as (keptss & _ & Hplain).
      destruct un; [|by eauto].
      destruct (augment_dedup ladd rng _ _ _ _ _ _ _ Ld Lm Hplain)
        as (_ & _ & nl' & nm' & Hun & _). by eauto. }
    destruct (augment_st_ok h ld ll lm _ _ _ _ _ _ _ _ Hd Hl Hm Hpure)
      as (rd & rl & rm & h' & Hst & _). by eauto.
  - intros rd rl rm h' Hst.
    pose proof (keeps_augment ladd rng h ld ll lm runs un h
                  (reflexivity h)) as Hk.
    rewrite Hst in Hk. destruct Hk as (Hpre & Frd & Frl & Frm).
    split_and!; try done.
    + by eapply prefix_lookup_Some.
    + by eapply prefix_lookup_Some.
    + by eapply prefix_lookup_Some.
    + intros l v Hv. by eapply prefix_lookup_Some.
    + intros nd nl nm Hpure.
      destruct (augment_st_ok h ld ll lm _ _ _ _ _ _ _ _ Hd Hl Hm Hpure)
        as (rd' & rl' & rm' & h'' & Hst' & Hrd & Hrl & Hrm).
      rewrite Hst in Hst'. by injection Hst' as <- <- <- <-.
Qed.

End StoreAugment.

Lemma augment_leaves_inputs_unchanged_witness :
  (demo_heap !! 0%nat = Some (NdStr ["V2A"; "S1A"; "D35T"]) /\
   demo_heap !! 1%nat = Some (NdNum [10; 20; 30]) /\
   demo_heap !! 2%nat = Some (NdInt [1; 1; 1])) /\
  (length ["V2A"; "S1A"; "D35T"] = length [10; 20; 30] ->
   length [1; 1; 1] = length [10; 20; 30] ->
   exists r h', augment_st Z.add rotating 0 1 2 2 true demo_heap = Ok (r, h'))
  /\
  forall rd rl rm h',
    augment_st Z.add rotating 0 1 2 2 true demo_heap = Ok ((rd, rl, rm), h') ->
    h' !! 0%nat = Some (NdStr ["V2A"; "S1A"; "D35T"]) /\
    h' !! 1%nat = Some (NdNum [10; 20; 30]) /\
    h' !! 2%nat = Some (NdInt [1; 1; 1]) /\
    (forall l v, demo_heap !! l = Some v -> h' !! l = Some v) /\
    fresh_in demo_heap rd /\ fresh_in demo_heap rl /\ fresh_in demo_heap rm /\
    (forall nd nl nm,
       augment Z.add rotating ["V2A"; "S1A"; "D35T"] [10; 20; 30] [1; 1; 1]
               2 true = Ok (nd, nl, nm) ->
       h' !! rd = Some (NdStr nd) /\ h' !! rl = Some (NdNum nl) /\
       h' !! rm = Some (NdInt nm)).
Proof.
  split; [split_and!; reflexivity|].
  apply (augment_leaves_inputs_unchanged Z.add rotating demo_heap 0 1 2
           ["V2A"; "S1A"; "D35T"] [10; 20; 30] [1; 1; 1] 2 true);
    reflexivity.
Defined.

(** The call of the witness, run: the store grows, the first three cells
    are the inputs. *)
Example augment_st_run :
  exists h',
    augment_st Z.add rotating 0 1 2 1 true demo_heap
    = Ok ((15, 17, 19)%nat, h') /\
    take 3 h' = demo_heap /\
    h' !! 15%nat = Some (NdStr ["D35T,S1A"; "D35T,V2A"; "S1A,V2A"]) /\
    h' !! 17%nat = Some (NdNum [50; 40; 30]) /\
    h' !! 19%nat = Some (NdInt [2; 2; 2]).
Proof. eexists. split; [vm_compute; reflexivity|]. by split_and!. Qed.

(** ** Deduplication *)

Section AugmentDedup.
Context {L : Type}.
Variable ladd : L -> L -> L.
Variable rng : shuffler.

(** C6. On parallel input arrays, [augment] with [un=True] returns
    exactly one entry per distinct string of the accumulated list [nd]
    (no repetition, the same set of strings), and the entry of a string
    carries the label and the mutation count found at the first position
    of that string in the accumulated lists [nd], [nl], [nm]. *)
Theorem augment_unique_keeps_first data labels mutations runs :
  length data = length labels ->
  length mutations = length labels ->
  exists nd nl nm nd' nl' nm',
    augment ladd rng data labels mutations runs false = Ok (nd, nl, nm) /\
    augment ladd rng data labels mutations runs true = Ok (nd', nl', nm') /\
    NoDup nd' /\ (forall s, s ∈ nd' <-> s ∈ nd) /\
    length nl' = length nd' /\ length nm' = length nd' /\
    forall k s, nd' !! k = Some s ->
      exists i, nd !! i = Some s /\
                (forall j, (j < i)%nat -> nd !! j <> Some s) /\
                nl' !! k = nl !! i /\ nm' !! k = nm !! i.
Proof.
  intros Hd Hm.
  destruct (augment_plain ladd rng data labels mutations runs Hd Hm)
    as (keptss & _ & Hplain).
  destruct (augment_dedup ladd rng _ _ _ _ _ _ _ Hd Hm Hplain)
    as (_ & _ & nl' & nm' & Hun & Hnl & Hnm).
  eexists _, _, _, _, nl', nm'. split; [exact Hplain|]. split; [exact Hun|].
  split; [apply unique_NoDup|]. split; [apply unique_elem_of|].
  split; [symmetry; exact (Forall2_length _ _ _ Hnl)|].
  split; [symmetry; exact (Forall2_length _ _ _ Hnm)|].
  intros k s Hk.
  assert (s ∈ row_data <$> mjoin keptss) as Hs.
  { apply unique_elem_of, list_elem_of_lookup. eauto. }
  destruct (first_index_spec _ _ Hs) as [Hi Hmin].
  exists (Np.first_index (row_data <$> mjoin keptss) s).
  split; [done|]. split; [done|].
  destruct (Forall2_lookup_l _ _ _ _ _ Hnl Hk) as (x & -> & Hx).
  destruct (Forall2_lookup_l _ _ _ _ _ Hnm Hk) as (y & -> & Hy).
  by rewrite Hx, Hy.
Qed.

(** C10. On parallel input arrays, the data array [augment] returns with
    [un=True] is in ascending lexicographic order, without repetition:
    the order of [np.unique], not the order of generation. *)
Theorem augment_unique_sorted data labels mutations runs :
  length data = length labels ->
  length mutations = length labels ->
  exists nd nl nm,
    augment ladd rng data labels mutations runs true = Ok (nd, nl, nm) /\
    StronglySorted String.le nd /\ NoDup nd.
Proof.
  intros Hd Hm.
  destruct (augment_plain ladd rng data labels mutations runs Hd Hm)
    as (keptss & _ & Hplain).
  destruct (augment_dedup ladd rng _ _ _ _ _ _ _ Hd Hm Hplain)
    as (_ & _ & nl' & nm' & Hun & _).
  eexists _, nl', nm'. split; [exact Hun|].
  split; [apply unique_sorted|apply unique_NoDup].
Qed.

End AugmentDedup.

Lemma augment_unique_keeps_first_witness :
  (length ["V2A"; "S1A"; "D35T"] = length [10; 20; 30] /\
   length [1; 1; 1] = length [10; 20; 30]) /\
  exists nd nl nm nd' nl' nm',
    augment Z.add rotating ["V2A"; "S1A"; "D35T"] [10; 20; 30] [1; 1; 1] 2
            false = Ok (nd, nl, nm) /\
    augment Z.add rotating ["V2A"; "S1A"; "D35T"] [10; 20; 30] [1; 1; 1] 2
            true = Ok (nd', nl', nm') /\
    NoDup nd' /\ (forall s, s ∈ nd' <-> s ∈ nd) /\
    length nl' = length nd' /\ length nm' = length nd' /\
    forall k s, nd' !! k = Some s ->
      exists i, nd !! i = Some s /\
                (forall j, (j < i)%nat -> nd !! j <> Some s) /\
                nl' !! k = nl !! i /\ nm' !! k = nm !! i.
Proof.
  split; [split; reflexivity|].
  apply (augment_unique_keeps_first Z.add rotating
           ["V2A"; "S1A"; "D35T"] [10; 20; 30] [1; 1; 1] 2); reflexivity.
Defined.

Lemma augment_unique_sorted_witness :
  (length ["V2A"; "S1A"; "D35T"] = length [10; 20; 30] /\
   length [1; 1; 1] = length [10; 20; 30]) /\
  exists nd nl nm,
    augment Z.add rotating ["V2A"; "S1A"; "D35T"] [10; 20; 30] [1; 1; 1] 2
            true = Ok (nd, nl, nm) /\
    StronglySorted String.le nd /\ NoDup nd.
Proof.
  split; [split; reflexivity|].
  apply (augment_unique_sorted Z.add rotating
           ["V2A"; "S1A"; "D35T"] [10; 20; 30] [1; 1; 1] 2); reflexivity.
Defined.

(** The order of generation and the order returned differ. *)
Example augment_generation_order :
  augment Z.add rotating ["V2A"; "S1A"; "D35T"] [10; 20; 30] [1; 1; 1] 1 false
  = Ok (["S1A,V2A"; "D35T,S1A"; "D35T,V2A"], [30; 50; 40], [2; 2; 2]).
Proof. vm_compute. reflexivity. Qed.

Example augment_unique_order :
  augment Z.add rotating ["V2A"; "S1A"; "D35T"] [10; 20; 30] [1; 1; 1] 1 true
  = Ok (["D35T,S1A"; "D35T,V2A"; "S1A,V2A"], [50; 40; 30], [2; 2; 2]).
Proof. vm_compute. reflexivity. Qed.

(** ** Acceptance and rejection of a candidate *)

Lemma pos_new_data_Permutation (j k : string) :
  pos_new_data j k ≡ₚ tokens j ++ tokens k.
Proof. apply sort_Permutation. Qed.

Lemma length_pos_new_data (j k : string) :
  length (pos_new_data j k) = (length (tokens j) + length (tokens k))%nat.
Proof. by rewrite pos_new_data_Permutation, length_app. Qed.

(** The string of a candidate determines its tokens. *)
Lemma split_join_pos_new_data (j k : string) :
  tokens (PyStr.join "," (pos_new_data j k)) = pos_new_data j k.
Proof.
  apply split_join.
  - intros Hnil. apply (f_equal length) in Hnil.
    rewrite length_pos_new_data in Hnil. simpl in Hnil.
    pose proof (split_nonempty PyStr.comma j) as Hj. unfold tokens in Hnil.
    destruct (PyStr.split PyStr.comma j); [done|simpl in Hnil; lia].
  - rewrite pos_new_data_Permutation. apply Forall_app.
    split; apply split_no_sep.
Qed.

Lemma tokens_NoDup (v : string) (m : Z) :
  well_formed_sample v m -> NoDup (tokens v).
Proof. intros [Hnd _]. by apply NoDup_fmap_1 in Hnd. Qed.

Lemma disjoint_tokens_NoDup (v1 v2 : string) (m1 m2 : Z) :
  well_formed_sample v1 m1 -> well_formed_sample v2 m2 ->
  disjoint_positions v1 v2 ->
  NoDup (tokens v1 ++ tokens v2).
Proof.
  intros H1 H2 Hdis. apply NoDup_app. split_and!.
  - by eapply tokens_NoDup.
  - intros t Ht1 Ht2. by apply (Hdis t t Ht1 Ht2).
  - by eapply tokens_NoDup.
Qed.

Section Acceptance.
Context {L : Type}.

(** Two well-formed variants with disjoint positions pass the test of
    the inner loop, and their counts add up without wrapping. *)
Lemma accepted_disjoint (v1 v2 : string) (l : L) (m1 m2 : Z) :
  well_formed_sample v1 m1 -> well_formed_sample v2 m2 ->
  disjoint_positions v1 v2 ->
  m1 + m2 < 2 ^ 63 ->
  Np.add64 m1 m2 = m1 + m2 /\
  accepted (pos_new_data v1 v2, l, Np.add64 m1 m2).
Proof.
  intros H1 H2 Hdis Hsum.
  pose proof (disjoint_tokens_NoDup _ _ _ _ H1 H2 Hdis) as Hnd.
  destruct H1 as [_ ->], H2 as [_ ->].
  assert (Np.add64 (Z.of_nat (length (tokens v1)))
                   (Z.of_nat (length (tokens v2)))
          = Z.of_nat (length (tokens v1)) + Z.of_nat (length (tokens v2)))
    as Hadd.
  { unfold Np.add64. apply wrap64_small. unfold Np.int64. lia. }
  split; [done|]. unfold accepted. simpl. rewrite Hadd.
  rewrite length_unique, length_remove_dups_NoDup.
  - rewrite length_pos_new_data. lia.
  - by rewrite pos_new_data_Permutation.
Qed.

(** Two variants that have a token in common fail the test, whenever
    their counts are their numbers of tokens. *)
Lemma rejected_common_token (cand : list string) (l : L) (m1 m2 : Z) :
  ~ NoDup cand ->
  m1 + m2 = Z.of_nat (length cand) ->
  0 <= m1 -> 0 <= m2 -> Np.int64 m1 -> Np.int64 m2 ->
  ~ accepted (cand, l, Np.add64 m1 m2).
Proof.
  intros Hdup Hsum H1 H2 I1 I2. unfold accepted. simpl.
  rewrite length_unique.
  pose proof (length_remove_dups_lt cand Hdup) as Hlt.
  unfold Np.add64, Np.int64 in *.
  destruct (Z.lt_ge_cases (m1 + m2) (2 ^ 63)) as [Hs|Hs].
  - rewrite wrap64_small by (unfold Np.int64; lia). lia.
  - rewrite wrap64_overflow by lia. lia.
Qed.

Lemma common_token_dup (v1 v2 t : string) :
  t ∈ tokens v1 -> t ∈ tokens v2 -> ~ NoDup (pos_new_data v1 v2).
Proof.
  intros Ht1 Ht2 Hnd. rewrite pos_new_data_Permutation in Hnd.
  apply NoDup_app in Hnd as (_ & Hdis & _). by apply (Hdis t).
Qed.

Lemma to_del_rows_elem (rows : list (row L)) : forall off i r,
  rows !! i = Some r -> ~ accepted r ->
  (off + i)%nat ∈ to_del_rows off rows.
Proof.
  induction rows as [|r' rows IH]; intros off [|i] r Hi Hr; simplify_eq/=.
  - rewrite decide_False by done. rewrite Nat.add_0_r. left.
  - apply elem_of_app. right.
    replace (off + S i)%nat with (S off + i)%nat by lia. by eapply IH.
Qed.

End Acceptance.

Section AugmentCandidates.
Context {L : Type}.
Variable ladd : L -> L -> L.
Variable rng : shuffler.

(** C7. In any run [r] of [augment] on parallel arrays, let row [i] be
    paired with row [p]. If the two variants are well-formed samples whose
    mutated positions are disjoint (and the sum of their counts fits the
    integer type), the candidate is accepted: the returned arrays hold, at
    one common position, the comma-join of the sorted union of the two
    token lists, the sum of the two labels and the sum of the two counts;
    with [un=True] the string is still among the returned data. *)
Theorem augment_accepts_disjoint data labels mutations runs r i p
    v1 v2 l1 l2 m1 m2 :
  length data = length labels ->
  length mutations = length labels ->
  (r < runs)%nat ->
  pos_after rng (length labels) (S r) !! i = Some p ->
  data !! i = Some v1 -> data !! Z.to_nat p = Some v2 ->
  labels !! i = Some l1 -> labels !! Z.to_nat p = Some l2 ->
  mutations !! i = Some m1 -> mutations !! Z.to_nat p = Some m2 ->
  well_formed_sample v1 m1 -> well_formed_sample v2 m2 ->
  disjoint_positions v1 v2 ->
  m1 + m2 < 2 ^ 63 ->
  let union := Np.unique (tokens v1 ++ tokens v2) in
  Np.sort (tokens v1 ++ tokens v2) = union /\
  (exists nd nl nm k,
     augment ladd rng data labels mutations runs false = Ok (nd, nl, nm) /\
     nd !! k = Some (PyStr.join "," union) /\
     nl !! k = Some (ladd l1 l2) /\
     nm !! k = Some (m1 + m2)) /\
  (exists nd nl nm,
     augment ladd rng data labels mutations runs true = Ok (nd, nl, nm) /\
     PyStr.join "," union ∈ nd).
Proof.
  intros Hd Hm Hr Hp D1 D2 L1 L2 M1 M2 W1 W2 Hdis Hsum union.
  assert (Np.sort (tokens v1 ++ tokens v2) = union) as Hunion.
  { symmetry. apply unique_NoDup_sort. by eapply disjoint_tokens_NoDup. }
  split; [done|].
  destruct (augment_plain ladd rng data labels mutations runs Hd Hm)
    as (keptss & HF & Hplain).
  destruct (accepted_disjoint v1 v2 (ladd l1 l2) m1 m2 W1 W2 Hdis Hsum)
    as [Hadd Hacc].
  set (row := (pos_new_data v1 v2, ladd l1 l2, Np.add64 m1 m2) : row L) in *.
  assert (candidate_row ladd data labels mutations
            (pos_after rng (length labels) (S r)) i = Some row) as Hc.
  { unfold candidate_row. rewrite Hp. simpl. rewrite D1. simpl.
    rewrite D2. simpl. rewrite L1. simpl. rewrite L2. simpl.
    rewrite M1. simpl. by rewrite M2. }
  assert (row ∈ mjoin keptss) as Hin.
  { eapply kept_row_intro; [exact HF|exact Hr| |exact Hc|exact Hacc].
    by eapply lookup_lt_Some. }
  apply list_elem_of_lookup in Hin as [k Hk].
  assert (row_data row = PyStr.join "," union) as Hdata.
  { unfold row_data, row. simpl. unfold pos_new_data, tokens in *.
    by rewrite Hunion. }
  split.
  - eexists _, _, _, k. split; [exact Hplain|].
    rewrite !list_lookup_fmap, Hk. simpl. rewrite Hdata.
    unfold row_count, row. simpl. by rewrite Hadd.
  - destruct (augment_dedup ladd rng _ _ _ _ _ _ _ Hd Hm Hplain)
      as (_ & _ & nl' & nm' & Hun & _).
    eexists _, nl', nm'. split; [exact Hun|].
    apply unique_elem_of. rewrite <- Hdata.
    apply list_elem_of_fmap_2, list_elem_of_lookup. eauto.
Qed.

(** C1, as the code has it. In any run [r] of [augment] on parallel
    arrays whose mutation counts are the numbers of tokens of the
    variants, let row [i] be paired with row [p]. If the two variants
    have a token in common (the same position with the same
    substitution), the candidate is rejected: [i] is in the discard list
    of the run, and the candidate's string is absent from the data
    [augment] returns, with or without deduplication. *)
Theorem augment_rejects_common_token data labels mutations runs r i p
    v1 v2 t :
  length data = length labels ->
  length mutations = length labels ->
  Forall2 (fun v m => m = Z.of_nat (length (tokens v))) data mutations ->
  Forall Np.int64 mutations ->
  (r < runs)%nat ->
  pos_after rng (length labels) (S r) !! i = Some p ->
  data !! i = Some v1 -> data !! Z.to_nat p = Some v2 ->
  t ∈ tokens v1 -> t ∈ tokens v2 ->
  (exists new_labels new_mutations new_data to_del,
     run_candidates ladd data labels mutations
       (pos_after rng (length labels) (S r))
     = Ok (new_labels, new_mutations, new_data, to_del) /\
     new_data !! i = Some (PyStr.join "," (pos_new_data v1 v2)) /\
     i ∈ to_del) /\
  forall un, exists nd nl nm,
    augment ladd rng data labels mutations runs un = Ok (nd, nl, nm) /\
    PyStr.join "," (pos_new_data v1 v2) ∉ nd.
Proof.
  intros Hd Hm Hcount Hint Hr Hp D1 D2 Ht1 Ht2.
  (* every candidate with these tokens fails the test *)
  assert (forall j k (l : L) m1 m2,
            pos_new_data j k = pos_new_data v1 v2 ->
            m1 = Z.of_nat (length (tokens j)) ->
            m2 = Z.of_nat (length (tokens k)) ->
            Np.int64 m1 -> Np.int64 m2 ->
            ~ accepted (pos_new_data j k, l, Np.add64 m1 m2)) as Hrej.
  { intros j k l m1 m2 Hjk -> -> I1 I2. apply rejected_common_token.
    - rewrite Hjk. by eapply common_token_dup.
    - rewrite length_pos_new_data. lia.
    - lia.
    - lia.
    - done.
    - done. }
  assert (forall pos i' row,
            candidate_row ladd data labels mutations pos i' = Some row ->
            row_data row = PyStr.join "," (pos_new_data v1 v2) ->
            ~ accepted row) as Hrej'.
  { intros pos i' row Hc Hdata.
    apply candidate_row_inv in Hc
      as (p' & j & k & l1 & l2 & m1 & m2 & _ & Dj & Dk & _ & _ & Mj & Mk & ->).
    unfold row_data in Hdata. simpl in Hdata.
    apply (f_equal tokens) in Hdata.
    rewrite !split_join_pos_new_data in Hdata.
    apply Hrej; [done| | | |].
    - exact (Forall2_lookup_lr _ _ _ _ _ _ Hcount Dj Mj).
    - exact (Forall2_lookup_lr _ _ _ _ _ _ Hcount Dk Mk).
    - rewrite Forall_forall in Hint. apply Hint, list_elem_of_lookup. eauto.
    - rewrite Forall_forall in Hint. apply Hint, list_elem_of_lookup. eauto. }
  split.
  - destruct (run_candidates_spec ladd data labels mutations
                (pos_after rng (length labels) (S r)))
      as (rows & Hrows & ->); [done..|apply pos_after_perm|].
    assert (i < length labels)%nat as Hi.
    { rewrite <- Hd. by eapply lookup_lt_Some. }
    destruct (Forall2_lookup_l _ _ _ i i Hrows) as (row & Hrow & Hc).
    { by apply lookup_seq. }
    cbn beta in Hc.
    assert (row_data row = PyStr.join "," (pos_new_data v1 v2)) as Hdata.
    { apply candidate_row_inv in Hc
        as (p' & j & k & ? & ? & ? & ? & Hp' & Dj & Dk & _ & _ & _ & _ & ->).
      unfold row_data. simpl. congruence. }
    eexists _, _, _, _. split; [reflexivity|]. split.
    + by rewrite list_lookup_fmap, Hrow, <- Hdata.
    + apply (to_del_rows_elem rows 0 i row Hrow). by eapply Hrej'.
  - intros un.
    destruct (augment_plain ladd rng data labels mutations runs Hd Hm)
      as (keptss & HF & Hplain).
    assert (PyStr.join "," (pos_new_data v1 v2) ∉ row_data <$> mjoin keptss)
      as Hnotin.
    { intros Hin. apply list_elem_of_fmap in Hin as (row & Hdata & Hrow).
      destruct (kept_row_inv ladd rng _ _ _ _ _ _ HF Hrow)
        as (k & i' & _ & Hacc & Hc).
      by eapply Hrej'. }
    destruct un.
    + destruct (augment_dedup ladd rng _ _ _ _ _ _ _ Hd Hm Hplain)
        as (_ & _ & nl' & nm' & Hun & _).
      eexists _, nl', nm'. split; [exact Hun|].
      by rewrite unique_elem_of.
    + eexists _, _, _. split; [exact Hplain|done].
Qed.

End AugmentCandidates.

Lemma well_formed_S1A : well_formed_sample "S1A" 1.
Proof. split; [apply NoDup_singleton|reflexivity]. Qed.

Lemma well_formed_D35T : well_formed_sample "D35T" 1.
Proof. split; [apply NoDup_singleton|reflexivity]. Qed.

Lemma disjoint_S1A_D35T : disjoint_positions "S1A" "D35T".
Proof.
  intros t1 t2 H1 H2.
  change (tokens "S1A") with ["S1A"] in H1.
  change (tokens "D35T") with ["D35T"] in H2.
  apply list_elem_of_singleton in H1 as ->.
  apply list_elem_of_singleton in H2 as ->. discriminate.
Qed.

Lemma augment_accepts_disjoint_witness :
  (length ["S1A"; "D35T"] = length [10; 20] /\
   length [1; 1] = length [10; 20] /\
   pos_after reversing 2 1 !! 0%nat = Some 1 /\
   well_formed_sample "S1A" 1 /\ well_formed_sample "D35T" 1 /\
   disjoint_positions "S1A" "D35T" /\ 1 + 1 < 2 ^ 63) /\
  let union := Np.unique (tokens "S1A" ++ tokens "D35T") in
  Np.sort (tokens "S1A" ++ tokens "D35T") = union /\
  (exists nd nl nm k,
     augment Z.add reversing ["S1A"; "D35T"] [10; 20] [1; 1] 1 false
     = Ok (nd, nl, nm) /\
     nd !! k = Some (PyStr.join "," union) /\
     nl !! k = Some (10 + 20) /\
     nm !! k = Some (1 + 1)) /\
  (exists nd nl nm,
     augment Z.add reversing ["S1A"; "D35T"] [10; 20] [1; 1] 1 true
     = Ok (nd, nl, nm) /\
     PyStr.join "," union ∈ nd).
Proof.
  split.
  { split_and!; try reflexivity.
    - apply well_formed_S1A.
    - apply well_formed_D35T.
    - apply disjoint_S1A_D35T. }
  apply (augment_accepts_disjoint Z.add reversing ["S1A"; "D35T"] [10; 20]
           [1; 1] 1 0 0 1 "S1A" "D35T" 10 20 1 1); try reflexivity.
  - lia.
  - apply well_formed_S1A.
  - apply well_formed_D35T.
  - apply disjoint_S1A_D35T.
Defined.

(** The example of the specification: the union candidate of [S1A] and
    [D35T] is accepted with count 2; its string is the sorted join. *)
Example augment_S1A_D35T :
  augment Z.add reversing ["S1A"; "D35T"] [10; 20] [1; 1] 1 false
  = Ok (["D35T,S1A"; "D35T,S1A"], [30; 30], [2; 2]).
Proof. vm_compute. reflexivity. Qed.

Lemma augment_rejects_common_token_witness :
  (length ["S1A"; "S1A,D35T"] = length [10; 20] /\
   length [1; 2] = length [10; 20] /\
   Forall2 (fun v m => m = Z.of_nat (length (tokens v)))
           ["S1A"; "S1A,D35T"] [1; 2] /\
   Forall Np.int64 [1; 2] /\
   pos_after reversing 2 1 !! 0%nat = Some 1 /\
   "S1A" ∈ tokens "S1A" /\ "S1A" ∈ tokens "S1A,D35T") /\
  (exists new_labels new_mutations new_data to_del,
     run_candidates Z.add ["S1A"; "S1A,D35T"] [10; 20] [1; 2]
       (pos_after reversing 2 1)
     = Ok (new_labels, new_mutations, new_data, to_del) /\
     new_data !! 0%nat = Some (PyStr.join "," (pos_new_data "S1A" "S1A,D35T")) /\
     0%nat ∈ to_del) /\
  forall un, exists nd nl nm,
    augment Z.add reversing ["S1A"; "S1A,D35T"] [10; 20] [1; 2] 1 un
    = Ok (nd, nl, nm) /\
    PyStr.join "," (pos_new_data "S1A" "S1A,D35T") ∉ nd.
Proof.
  assert (Forall2 (fun v m => m = Z.of_nat (length (tokens v)))
                  ["S1A"; "S1A,D35T"] [1; 2]) as Hcount.
  { repeat constructor. }
  assert (Forall Np.int64 [1; 2]) as Hint.
  { repeat constructor; unfold Np.int64; lia. }
  assert ("S1A" ∈ tokens "S1A") as Ht1.
  { change (tokens "S1A") with ["S1A"]. left. }
  assert ("S1A" ∈ tokens "S1A,D35T") as Ht2.
  { change (tokens "S1A,D35T") with ["S1A"; "D35T"]. left. }
  split.
  { split_and!; try reflexivity; done. }
  apply (augment_rejects_common_token Z.add reversing ["S1A"; "S1A,D35T"]
           [10; 20] [1; 2] 1 0 0 1 "S1A" "S1A,D35T" "S1A");
    try reflexivity; try done. lia.
Defined.

(** The example of the specification for a shared position: [S1A] and
    [S1R] name position 1 with different substitutions, and the candidate
    built from them is kept. The two tokens are distinct strings, so the
    count of distinct tokens (2) is the expected count (1 + 1): the
    discard list stays empty and both candidates are returned. *)
Lemma augment_keeps_conflicting_pair :
  conflicting "S1A" "S1R" /\
  run_candidates Z.add ["S1A"; "S1R"] [10; 20] [1; 1]
    (pos_after reversing 2 1)
  = Ok ([30; 30], [2; 2], ["S1A,S1R"; "S1A,S1R"], []) /\
  augment Z.add reversing ["S1A"; "S1R"] [10; 20] [1; 1] 1 false
  = Ok (["S1A,S1R"; "S1A,S1R"], [30; 30], [2; 2]) /\
  augment Z.add reversing ["S1A"; "S1R"] [10; 20] [1; 1] 1 true
  = Ok (["S1A,S1R"], [30], [2]).
Proof.
  split_and!.
  - exists "S1A", "S1R". split_and!.
    + change (tokens "S1A") with ["S1A"]. left.
    + change (tokens "S1R") with ["S1R"]. left.
    + reflexivity.
    + discriminate.
  - vm_compute. reflexivity.
  - vm_compute. reflexivity.
  - vm_compute. reflexivity.
Qed.

(** ** The batch generator: construction and epoch order *)

Lemma broadcastable_rev_refl (s : list nat) : broadcastable_rev s s = true.
Proof.
  induction s as [|d s IH]; simpl; [done|].
  by rewrite Nat.eqb_refl, IH.
Qed.

Lemma broadcastable_refl (s : list nat) : broadcastable s s = true.
Proof. apply broadcastable_rev_refl. Qed.

Section GeneratorFacts.
Context {L V CoTable CoRows tensor : Type}.
Variable model_interactions :
  string -> Gen.encoding V CoTable CoRows -> result tensor.
Variable tshape : tensor -> list nat.
Variable broadcast_to : list nat -> tensor -> tensor.
Variable label_float : L -> spec_float.
Variable rng : shuffler.

Local Abbreviation generator := (Gen.t L V CoTable CoRows).
Local Abbreviation getitem :=
  (Gen.getitem model_interactions tshape broadcast_to label_float).

(** [__getitem__] never reads [idx]: what [on_epoch_end] computes has no
    effect on the windows or on the batch. *)
Lemma getitem_ignores_epoch_order (self : generator) (c : nat) (i : Z) :
  Gen.features_batch (Gen.on_epoch_end rng c self) i
  = Gen.features_batch self i /\
  Gen.label_batch (Gen.on_epoch_end rng c self) i = Gen.label_batch self i /\
  getitem (Gen.on_epoch_end rng c self) i = getitem self i.
Proof. by destruct self. Qed.

(** C3, as the code has it. Construction validates nothing: for every
    [dim] and [n_channels] it returns a generator that stores them as
    given. A tensor whose shape cannot be stored in a slot of shape
    [dim + (n_channels,)] is only noticed when a batch is assembled: the
    first batch access with a sample in its window raises [ValueError]. *)
Theorem init_does_not_validate features labels e dim n_channels batch_size
    shuffle train :
  (exists self,
     Gen.init features labels e dim n_channels batch_size shuffle train
     = Ok self /\
     Gen.dim self = dim /\ Gen.n_channels self = n_channels /\
     Gen.enc self = e) /\
  forall self i v vs l ls m,
    Gen.init features labels e dim n_channels batch_size shuffle train
    = Ok self ->
    Gen.features_batch self i = v :: vs ->
    Gen.label_batch self i = l :: ls ->
    model_interactions v e = Ok m ->
    broadcastable (tshape m) [dim.1; dim.2; n_channels] = false ->
    getitem self i = Raise ValueError.
Proof.
  split; [by eexists|].
  intros self i v vs l ls m [= <-] Hv Hl Hm Hb.
  unfold Gen.getitem, Gen.batch_variants. rewrite Hv, Hl.
  cbn [Np.enumerate_from foldlM Gen.batch_step mbind result_bind Gen.enc].
  rewrite Hm. cbn [mbind result_bind]. unfold Gen.set_slot.
  cbn [Gen.dim Gen.n_channels length replicate Nat.ltb Nat.leb].
  rewrite decide_False.
  - by rewrite Hb.
  - intros Heq. rewrite Heq, broadcastable_refl in Hb. discriminate.
Qed.

End GeneratorFacts.

(** The contact mask of the examples is 2 by 2 and the configuration has
    6 channels; construction with [dim = (3, 3)] and 5 channels succeeds
    all the same, and the mismatch only shows at the first batch. *)
Lemma init_accepts_mismatch :
  Mat.shape (Gen.interaction_matrix demo_encoding) = (2, 2)%nat /\
  Gen.channel_num demo_encoding = 6%nat /\
  demo_init (3, 3)%nat 5 2 = Ok (demo_generator (3, 3)%nat 5 2) /\
  Gen.getitem (constant_model [2; 2; 6]%nat) id (fun _ t => t)
              (fun z => B64.of_Z z) (demo_generator (3, 3)%nat 5 2) 0
  = Raise ValueError.
Proof. split_and!; reflexivity. Qed.

Lemma init_does_not_validate_witness :
  (demo_init (3, 3)%nat 5 2 = Ok (demo_generator (3, 3)%nat 5 2) /\
   Gen.features_batch (demo_generator (3, 3)%nat 5 2) 0 = ["S1A"; "D35T"] /\
   Gen.label_batch (demo_generator (3, 3)%nat 5 2) 0 = [10; 20] /\
   constant_model [2; 2; 6]%nat "S1A" demo_encoding = Ok [2; 2; 6]%nat /\
   broadcastable [2; 2; 6]%nat [3; 3; 5]%nat = false) /\
  Gen.getitem (constant_model [2; 2; 6]%nat) id (fun _ t => t)
              (fun z => B64.of_Z z) (demo_generator (3, 3)%nat 5 2) 0
  = Raise ValueError.
Proof.
  split; [split_and!; reflexivity|].
  apply (proj2 (init_does_not_validate (constant_model [2; 2; 6]%nat) id
                  (fun _ t => t) (fun z => B64.of_Z z)
                  ["S1A"; "D35T"; "V2A"] [10; 20; 30] demo_encoding
                  (3, 3)%nat 5%nat 2 true true)
         (demo_generator (3, 3)%nat 5 2) 0 "S1A" ["D35T"] 10 [20]
         [2; 2; 6]%nat); reflexivity.
Defined.

(** C2 at a concrete input. After [on_epoch_end] has shuffled, [idx] is
    [[2; 1; 0]] and the dataset in epoch order starts with [V2A], so the
    first window of the epoch order is [V2A]; batch 0 of size 1 is still
    cut from the original order and holds [S1A] with its label. *)
Lemma getitem_after_shuffle_original_order :
  let self := Gen.on_epoch_end reversing 0 (demo_generator (2, 2)%nat 6 1) in
  Gen.shuffle self = true /\
  Gen.idx self = Some [2; 1; 0] /\
  Gen.epoch_order self = Ok ["V2A"; "D35T"; "S1A"] /\
  (order ← Gen.epoch_order self;
   Ok (py_slice order (0 * Gen.batch_size self) ((0 + 1) * Gen.batch_size self)))
  = Ok ["V2A"] /\
  Gen.features_batch self 0 = ["S1A"] /\
  Gen.label_batch self 0 = [10] /\
  Gen.getitem (constant_model [2; 2; 6]%nat) id (fun _ t => t)
              (fun z => B64.of_Z z) self 0
  = Ok ([Some [2; 2; 6]%nat], Some [Some (B64.of_Z 10)]).
Proof. split_and!; reflexivity. Qed.

(** ** The batch generator: number and size of the batches *)

Section LenFacts.
Context {L V CoTable CoRows : Type}.

Local Abbreviation generator := (Gen.t L V CoTable CoRows).

(** C5. For a dataset of [N] samples and a batch size [bs > 0], both
    below [2^53] (where float64 holds every integer), [__len__] returns
    [ceil(N / bs)], the integer [c] with [(c - 1) * bs < N <= c * bs].
    When [N] is not a multiple of [bs], the window of the last batch,
    [c - 1], holds the remaining [N mod bs] samples: the features from
    [N - N mod bs] on, and as many labels when the two arrays have the
    same length. *)
Theorem len_is_ceil_last_batch_is_remainder (self : generator) :
  let N := Z.of_nat (length (Gen.features self)) in
  let bs := Gen.batch_size self in
  0 < bs < 2 ^ 53 -> N < 2 ^ 53 ->
  exists c,
    Gen.len self = Ok c /\
    c = ceil_div N bs /\ (c - 1) * bs < N <= c * bs /\
    (N mod bs <> 0 ->
       Gen.features_batch self (c - 1)
       = drop (Z.to_nat (N - N mod bs)) (Gen.features self) /\
       Z.of_nat (length (Gen.features_batch self (c - 1))) = N mod bs /\
       (length (Gen.labels self) = length (Gen.features self) ->
        Z.of_nat (length (Gen.label_batch self (c - 1))) = N mod bs)).
Proof.
  intros N bs Hbs HN. exists (ceil_div N bs).
  assert (0 <= N) as HN0 by (unfold N; lia).
  split; [apply ceil_truediv; lia|]. split; [done|].
  pose proof (proj1 (ceil_div_spec N bs _ ltac:(lia)) eq_refl) as Hc.
  split; [done|]. intros Hrem.
  pose proof (Z.div_mod N bs ltac:(lia)) as Hdm.
  pose proof (Z.mod_pos_bound N bs ltac:(lia)) as Hr.
  set (c := ceil_div N bs) in *.
  assert (c - 1 = N / bs) as Hq by nia.
  assert ((c - 1) * bs = N - N mod bs) as Hlo by lia.
  assert (N <= (c - 1 + 1) * bs) as Hhi by lia.
  unfold Gen.features_batch, Gen.label_batch. fold bs. rewrite Hlo.
  pose proof (Z.mod_le N bs HN0 ltac:(lia)) as Hle.
  rewrite py_slice_tail by (fold N; lia).
  split; [done|]. split.
  - rewrite length_drop. fold N. lia.
  - intros Hlen. rewrite py_slice_tail by (rewrite Hlen; fold N; lia).
    rewrite length_drop, Hlen. fold N. lia.
Qed.

End LenFacts.

(** The example of the specification: 105 samples in batches of 32 are 4
    batches, the last of 9 samples. *)
Example len_105_32 :
  Gen.len (sized_generator 105 32) = Ok 4 /\
  length <$> (Gen.features_batch (sized_generator 105 32) <$> [0; 1; 2; 3])
  = [32; 32; 32; 9]%nat /\
  length (Gen.label_batch (sized_generator 105 32) 3) = 9%nat /\
  Gen.features_batch (sized_generator 105 32) 4 = [].
Proof. split_and!; by vm_compute. Qed.

(** A multiple of the batch size fills every batch. *)
Example len_96_32 :
  Gen.len (sized_generator 96 32) = Ok 3 /\
  length (Gen.features_batch (sized_generator 96 32) 2) = 32%nat.
Proof. split_and!; by vm_compute. Qed.

Lemma len_is_ceil_last_batch_is_remainder_witness :
  (0 < 32 < 2 ^ 53 /\
   Z.of_nat (length (Gen.features (sized_generator 105 32))) < 2 ^ 53) /\
  exists c,
    Gen.len (sized_generator 105 32) = Ok c /\
    c = ceil_div 105 32 /\ (c - 1) * 32 < 105 <= c * 32 /\
    (105 mod 32 <> 0 ->
       Gen.features_batch (sized_generator 105 32) (c - 1)
       = drop (Z.to_nat (105 - 105 mod 32))
              (Gen.features (sized_generator 105 32)) /\
       Z.of_nat (length (Gen.features_batch (sized_generator 105 32) (c - 1)))
       = 105 mod 32 /\
       (length (Gen.labels (sized_generator 105 32))
        = length (Gen.features (sized_generator 105 32)) ->
        Z.of_nat (length (Gen.label_batch (sized_generator 105 32) (c - 1)))
        = 105 mod 32)).
Proof.
  split; [split; [lia|by vm_compute]|].
  apply (len_is_ceil_last_batch_is_remainder (sized_generator 105 32));
    [simpl; lia|by vm_compute].
Defined.

(** ** The wild-type encoder: table lookups *)

Section EncoderFacts.
Context {V CoTable CoRows : Type}.
Variable vlt : V -> V -> bool.
Variable vsub : V -> V -> V.
Variable vabs : V -> V.
Variable vdouble : V -> V.
Variables hydrophobicity h_bonding charge sasa side_chain_length aa_dict_pos
  : Dict.t V.
Variable alignment_table : string -> option string -> result (CoTable * CoRows).

Local Abbreviation data_generator_vals :=
  (WildType.data_generator_vals vlt vsub vabs vdouble hydrophobicity
     h_bonding charge sasa side_chain_length aa_dict_pos alignment_table).

Lemma py_max_ok (l : list V) : l <> [] -> is_ok (WildType.py_max vlt l).
Proof. by destruct l. Qed.

Lemma py_min_ok (l : list V) : l <> [] -> is_ok (WildType.py_min vlt l).
Proof. by destruct l. Qed.

Lemma values_nonempty (d : Dict.t V) : d <> [] -> Dict.values d <> [].
Proof. by destruct d. Qed.

Lemma convert_lookup (table : Dict.t V) (wt_seq : string) (i : nat) (c : string) :
  chars wt_seq !! i = Some c ->
  WildType.convert table wt_seq !! i = Some (Dict.get table c).
Proof.
  intros Hc. unfold WildType.convert. by rewrite list_lookup_fmap, Hc.
Qed.

(** What [data_generator_vals] returns for the converted sequences, when
    it returns. *)
Lemma data_generator_vals_converted wt_seq path base r :
  data_generator_vals wt_seq path base = Ok r ->
  WildType.hm_converted r = WildType.convert h_bonding wt_seq /\
  WildType.hp_converted r = WildType.convert hydrophobicity wt_seq /\
  WildType.cm_converted r = WildType.convert charge wt_seq /\
  WildType.ia_converted r = WildType.convert sasa wt_seq /\
  WildType.cl_converted r = WildType.convert side_chain_length wt_seq /\
  build_mat_index (String.length wt_seq) = Ok (WildType.mat_index r).
Proof.
  unfold WildType.data_generator_vals. intros H.
  destruct (WildType.py_max vlt (Dict.values hydrophobicity)); [|done].
  destruct (WildType.py_min vlt (Dict.values hydrophobicity)); [|done].
  destruct (WildType.py_max vlt (Dict.values sasa)); [|done].
  destruct (WildType.py_max vlt (Dict.values side_chain_length)); [|done].
  cbn [mbind result_bind] in H.
  destruct path as [path|].
  - destruct (alignment_table path base) as [[t rows]|]; [|done].
    cbn [mbind result_bind] in H.
    destruct (build_mat_index (String.length wt_seq)); [|done].
    by injection H as <-.
  - cbn [mbind result_bind] in H.
    destruct (build_mat_index (String.length wt_seq)); [|done].
    by injection H as <-.
Qed.

(** The encoder returns as soon as the three tables it takes a maximum
    of are not empty, the alignment (if any) loads, and the index matrix
    can be allocated. *)
Lemma data_generator_vals_returns wt_seq path base :
  hydrophobicity <> [] -> sasa <> [] -> side_chain_length <> [] ->
  (forall p, path = Some p -> is_ok (alignment_table p base)) ->
  Z.of_nat (String.length wt_seq) * Z.of_nat (String.length wt_seq) < 2 ^ 63 ->
  is_ok (data_generator_vals wt_seq path base).
Proof.
  intros Hh Hs Hl Ha Hn. unfold WildType.data_generator_vals.
  pose proof (py_max_ok _ (values_nonempty _ Hh)) as H1.
  pose proof (py_min_ok _ (values_nonempty _ Hh)) as H2.
  pose proof (py_max_ok _ (values_nonempty _ Hs)) as H3.
  pose proof (py_max_ok _ (values_nonempty _ Hl)) as H4.
  destruct (WildType.py_max vlt (Dict.values hydrophobicity)); [|done].
  destruct (WildType.py_min vlt (Dict.values hydrophobicity)); [|done].
  destruct (WildType.py_max vlt (Dict.values sasa)); [|done].
  destruct (WildType.py_max vlt (Dict.values side_chain_length)); [|done].
  cbn [mbind result_bind].
  assert (is_ok (build_mat_index (String.length wt_seq))) as Hm.
  { unfold build_mat_index.
    destruct (Z.leb_spec (2 ^ 63)
                (Z.of_nat (String.length wt_seq)
                 * Z.of_nat (String.length wt_seq))); [lia|done]. }
  destruct path as [p|].
  - specialize (Ha p eq_refl).
    destruct (alignment_table p base) as [[t rows]|]; [|done].
    cbn [mbind result_bind].
    by destruct (build_mat_index (String.length wt_seq)).
  - cbn [mbind result_bind].
    by destruct (build_mat_index (String.length wt_seq)).
Qed.

(** C4, as the code has it. A residue letter that a property table does
    not know makes no lookup fail: whenever the encoder has what it needs
    to return (non-empty tables for the three maxima, a loadable
    alignment, an index matrix that fits), it returns, and each converted
    sequence holds [None] at every position whose letter is missing from
    its table. *)
Theorem unrecognized_residue_is_None wt_seq path base :
  hydrophobicity <> [] -> sasa <> [] -> side_chain_length <> [] ->
  (forall p, path = Some p -> is_ok (alignment_table p base)) ->
  Z.of_nat (String.length wt_seq) * Z.of_nat (String.length wt_seq) < 2 ^ 63 ->
  exists r,
    data_generator_vals wt_seq path base = Ok r /\
    forall i c, chars wt_seq !! i = Some c ->
      (Dict.get h_bonding c = None -> WildType.hm_converted r !! i = Some None) /\
      (Dict.get hydrophobicity c = None ->
       WildType.hp_converted r !! i = Some None) /\
      (Dict.get charge c = None -> WildType.cm_converted r !! i = Some None) /\
      (Dict.get sasa c = None -> WildType.ia_converted r !! i = Some None) /\
      (Dict.get side_chain_length c = None ->
       WildType.cl_converted r !! i = Some None).
Proof.
  intros Hh Hs Hl Ha Hn.
  pose proof (data_generator_vals_returns wt_seq path base Hh Hs Hl Ha Hn)
    as Hok.
  destruct (data_generator_vals wt_seq path base) as [r|] eqn:Hr; [|done].
  exists r. split; [done|]. intros i c Hc.
  destruct (data_generator_vals_converted _ _ _ _ Hr)
    as (-> & -> & -> & -> & -> & _).
  split_and!; intros <-; by apply convert_lookup.
Qed.

End EncoderFacts.

(** On [AXLI] the letter [X] is in no table; the encoder returns and the
    second entry of every converted sequence is [None]. *)
Lemma unknown_residue_not_raised :
  Dict.get demo_table "X" = None /\
  exists r,
    demo_vals "AXLI" = Ok r /\
    WildType.hm_converted r = [Some 1; None; Some 3; Some 4] /\
    WildType.hp_converted r = [Some 1; None; Some 3; Some 4] /\
    WildType.cm_converted r = [Some 1; None; Some 3; Some 4] /\
    WildType.ia_converted r = [Some 1; None; Some 3; Some 4] /\
    WildType.cl_converted r = [Some 1; None; Some 3; Some 4].
Proof.
  split; [reflexivity|].
  destruct (demo_vals "AXLI") as [r|] eqn:Hr; [|by vm_compute in Hr].
  exists r. split; [done|]. unfold demo_vals in Hr.
  by destruct (data_generator_vals_converted _ _ _ _ _ _ _ _ _ _ _ _ _ _ _ Hr)
    as (-> & -> & -> & -> & -> & _).
Qed.

Lemma unrecognized_residue_is_None_witness :
  (demo_table <> [] /\
   (forall p, @None string = Some p -> is_ok (no_alignment p None)) /\
   Z.of_nat (String.length "AXLI") * Z.of_nat (String.length "AXLI") < 2 ^ 63)
  /\
  exists r,
    demo_vals "AXLI" = Ok r /\
    forall i c, chars "AXLI" !! i = Some c ->
      (Dict.get demo_table c = None -> WildType.hm_converted r !! i = Some None) /\
      (Dict.get demo_table c = None -> WildType.hp_converted r !! i = Some None) /\
      (Dict.get demo_table c = None -> WildType.cm_converted r !! i = Some None) /\
      (Dict.get demo_table c = None -> WildType.ia_converted r !! i = Some None) /\
      (Dict.get demo_table c = None -> WildType.cl_converted r !! i = Some None).
Proof.
  split; [split_and!; [done|done|by vm_compute]|].
  apply (unrecognized_residue_is_None Z.ltb Z.sub Z.abs (Z.mul 2)
           demo_table demo_table demo_table demo_table demo_table demo_table
           no_alignment "AXLI" None None); done.
Defined.

(** ** The index matrix *)

Lemma length_tabulate {A} (r c : nat) (f : nat -> nat -> A) :
  length (Mat.tabulate r c f) = r.
Proof. unfold Mat.tabulate. by rewrite length_fmap, length_seq. Qed.

Lemma square_tabulate {A} (n : nat) (f : nat -> nat -> A) :
  square n (Mat.tabulate n n f).
Proof.
  split; [apply length_tabulate|]. unfold Mat.tabulate.
  apply Forall_fmap, Forall_forall. intros i _. simpl.
  by rewrite length_fmap, length_seq.
Qed.

Lemma entry_tabulate {A} (d : A) (r c : nat) (f : nat -> nat -> A) (i j : nat) :
  (i < r)%nat -> (j < c)%nat -> Mat.entry d (Mat.tabulate r c f) i j = f i j.
Proof.
  intros Hi Hj. unfold Mat.entry, Mat.tabulate.
  rewrite list_lookup_fmap, lookup_seq_lt by done. simpl.
  by rewrite list_lookup_fmap, lookup_seq_lt.
Qed.

Lemma square_lookup {A} (n : nat) (M : list (list A)) (i j : nat) :
  square n M -> (i < n)%nat -> (j < n)%nat ->
  exists row x, M !! i = Some row /\ row !! j = Some x /\ length row = n.
Proof.
  intros [Hlen Hrows] Hi Hj.
  destruct (lookup_lt_is_Some_2 M i) as [row Hrow]; [lia|].
  assert (length row = n) as Hr.
  { rewrite Forall_forall in Hrows. apply Hrows, list_elem_of_lookup. eauto. }
  destruct (lookup_lt_is_Some_2 row j) as [x Hx]; [lia|]. eauto.
Qed.

Lemma square_true_divide (n : nat) (M : list (list Z)) (s : Z) :
  square n M -> square n (Mat.true_divide M s).
Proof.
  intros [Hlen Hrows]. unfold Mat.true_divide. split.
  - by rewrite length_fmap.
  - apply Forall_fmap. eapply Forall_impl; [exact Hrows|]. simpl.
    intros row Hrow. by rewrite length_fmap.
Qed.

Lemma entry_true_divide (n : nat) (M : list (list Z)) (s : Z) (i j : nat) :
  square n M -> (i < n)%nat -> (j < n)%nat ->
  Mat.entry B64.zero (Mat.true_divide M s) i j
  = B64.div (B64.of_Z (Mat.entry 0 M i j)) (B64.of_Z s).
Proof.
  intros HM Hi Hj.
  destruct (square_lookup n M i j HM Hi Hj) as (row & x & Hrow & Hx & _).
  unfold Mat.entry, Mat.true_divide.
  rewrite list_lookup_fmap, Hrow. simpl.
  by rewrite list_lookup_fmap, Hx.
Qed.

Lemma square_zip_with2 (n : nat) f (M N : list (list spec_float)) :
  square n M -> square n N -> square n (Mat.zip_with2 f M N).
Proof.
  intros [LM RM] [LN RN]. unfold Mat.zip_with2. split.
  - rewrite length_zip_with. lia.
  - apply Forall_forall. intros row Hrow.
    apply list_elem_of_lookup in Hrow as [i Hi].
    apply lookup_zip_with_Some in Hi as (a & b & -> & Ha & Hb).
    rewrite Forall_forall in RM, RN.
    rewrite length_zip_with, (RM a), (RN b); [lia| |];
      apply list_elem_of_lookup; eauto.
Qed.

Lemma entry_zip_with2 (n : nat) f (M N : list (list spec_float)) (i j : nat) :
  square n M -> square n N -> (i < n)%nat -> (j < n)%nat ->
  Mat.entry B64.zero (Mat.zip_with2 f M N) i j
  = f (Mat.entry B64.zero M i j) (Mat.entry B64.zero N i j).
Proof.
  intros HM HN Hi Hj.
  destruct (square_lookup n M i j HM Hi Hj) as (a & x & Ha & Hx & _).
  destruct (square_lookup n N i j HN Hi Hj) as (b & y & Hb & Hy & _).
  unfold Mat.entry, Mat.zip_with2.
  rewrite lookup_zip_with, Ha, Hb. simpl.
  by rewrite lookup_zip_with, Hx, Hy.
Qed.

Lemma square_fill_diagonal (n : nat) (v : spec_float) M :
  square n M -> square n (Mat.fill_diagonal v M).
Proof.
  intros [LM RM]. unfold Mat.fill_diagonal. split.
  - by rewrite length_imap.
  - apply Forall_forall. intros row Hrow.
    apply list_elem_of_lookup in Hrow as [i Hi].
    rewrite list_lookup_imap in Hi.
    destruct (M !! i) as [a|] eqn:Ha; [|done]. injection Hi as <-.
    rewrite length_insert. rewrite Forall_forall in RM.
    apply RM, list_elem_of_lookup. eauto.
Qed.

Lemma entry_fill_diagonal (n : nat) (v : spec_float) M (i j : nat) :
  square n M -> (i < n)%nat -> (j < n)%nat ->
  Mat.entry B64.zero (Mat.fill_diagonal v M) i j
  = if (i =? j)%nat then v else Mat.entry B64.zero M i j.
Proof.
  intros HM Hi Hj.
  destruct (square_lookup n M i j HM Hi Hj) as (a & x & Ha & Hx & La).
  unfold Mat.entry, Mat.fill_diagonal.
  rewrite list_lookup_imap, Ha. simpl.
  destruct (Nat.eqb_spec i j) as [->|Hne].
  - by rewrite list_lookup_insert_eq by lia.
  - by rewrite list_lookup_insert_ne, Hx.
Qed.

(** The index matrix, entry by entry. *)
Lemma build_mat_index_entries (n : nat) :
  Z.of_nat n * Z.of_nat n < 2 ^ 63 ->
  exists M, build_mat_index n = Ok M /\ square n M /\
    forall i j, (i < n)%nat -> (j < n)%nat ->
      Mat.entry B64.zero M i j = index_entry n i j.
Proof.
  intros Hn. unfold build_mat_index.
  destruct (Z.leb_spec (2 ^ 63) (Z.of_nat n * Z.of_nat n)) as [?|_]; [lia|].
  eexists. split; [reflexivity|].
  set (pre0 := Mat.true_divide _ _).
  assert (square n pre0) as S0.
  { apply square_true_divide, square_tabulate. }
  assert (forall i j, (i < n)%nat -> (j < n)%nat ->
            Mat.entry B64.zero pre0 i j = index_quotient n i j) as E0.
  { intros i j Hi Hj. unfold pre0.
    rewrite (entry_true_divide n) by (done || apply square_tabulate).
    unfold Mat.reshape. rewrite entry_tabulate by done.
    rewrite lookup_arange by nia. done. }
  set (U := Mat.triu n pre0).
  assert (square n U) as SU by apply square_tabulate.
  assert (forall i j, (i < n)%nat -> (j < n)%nat ->
            Mat.entry B64.zero U i j = index_upper n i j) as EU.
  { intros i j Hi Hj. unfold U, Mat.triu, index_upper.
    rewrite entry_tabulate by done. destruct (j <? i)%nat; [done|].
    by apply E0. }
  set (T := Mat.transpose n U).
  assert (square n T) as ST by apply square_tabulate.
  set (D := Mat.diag_diag n U).
  assert (square n D) as SD by apply square_tabulate.
  split.
  - by apply square_fill_diagonal, square_zip_with2;
      [apply square_zip_with2|].
  - intros i j Hi Hj.
    rewrite (entry_fill_diagonal n)
      by (done || by apply square_zip_with2; [apply square_zip_with2|]).
    unfold index_entry. destruct (i =? j)%nat eqn:Hij; [done|].
    rewrite (entry_zip_with2 n)
      by (done || by apply square_zip_with2).
    rewrite (entry_zip_with2 n) by done.
    unfold T, D, Mat.transpose, Mat.diag_diag.
    rewrite !entry_tabulate by done. rewrite Hij.
    by rewrite !EU.
Qed.

Lemma index_quotient_not_nan (n i j : nat) :
  Z.of_nat n * Z.of_nat n < 2 ^ 63 ->
  (i < j)%nat -> (j < n)%nat ->
  is_nan (index_quotient n i j) = false.
Proof.
  intros Hn Hij Hj. unfold index_quotient.
  destruct (of_Z_finite (Z.of_nat (i * n + j))) as (m1 & e1 & ->); [nia|].
  destruct (of_Z_finite (Z.of_nat n * Z.of_nat n - 1)) as (m2 & e2 & ->);
    [nia|].
  apply div_finite_not_nan.
Qed.

(** The index matrix is symmetric, bit for bit and for [==], and zero on
    its diagonal. *)
Lemma index_entry_symmetric (n i j : nat) :
  Z.of_nat n * Z.of_nat n < 2 ^ 63 ->
  (i < n)%nat -> (j < n)%nat ->
  index_entry n i j = index_entry n j i /\
  B64.eqb (index_entry n i j) (index_entry n j i) = true /\
  index_entry n i i = B64.zero.
Proof.
  intros Hn Hi Hj.
  assert (index_entry n i i = B64.zero) as Hdiag.
  { unfold index_entry. by rewrite Nat.eqb_refl. }
  assert (forall a b, (a < b)%nat -> (b < n)%nat ->
            index_entry n a b
            = B64.sub (B64.add (index_quotient n a b) B64.zero) B64.zero /\
            index_entry n b a
            = B64.sub (B64.add (index_quotient n a b) B64.zero) B64.zero)
    as Hoff.
  { intros a b Hab Hb. unfold index_entry, index_upper.
    destruct (Nat.eqb_spec a b) as [?|_]; [lia|].
    destruct (Nat.eqb_spec b a) as [?|_]; [lia|].
    destruct (Nat.ltb_spec b a) as [?|_]; [lia|].
    destruct (Nat.ltb_spec a b) as [_|?]; [|lia].
    split; [done|]. by rewrite add_zero_comm. }
  assert (forall a b, (a < b)%nat -> (b < n)%nat ->
            is_nan (index_entry n a b) = false) as Hnan.
  { intros a b Hab Hb. destruct (Hoff a b Hab Hb) as [-> _].
    by apply sub_zero_not_nan, add_zero_not_nan, index_quotient_not_nan. }
  split_and!; [| |done].
  - destruct (Nat.lt_trichotomy i j) as [Hlt|[->|Hgt]]; [|done|].
    + destruct (Hoff i j Hlt Hj) as [-> ->]. done.
    + destruct (Hoff j i Hgt Hi) as [-> ->]. done.
  - destruct (Nat.lt_trichotomy i j) as [Hlt|[->|Hgt]].
    + destruct (Hoff i j Hlt Hj) as [E1 E2]. rewrite E2, <- E1.
      by apply eqb_refl, Hnan.
    + by rewrite Hdiag.
    + destruct (Hoff j i Hgt Hi) as [E1 E2]. rewrite E2, <- E1.
      by apply eqb_refl, Hnan.
Qed.

Lemma build_mat_index_size (n : nat) (M : list (list spec_float)) :
  build_mat_index n = Ok M -> Z.of_nat n * Z.of_nat n < 2 ^ 63.
Proof.
  unfold build_mat_index.
  by destruct (Z.leb_spec (2 ^ 63) (Z.of_nat n * Z.of_nat n)).
Qed.

Section IndexMatrix.
Context {V CoTable CoRows : Type}.
Variable vlt : V -> V -> bool.
Variable vsub : V -> V -> V.
Variable vabs : V -> V.
Variable vdouble : V -> V.
Variables hydrophobicity h_bonding charge sasa side_chain_length aa_dict_pos
  : Dict.t V.
Variable alignment_table : string -> option string -> result (CoTable * CoRows).

Local Abbreviation data_generator_vals :=
  (WildType.data_generator_vals vlt vsub vabs vdouble hydrophobicity
     h_bonding charge sasa side_chain_length aa_dict_pos alignment_table).

(** C8. For a wild-type sequence of length [n >= 1], the index matrix
    [mat_index] that [data_generator_vals] returns has [n] rows of [n]
    entries, is symmetric ([mat_index[i][j] == mat_index[j][i]], the two
    entries being the same float), and has [+0.0] at every diagonal
    entry. *)
Theorem mat_index_symmetric_zero_diagonal wt_seq path base r :
  data_generator_vals wt_seq path base = Ok r ->
  (1 <= String.length wt_seq)%nat ->
  let n := String.length wt_seq in
  let M := WildType.mat_index r in
  length M = n /\ Forall (fun row => length row = n) M /\
  forall i j, (i < n)%nat -> (j < n)%nat ->
    Mat.entry B64.zero M i j = Mat.entry B64.zero M j i /\
    B64.eqb (Mat.entry B64.zero M i j) (Mat.entry B64.zero M j i) = true /\
    Mat.entry B64.zero M i i = B64.zero.
Proof.
  intros Hr _ n M.
  destruct (data_generator_vals_converted _ _ _ _ _ _ _ _ _ _ _ _ _ _ _ Hr)
    as (_ & _ & _ & _ & _ & HM).
  pose proof (build_mat_index_size _ _ HM) as Hn.
  destruct (build_mat_index_entries _ Hn) as (M' & HM' & [SM1 SM2] & HE).
  rewrite HM in HM'. injection HM' as <-. subst M n.
  split; [done|]. split; [done|]. intros i j Hi Hj.
  rewrite !HE by done. by apply index_entry_symmetric.
Qed.

End IndexMatrix.

(** The example of the specification, [n = 3]: the matrix as computed. *)
Example mat_index_3 :
  exists M, build_mat_index 3 = Ok M /\
    Mat.entry B64.zero M 0 0 = B64.zero /\
    Mat.entry B64.zero M 1 1 = B64.zero /\
    Mat.entry B64.zero M 2 2 = B64.zero /\
    Mat.entry B64.zero M 0 1 = B64.div (B64.of_Z 1) (B64.of_Z 8) /\
    Mat.entry B64.zero M 1 0 = B64.div (B64.of_Z 1) (B64.of_Z 8) /\
    Mat.entry B64.zero M 0 2 = B64.div (B64.of_Z 2) (B64.of_Z 8) /\
    Mat.entry B64.zero M 2 0 = B64.div (B64.of_Z 2) (B64.of_Z 8) /\
    Mat.entry B64.zero M 1 2 = B64.div (B64.of_Z 5) (B64.of_Z 8) /\
    Mat.entry B64.zero M 2 1 = B64.div (B64.of_Z 5) (B64.of_Z 8) /\
    B64.div (B64.of_Z 5) (B64.of_Z 8)
    = S754_finite false 5629499534213120 (- 53).
Proof. eexists. split; [reflexivity|]. by vm_compute. Qed.

(** A sequence of one letter: the division by [n * n - 1 = 0] gives NaN,
    which the final [fill_diagonal] overwrites. *)
Example mat_index_1 : build_mat_index 1 = Ok [[B64.zero]].
Proof. reflexivity. Qed.

Lemma mat_index_symmetric_zero_diagonal_witness :
  (1 <= String.length "AVLI")%nat /\
  exists r, demo_vals "AVLI" = Ok r /\
    let n := String.length "AVLI" in
    let M := WildType.mat_index r in
    length M = n /\ Forall (fun row => length row = n) M /\
    forall i j, (i < n)%nat -> (j < n)%nat ->
      Mat.entry B64.zero M i j = Mat.entry B64.zero M j i /\
      B64.eqb (Mat.entry B64.zero M i j) (Mat.entry B64.zero M j i) = true /\
      Mat.entry B64.zero M i i = B64.zero.
Proof.
  split; [simpl; lia|].
  destruct (demo_vals "AVLI") as [r|] eqn:Hr; [|by vm_compute in Hr].
  exists r. split; [done|]. unfold demo_vals in Hr.
  apply (mat_index_symmetric_zero_diagonal Z.ltb Z.sub Z.abs (Z.mul 2)
           demo_table demo_table demo_table demo_table demo_table demo_table
           no_alignment "AVLI" None None r Hr). simpl. lia.
Defined.

(** ** The batch generator: windows and batches *)

(** A window with non-negative bounds is a [take] of a [drop]. *)
Lemma py_slice_window {A} (l : list A) (a b : Z) :
  0 <= a <= b ->
  py_slice l a b = take (Z.to_nat (b - a)) (drop (Z.to_nat a) l).
Proof.
  intros Hab. unfold py_slice.
  destruct (Z.ltb_spec a 0); [lia|]. destruct (Z.ltb_spec b 0); [lia|].
  set (n := Z.of_nat (length l)).
  destruct (Z.le_gt_cases a n) as [Han|Han].
  - replace (Z.max 0 (Z.min n a)) with a by lia.
    destruct (Z.le_gt_cases b n) as [Hbn|Hbn].
    + by replace (Z.max 0 (Z.min n b)) with b by lia.
    + replace (Z.max 0 (Z.min n b)) with n by lia.
      rewrite !take_ge; [done| |]; rewrite length_drop; unfold n in *; lia.
  - replace (Z.max 0 (Z.min n a)) with n by lia.
    rewrite (drop_ge l (Z.to_nat n)) by (unfold n; lia).
    rewrite (drop_ge l (Z.to_nat a)) by (unfold n in *; lia).
    by rewrite !take_nil.
Qed.

(** A window that stops at 0 or starts at the end is empty. *)
Lemma py_slice_empty {A} (l : list A) (a b : Z) :
  b = 0 \/ Z.of_nat (length l) <= a -> py_slice l a b = [].
Proof.
  intros H. unfold py_slice. set (n := Z.of_nat (length l)).
  assert (0 <= n) by (unfold n; lia).
  destruct H as [->|Ha].
  - change (0 <? 0) with false. cbv iota.
    replace (Z.max 0 (Z.min n 0)) with 0 by lia.
    replace (Z.to_nat (0 - _)) with 0%nat; [done|].
    destruct (a <? 0); lia.
  - destruct (Z.ltb_spec a 0); [lia|].
    replace (Z.max 0 (Z.min n a)) with n by lia.
    rewrite drop_ge by (unfold n; lia). by rewrite take_nil.
Qed.

(** Consecutive chunks of [bs] elements, enough of them to reach the
    end, are the list. *)
Lemma chunks_join {A} (bs : nat) : forall (c : nat) (l : list A),
  (length l <= c * bs)%nat ->
  mjoin ((fun i => take bs (drop (i * bs) l)) <$> seq 0 c) = l.
Proof.
  induction c as [|c IH]; intros l Hl.
  - destruct l; [done|simpl in Hl; lia].
  - cbn [seq fmap list_fmap mjoin list_join]. rewrite <- fmap_S_seq.
    rewrite <- list_fmap_compose. simpl.
    transitivity (take bs l ++ drop bs l); [|apply take_drop]. f_equal.
    rewrite <- (IH (drop bs l)) by (rewrite length_drop; lia).
    f_equal. apply list_fmap_ext. intros _ i _. simpl.
    rewrite drop_drop. by rewrite (Nat.add_comm bs).
Qed.

Lemma insert_app_length {A} (l1 l2 : list A) (y z : A) (k : nat) :
  k = length l1 -> <[k := y]> (l1 ++ z :: l2) = l1 ++ y :: l2.
Proof.
  intros ->. rewrite <- (Nat.add_0_r (length l1)) at 1.
  by rewrite insert_app_r.
Qed.

Section BatchFacts.
Context {L V CoTable CoRows tensor : Type}.
Variable model_interactions :
  string -> Gen.encoding V CoTable CoRows -> result tensor.
Variable tshape : tensor -> list nat.
Variable broadcast_to : list nat -> tensor -> tensor.
Variable label_float : L -> spec_float.

Local Abbreviation generator := (Gen.t L V CoTable CoRows).
Local Abbreviation getitem :=
  (Gen.getitem model_interactions tshape broadcast_to label_float).
Local Abbreviation batch_variants :=
  (Gen.batch_variants model_interactions tshape broadcast_to label_float).
Local Abbreviation batch_step :=
  (Gen.batch_step model_interactions tshape broadcast_to label_float).

Local Abbreviation encodes := (encodes model_interactions tshape).

(** The loop of [__batch_variants] over variants that encode, from slot
    [length done_f] on. *)
Lemma batch_fold (self : generator) fw ms :
  Forall2 (encodes self) fw ms ->
  forall (done_f : list (option tensor)) (done_l : list (option spec_float))
         (l1 l2 l3 : list L),
    length l1 = length done_f -> length done_l = length done_f ->
    length l2 = length fw ->
    foldlM (batch_step self (l1 ++ l2 ++ l3))
      (done_f ++ replicate (length l2 + length l3) None,
       done_l ++ replicate (length l2 + length l3) None)
      (Np.enumerate_from (length done_f) fw)
    = Ok (done_f ++ (Some <$> ms) ++ replicate (length l3) None,
          done_l ++ ((fun x => Some (label_float x)) <$> l2)
                 ++ replicate (length l3) None).
Proof.
  induction 1 as [|v m fw ms [Hm Hs] _ IH];
    intros done_f done_l l1 l2 l3 H1 Hd H2.
  - by destruct l2.
  - destruct l2 as [|x l2]; [done|]. simpl in H2.
    cbn [Np.enumerate_from foldlM Gen.batch_step]. rewrite Hm.
    cbn [mbind result_bind]. unfold Gen.set_slot.
    rewrite length_app, length_replicate.
    destruct (Nat.ltb_spec (length done_f)
                (length done_f + (length (x :: l2) + length l3)))
      as [_|Hge]; [|simpl in Hge; lia].
    rewrite decide_True by done. cbn [mbind result_bind].
    rewrite (getitem_lookup _ _ x)
      by (rewrite lookup_app_r, H1, Nat.sub_diag by lia; done).
    cbn [mbind result_bind].
    rewrite length_app, length_replicate, Hd.
    destruct (Nat.ltb_spec (length done_f)
                (length done_f + (length (x :: l2) + length l3)))
      as [_|Hge]; [|simpl in Hge; lia].
    cbn [length Nat.add replicate].
    rewrite (insert_app_length done_f) by done.
    rewrite (insert_app_length done_l) by done.
    cbn [mbind result_bind].
    change ((x :: l2) ++ l3) with (x :: l2 ++ l3).
    specialize (IH (done_f ++ [Some m]) (done_l ++ [Some (label_float x)])
                  (l1 ++ [x]) l2 l3).
    rewrite !length_app in IH. simpl in IH.
    rewrite <- !(assoc_L (++)) in IH. simpl in IH.
    replace (length done_f + 1)%nat with (S (length done_f)) in IH by lia.
    by rewrite IH by lia.
Qed.

(** [__batch_variants] on a window whose variants all encode. *)
Lemma batch_variants_encoded (self : generator) fw ms (lw lrest : list L) :
  Forall2 (encodes self) fw ms ->
  length lw = length fw ->
  batch_variants self fw (lw ++ lrest)
  = Ok ((Some <$> ms) ++ replicate (length lrest) None,
        ((fun x => Some (label_float x)) <$> lw)
        ++ replicate (length lrest) None).
Proof.
  intros Hfw Hlen. unfold Gen.batch_variants.
  pose proof (batch_fold self fw ms Hfw [] [] [] lw lrest
                eq_refl eq_refl Hlen) as H.
  simpl in H. by rewrite length_app.
Qed.

End BatchFacts.

Lemma enumerate_from_app {A} (l1 l2 : list A) : forall k,
  Np.enumerate_from k (l1 ++ l2)
  = Np.enumerate_from k l1 ++ Np.enumerate_from (k + length l1) l2.
Proof.
  induction l1 as [|x l1 IH]; intros k; simpl.
  - by rewrite Nat.add_0_r.
  - rewrite IH. do 3 f_equal. lia.
Qed.

Section BatchTheorems.
Context {L V CoTable CoRows tensor : Type}.
Variable model_interactions :
  string -> Gen.encoding V CoTable CoRows -> result tensor.
Variable tshape : tensor -> list nat.
Variable broadcast_to : list nat -> tensor -> tensor.
Variable label_float : L -> spec_float.

Local Abbreviation generator := (Gen.t L V CoTable CoRows).
Local Abbreviation getitem :=
  (Gen.getitem model_interactions tshape broadcast_to label_float).
Local Abbreviation batch_variants :=
  (Gen.batch_variants model_interactions tshape broadcast_to label_float).
Local Abbreviation encodes := (encodes model_interactions tshape).

Lemma batch_step_raise (self : generator) lw st ci v e :
  model_interactions v (Gen.enc self) = Raise e ->
  Gen.batch_step model_interactions tshape broadcast_to label_float self lw
                 st (ci, v) = Raise e.
Proof. intros Hv. destruct st. unfold Gen.batch_step. by rewrite Hv. Qed.

Lemma batch_step_full (self : generator) lw bf bl ci v m :
  model_interactions v (Gen.enc self) = Ok m ->
  (length bf <= ci)%nat ->
  Gen.batch_step model_interactions tshape broadcast_to label_float self lw
                 (bf, bl) (ci, v) = Raise IndexError.
Proof.
  intros Hv Hci. unfold Gen.batch_step. rewrite Hv. cbn [mbind result_bind].
  unfold Gen.set_slot.
  by destruct (Nat.ltb_spec ci (length bf)) as [?|_]; [lia|].
Qed.

(** The batches of an epoch partition the dataset. For [N] samples and a
    batch size [bs > 0], both below [2^53], the windows of the batches
    [0 .. len - 1], one after the other, are the features in their order
    (and the labels, when there are as many); every window that ends
    inside the dataset holds exactly [bs] samples. *)
Theorem batches_partition_dataset (self : generator) :
  let N := Z.of_nat (length (Gen.features self)) in
  let bs := Gen.batch_size self in
  0 < bs < 2 ^ 53 -> N < 2 ^ 53 ->
  exists c : nat,
    Gen.len self = Ok (Z.of_nat c) /\
    mjoin ((fun i => Gen.features_batch self (Z.of_nat i)) <$> seq 0 c)
    = Gen.features self /\
    (length (Gen.labels self) = length (Gen.features self) ->
     mjoin ((fun i => Gen.label_batch self (Z.of_nat i)) <$> seq 0 c)
     = Gen.labels self) /\
    forall i : nat, (Z.of_nat i + 1) * bs <= N ->
      (i < c)%nat /\
      Z.of_nat (length (Gen.features_batch self (Z.of_nat i))) = bs.
Proof.
  intros N bs Hbs HN.
  assert (0 <= N) as HN0 by (unfold N; lia).
  pose proof (proj1 (ceil_div_spec N bs _ ltac:(lia)) eq_refl) as Hc.
  set (c := ceil_div N bs) in *.
  assert (0 <= c) as Hc0 by nia.
  exists (Z.to_nat c). rewrite Z2Nat.id by done.
  split; [apply ceil_truediv; lia|].
  assert (forall (A : Type) (l : list A),
            length l = length (Gen.features self) ->
            mjoin ((fun i : nat =>
                      py_slice l (Z.of_nat i * bs) ((Z.of_nat i + 1) * bs))
                   <$> seq 0 (Z.to_nat c)) = l) as Hjoin.
  { intros A l Hl.
    etrans; [|apply (chunks_join (Z.to_nat bs) (Z.to_nat c) l)].
    - f_equal. apply list_fmap_ext. intros _ i _.
      rewrite py_slice_window by nia. f_equal; [f_equal; lia|].
      f_equal. rewrite Z2Nat.inj_mul, Nat2Z.id by lia. done.
    - rewrite Hl. apply Nat2Z.inj_le.
      rewrite Nat2Z.inj_mul, !Z2Nat.id by lia. fold N. lia. }
  split; [by apply Hjoin|]. split; [by apply Hjoin|].
  intros i Hi. split; [nia|].
  unfold Gen.features_batch. fold bs.
  rewrite py_slice_length by nia. fold N. nia.
Qed.

(** Past the end of the dataset, and at index [-1], [__getitem__] gives
    an empty batch: no exception, and not the last batch. *)
Theorem getitem_out_of_range_is_empty (self : generator) (i : Z) :
  let N := Z.of_nat (length (Gen.features self)) in
  let bs := Gen.batch_size self in
  0 < bs ->
  i = - 1 \/
  (N <= i * bs /\ (length (Gen.labels self) <= length (Gen.features self))%nat) ->
  Gen.features_batch self i = [] /\
  Gen.label_batch self i = [] /\
  getitem self i = Ok ([], if Gen.train self then Some [] else None).
Proof.
  intros N bs Hbs Hi.
  assert (Gen.features_batch self i = [] /\ Gen.label_batch self i = [])
    as [Hf Hl].
  { unfold Gen.features_batch, Gen.label_batch. fold bs.
    destruct Hi as [->|[Hi Hlen]].
    - split; apply py_slice_empty; left; lia.
    - split; apply py_slice_empty; right; fold N; [lia|].
      apply Nat2Z.inj_le in Hlen. fold N in Hlen. lia. }
  split; [done|]. split; [done|].
  unfold Gen.getitem. rewrite Hf, Hl.
  cbn [Gen.batch_variants length replicate Np.enumerate_from foldlM mbind
       result_bind].
  by destruct (Gen.train self).
Qed.

(** What [__getitem__] returns when every variant of the window encodes
    into a tensor of the shape of a slot: the tensors of the variants, in
    the order of the window, and the labels as floats (when [train] is
    set). Labels in the window beyond the last variant leave their rows of
    the two [np.empty] arrays unwritten. *)
Theorem getitem_fills_slots (self : generator) (i : Z) ms lw lrest :
  Forall2 (encodes self) (Gen.features_batch self i) ms ->
  Gen.label_batch self i = lw ++ lrest ->
  length lw = length (Gen.features_batch self i) ->
  getitem self i
  = Ok ((Some <$> ms) ++ replicate (length lrest) None,
        if Gen.train self
        then Some (((fun x => Some (label_float x)) <$> lw)
                   ++ replicate (length lrest) None)
        else None).
Proof.
  intros Hfw Hl Hlen. unfold Gen.getitem. rewrite Hl.
  rewrite (batch_variants_encoded _ _ _ _ _ _ ms) by done.
  cbn [mbind result_bind]. by destruct (Gen.train self).
Qed.

(** An exception of [model_interactions] leaves [__getitem__] as it is:
    the one of the first variant of the window that does not encode,
    whatever comes after it. *)
Theorem getitem_propagates_encoder_error (self : generator) (i : Z)
    fw1 ms1 v rest e :
  Gen.features_batch self i = fw1 ++ v :: rest ->
  Forall2 (encodes self) fw1 ms1 ->
  (length fw1 <= length (Gen.label_batch self i))%nat ->
  model_interactions v (Gen.enc self) = Raise e ->
  getitem self i = Raise e.
Proof.
  intros Hf Hfw Hlen Hv. unfold Gen.getitem, Gen.batch_variants. rewrite Hf.
  set (lw := Gen.label_batch self i) in *.
  rewrite enumerate_from_app, foldlM_app.
  pose proof (batch_fold model_interactions tshape broadcast_to label_float
                self fw1 ms1 Hfw [] [] [] (take (length fw1) lw)
                (drop (length fw1) lw) eq_refl eq_refl) as H.
  rewrite length_take, length_drop in H. cbn [app length] in H.
  rewrite take_drop in H.
  replace (length fw1 `min` length lw + (length lw - length fw1))%nat
    with (length lw) in H by lia.
  rewrite H by lia. cbn [mbind result_bind Np.enumerate_from foldlM].
  by rewrite (batch_step_raise self lw _ _ v e Hv).
Qed.

(** More variants than labels in a window: once the labels are used up,
    the next variant is still encoded, and storing its tensor raises
    [IndexError]. *)
Theorem getitem_more_features_than_labels (self : generator) (i : Z)
    fw1 ms1 v rest m :
  Gen.features_batch self i = fw1 ++ v :: rest ->
  Forall2 (encodes self) fw1 ms1 ->
  length (Gen.label_batch self i) = length fw1 ->
  model_interactions v (Gen.enc self) = Ok m ->
  getitem self i = Raise IndexError.
Proof.
  intros Hf Hfw Hlen Hv. unfold Gen.getitem, Gen.batch_variants. rewrite Hf.
  set (lw := Gen.label_batch self i) in *.
  rewrite enumerate_from_app, foldlM_app.
  pose proof (batch_fold model_interactions tshape broadcast_to label_float
                self fw1 ms1 Hfw [] [] [] lw [] eq_refl eq_refl Hlen) as H.
  cbn [app length] in H. rewrite Nat.add_0_r, app_nil_r in H.
  rewrite H. cbn [mbind result_bind Np.enumerate_from foldlM].
  pose proof (Forall2_length _ _ _ Hfw) as Hms.
  rewrite (batch_step_full self lw _ _ _ v m Hv); [done|].
  cbn [replicate]. rewrite app_nil_r, length_fmap. lia.
Qed.

End BatchTheorems.

Lemma batches_partition_dataset_witness :
  (0 < 32 < 2 ^ 53 /\
   Z.of_nat (length (Gen.features (sized_generator 105 32))) < 2 ^ 53) /\
  exists c : nat,
    Gen.len (sized_generator 105 32) = Ok (Z.of_nat c) /\
    mjoin ((fun i => Gen.features_batch (sized_generator 105 32) (Z.of_nat i))
           <$> seq 0 c)
    = Gen.features (sized_generator 105 32) /\
    (length (Gen.labels (sized_generator 105 32))
     = length (Gen.features (sized_generator 105 32)) ->
     mjoin ((fun i => Gen.label_batch (sized_generator 105 32) (Z.of_nat i))
            <$> seq 0 c)
     = Gen.labels (sized_generator 105 32)) /\
    forall i : nat,
      (Z.of_nat i + 1) * 32
      <= Z.of_nat (length (Gen.features (sized_generator 105 32))) ->
      (i < c)%nat /\
      Z.of_nat (length (Gen.features_batch (sized_generator 105 32)
                          (Z.of_nat i))) = 32.
Proof.
  split; [split; [lia|by vm_compute]|].
  apply (batches_partition_dataset (sized_generator 105 32));
    [simpl; lia|by vm_compute].
Defined.

Lemma getitem_out_of_range_is_empty_witness :
  (0 < 2 /\
   (- 1 = - 1 \/
    (Z.of_nat (length ["S1A"; "D35T"; "V2A"]) <= - 1 * 2 /\
     Nat.le (length [10; 20; 30]) (length ["S1A"; "D35T"; "V2A"])))) /\
  Gen.features_batch
    (small_generator ["S1A"; "D35T"; "V2A"] [10; 20; 30] 2 true) (- 1) = [] /\
  Gen.label_batch
    (small_generator ["S1A"; "D35T"; "V2A"] [10; 20; 30] 2 true) (- 1) = [] /\
  Gen.getitem (constant_model [2; 2; 6]%nat) id (fun _ t => t)
              (fun z => B64.of_Z z)
              (small_generator ["S1A"; "D35T"; "V2A"] [10; 20; 30] 2 true) (- 1)
  = Ok ([], Some []).
Proof.
  split; [split; [lia|by left]|].
  apply (getitem_out_of_range_is_empty (constant_model [2; 2; 6]%nat) id
           (fun _ t => t) (fun z => B64.of_Z z)
           (small_generator ["S1A"; "D35T"; "V2A"] [10; 20; 30] 2 true) (- 1));
    [simpl; lia|by left].
Defined.

(** Batch 2 of three samples in batches of 2 is past the end. *)
Example getitem_past_the_end :
  Gen.len (small_generator ["S1A"; "D35T"; "V2A"] [10; 20; 30] 2 true) = Ok 2 /\
  Gen.getitem (constant_model [2; 2; 6]%nat) id (fun _ t => t)
              (fun z => B64.of_Z z)
              (small_generator ["S1A"; "D35T"; "V2A"] [10; 20; 30] 2 true) 2
  = Ok ([], Some []).
Proof. split; by vm_compute. Qed.

Lemma getitem_fills_slots_witness :
  (Forall2 (encodes (constant_model [2; 2; 6]%nat) id
              (small_generator ["S1A"; "D35T"; "V2A"] [10; 20; 30; 40] 4 true))
           (Gen.features_batch
              (small_generator ["S1A"; "D35T"; "V2A"] [10; 20; 30; 40] 4 true) 0)
           [[2; 2; 6]; [2; 2; 6]; [2; 2; 6]]%nat /\
   Gen.label_batch
     (small_generator ["S1A"; "D35T"; "V2A"] [10; 20; 30; 40] 4 true) 0
   = [10; 20; 30] ++ [40] /\
   length [10; 20; 30]
   = length (Gen.features_batch
               (small_generator ["S1A"; "D35T"; "V2A"] [10; 20; 30; 40] 4 true)
               0)) /\
  Gen.getitem (constant_model [2; 2; 6]%nat) id (fun _ t => t)
              (fun z => B64.of_Z z)
              (small_generator ["S1A"; "D35T"; "V2A"] [10; 20; 30; 40] 4 true) 0
  = Ok ((Some <$> [[2; 2; 6]; [2; 2; 6]; [2; 2; 6]]%nat)
        ++ replicate (length [40]) None,
        if Gen.train
             (small_generator ["S1A"; "D35T"; "V2A"] [10; 20; 30; 40] 4 true)
        then Some (((fun x => Some (B64.of_Z x)) <$> [10; 20; 30])
                   ++ replicate (length [40]) None)
        else None).
Proof.
  assert (Forall2 (encodes (constant_model [2; 2; 6]%nat) id
              (small_generator ["S1A"; "D35T"; "V2A"] [10; 20; 30; 40] 4 true))
           (Gen.features_batch
              (small_generator ["S1A"; "D35T"; "V2A"] [10; 20; 30; 40] 4 true) 0)
           [[2; 2; 6]; [2; 2; 6]; [2; 2; 6]]%nat) as H.
  { change (Gen.features_batch _ 0) with ["S1A"; "D35T"; "V2A"].
    repeat constructor. }
  split; [split_and!; [exact H|reflexivity|reflexivity]|].
  apply (getitem_fills_slots (constant_model [2; 2; 6]%nat) id
           (fun _ t => t) (fun z => B64.of_Z z)
           (small_generator ["S1A"; "D35T"; "V2A"] [10; 20; 30; 40] 4 true) 0
           ([[2; 2; 6]; [2; 2; 6]; [2; 2; 6]]%nat) [10; 20; 30] [40] H);
    reflexivity.
Defined.

(** A full window: two variants, two tensors, two labels. *)
Example getitem_first_batch :
  Gen.getitem (constant_model [2; 2; 6]%nat) id (fun _ t => t)
              (fun z => B64.of_Z z)
              (small_generator ["S1A"; "D35T"; "V2A"] [10; 20; 30] 2 true) 0
  = Ok ([Some [2; 2; 6]%nat; Some [2; 2; 6]%nat],
        Some [Some (B64.of_Z 10); Some (B64.of_Z 20)]) /\
  Gen.getitem (constant_model [2; 2; 6]%nat) id (fun _ t => t)
              (fun z => B64.of_Z z)
              (small_generator ["S1A"; "D35T"; "V2A"] [10; 20; 30] 2 false) 0
  = Ok ([Some [2; 2; 6]%nat; Some [2; 2; 6]%nat], None).
Proof. split; reflexivity. Qed.

Lemma getitem_propagates_encoder_error_witness :
  (Gen.features_batch
     (small_generator ["S1A"; "X9Z"; "V2A"] [10; 20; 30] 3 true) 0
   = ["S1A"] ++ "X9Z" :: ["V2A"] /\
   Forall2 (encodes (failing_model "X9Z" [2; 2; 6]%nat) id
              (small_generator ["S1A"; "X9Z"; "V2A"] [10; 20; 30] 3 true))
           ["S1A"] [[2; 2; 6]%nat] /\
   Nat.le (length ["S1A"])
          (length (Gen.label_batch
                     (small_generator ["S1A"; "X9Z"; "V2A"] [10; 20; 30] 3 true)
                     0)) /\
   failing_model "X9Z" [2; 2; 6]%nat "X9Z"
     (Gen.enc (small_generator ["S1A"; "X9Z"; "V2A"] [10; 20; 30] 3 true))
   = Raise KeyError) /\
  Gen.getitem (failing_model "X9Z" [2; 2; 6]%nat) id (fun _ t => t)
              (fun z => B64.of_Z z)
              (small_generator ["S1A"; "X9Z"; "V2A"] [10; 20; 30] 3 true) 0
  = Raise KeyError.
Proof.
  assert (Forall2 (encodes (failing_model "X9Z" [2; 2; 6]%nat) id
              (small_generator ["S1A"; "X9Z"; "V2A"] [10; 20; 30] 3 true))
           ["S1A"] [[2; 2; 6]%nat]) as H.
  { repeat constructor. }
  split; [split_and!; [reflexivity|exact H|simpl; lia|reflexivity]|].
  apply (getitem_propagates_encoder_error (failing_model "X9Z" [2; 2; 6]%nat)
           id (fun _ t => t) (fun z => B64.of_Z z)
           (small_generator ["S1A"; "X9Z"; "V2A"] [10; 20; 30] 3 true) 0
           ["S1A"] [[2; 2; 6]%nat] "X9Z" ["V2A"] KeyError);
    [reflexivity|exact H|simpl; lia|reflexivity].
Defined.

Lemma getitem_more_features_than_labels_witness :
  (Gen.features_batch
     (small_generator ["S1A"; "D35T"; "V2A"] [10] 3 true) 0
   = ["S1A"] ++ "D35T" :: ["V2A"] /\
   Forall2 (encodes (constant_model [2; 2; 6]%nat) id
              (small_generator ["S1A"; "D35T"; "V2A"] [10] 3 true))
           ["S1A"] [[2; 2; 6]%nat] /\
   length (Gen.label_batch
             (small_generator ["S1A"; "D35T"; "V2A"] [10] 3 true) 0)
   = length ["S1A"] /\
   constant_model [2; 2; 6]%nat "D35T"
     (Gen.enc (small_generator ["S1A"; "D35T"; "V2A"] [10] 3 true))
   = Ok [2; 2; 6]%nat) /\
  Gen.getitem (constant_model [2; 2; 6]%nat) id (fun _ t => t)
              (fun z => B64.of_Z z)
              (small_generator ["S1A"; "D35T"; "V2A"] [10] 3 true) 0
  = Raise IndexError.
Proof.
  assert (Forall2 (encodes (constant_model [2; 2; 6]%nat) id
              (small_generator ["S1A"; "D35T"; "V2A"] [10] 3 true))
           ["S1A"] [[2; 2; 6]%nat]) as H.
  { repeat constructor. }
  split; [split_and!; [reflexivity|exact H|reflexivity|reflexivity]|].
  apply (getitem_more_features_than_labels (constant_model [2; 2; 6]%nat)
           id (fun _ t => t) (fun z => B64.of_Z z)
           (small_generator ["S1A"; "D35T"; "V2A"] [10] 3 true) 0
           ["S1A"] [[2; 2; 6]%nat] "D35T" ["V2A"] [2; 2; 6]%nat);
    [reflexivity|exact H|reflexivity|reflexivity].
Defined.

(** ** The augmentation engine: shape and origin of the result *)

Lemma length_join_bound {A B} (P : A -> list B -> Prop) (n : nat) xs yss :
  Forall2 P xs yss ->
  (forall x ys, P x ys -> (length ys <= n)%nat) ->
  (length (mjoin yss) <= length xs * n)%nat.
Proof.
  intros HF Hn. induction HF as [|x ys xs yss HP _ IH]; [done|].
  cbn [mjoin list_join length]. rewrite length_app.
  specialize (Hn x ys HP). rewrite Nat.mul_succ_l, Nat.add_comm.
  by apply Nat.add_le_mono.
Qed.

Lemma Forall_exists_Forall2 {A B} (P : A -> B -> Prop) (l : list A) :
  Forall (fun x => exists y, P x y) l -> exists k, Forall2 P l k.
Proof.
  induction 1 as [|x l [y Hy] _ [k Hk]]; [by exists []|].
  exists (y :: k). by constructor.
Qed.

(** Two lists read off the same keys, one through [g] and one through
    [h], where [g] is [f] after [h] on those keys. *)
Lemma Forall2_fmap_eq {A B C} (f : B -> C) (g : A -> option C)
    (h : A -> option B) (l : list A) (cs : list C) (bs : list B) :
  Forall2 (fun a c => g a = Some c) l cs ->
  Forall2 (fun a b => h a = Some b) l bs ->
  (forall a b, a ∈ l -> h a = Some b -> g a = Some (f b)) ->
  cs = f <$> bs.
Proof.
  intros Hc. revert bs.
  induction Hc as [|a c l cs Ha _ IH]; intros bs Hb Hfg.
  - by apply Forall2_nil_inv_l in Hb as ->.
  - apply Forall2_cons_inv_l in Hb as (b & bs' & Hb & Hbs & ->).
    simpl. f_equal.
    + specialize (Hfg a b ltac:(left) Hb). congruence.
    + apply IH; [done|]. intros a' b' Ha' Hb'. apply Hfg; [by right|done].
Qed.

Lemma Forall2_Some_refl {A} (l : list A) :
  Forall2 (fun a c => Some a = Some c) l l.
Proof. induction l; by constructor. Qed.

Lemma lookup_first_index_fmap {A} (f : A -> string) (rows : list A) s :
  s ∈ f <$> rows ->
  exists r, rows !! Np.first_index (f <$> rows) s = Some r /\ f r = s.
Proof.
  intros Hs. destruct (first_index_spec _ s Hs) as [Hfi _].
  rewrite list_lookup_fmap in Hfi.
  destruct (rows !! Np.first_index (f <$> rows) s) as [r|]; [|done].
  exists r. split; [done|]. by injection Hfi.
Qed.

Section AugmentRows.
Context {L : Type}.
Variable ladd : L -> L -> L.
Variable rng : shuffler.

(** What [augment] returns on parallel arrays, with or without the
    removal of duplicates: the three columns of a list of candidates,
    each of which passed the test of some run. *)
Lemma augment_rows data labels mutations runs un :
  length data = length labels ->
  length mutations = length labels ->
  exists rows : list (row L),
    augment ladd rng data labels mutations runs un
    = Ok (row_data <$> rows, row_label <$> rows, row_count <$> rows) /\
    (length rows <= runs * length labels)%nat /\
    Forall (fun r => accepted r /\
              exists k i, (k < runs)%nat /\
                candidate_row ladd data labels mutations
                  (pos_after rng (length labels) (S k)) i = Some r) rows.
Proof.
  intros Hd Hm.
  destruct (augment_plain ladd rng data labels mutations runs Hd Hm)
    as (keptss & HF & Hplain).
  set (rows := mjoin keptss) in *.
  assert (length rows <= runs * length labels)%nat as Hlen.
  { rewrite <- (length_seq runs 0) at 1. unfold rows.
    apply (length_join_bound _ _ _ _ HF).
    intros k kept (cands & Hc & ->).
    etrans; [apply length_filter|].
    apply Forall2_length in Hc. by rewrite <- Hc, length_seq. }
  assert (Forall (fun r => accepted r /\
              exists k i, (k < runs)%nat /\
                candidate_row ladd data labels mutations
                  (pos_after rng (length labels) (S k)) i = Some r) rows)
    as Hrows.
  { apply Forall_forall. intros r Hr.
    destruct (kept_row_inv ladd rng _ _ _ _ _ _ HF Hr) as (k & i & ? & ? & ?).
    eauto 6. }
  destruct un; [|by exists rows].
  destruct (augment_dedup ladd rng _ _ _ _ _ _ _ Hd Hm Hplain)
    as (_ & _ & nl' & nm' & Hun & Hnl & Hnm).
  set (nd := row_data <$> rows) in *.
  assert (forall s, s ∈ Np.unique nd ->
            exists r, rows !! Np.first_index nd s = Some r /\ row_data r = s)
    as Hfirst.
  { intros s Hs. apply (proj1 (unique_elem_of nd s)) in Hs.
    by apply lookup_first_index_fmap. }
  assert (Forall (fun s => exists r,
                    rows !! Np.first_index nd s = Some r) (Np.unique nd))
    as Hex.
  { apply Forall_forall. intros s Hs.
    destruct (Hfirst s Hs) as (r & Hr & _). eauto. }
  destruct (Forall_exists_Forall2 _ _ Hex) as (rows' & Hrows').
  exists rows'.
  assert (Np.unique nd = row_data <$> rows') as Hnd'.
  { apply (Forall2_fmap_eq row_data (fun s => Some s)
             (fun s => rows !! Np.first_index nd s) (Np.unique nd));
      [apply Forall2_Some_refl|done|].
    intros s r Hs Hr. destruct (Hfirst s Hs) as (r' & Hr' & <-).
    congruence. }
  assert (nl' = row_label <$> rows') as ->.
  { apply (Forall2_fmap_eq row_label
             (fun s => (row_label <$> rows) !! Np.first_index nd s)
             (fun s => rows !! Np.first_index nd s) (Np.unique nd));
      [done|done|].
    intros s r _ Hr. by rewrite list_lookup_fmap, Hr. }
  assert (nm' = row_count <$> rows') as ->.
  { apply (Forall2_fmap_eq row_count
             (fun s => (row_count <$> rows) !! Np.first_index nd s)
             (fun s => rows !! Np.first_index nd s) (Np.unique nd));
      [done|done|].
    intros s r _ Hr. by rewrite list_lookup_fmap, Hr. }
  rewrite Hnd' in Hun. split; [done|]. split.
  - apply Forall2_length in Hrows'. rewrite <- Hrows', length_unique.
    etrans; [apply length_remove_dups_le|]. unfold nd.
    by rewrite length_fmap.
  - apply Forall_forall. intros r Hr.
    apply list_elem_of_lookup in Hr as [j Hj].
    destruct (Forall2_lookup_r _ _ _ _ _ Hrows' Hj) as (s & _ & Hs).
    rewrite Forall_forall in Hrows. apply Hrows.
    apply list_elem_of_lookup. eauto.
Qed.

End AugmentRows.

(** *** Indexing outside an array *)

Lemma getitem_out_of_range {A} (a : list A) (i : Z) :
  Z.of_nat (length a) <= i -> Np.getitem a i = Raise IndexError.
Proof.
  intros Hi. unfold Np.getitem.
  destruct (Z.ltb_spec i 0); [lia|].
  destruct (Z.leb_spec 0 i); [|lia].
  by destruct (Z.ltb_spec i (Z.of_nat (length a))); [lia|].
Qed.

(** [a[idx]] raises [IndexError] as soon as one index is beyond the
    array. *)
Lemma take_out_of_range {A} (a : list A) (idx : list Z) :
  Forall (fun i => 0 <= i) idx ->
  Exists (fun i => Z.of_nat (length a) <= i) idx ->
  Np.take a idx = Raise IndexError.
Proof.
  unfold Np.take. intros Hpos Hex.
  induction idx as [|i idx IH]; [by apply Exists_nil in Hex|].
  apply Forall_cons in Hpos as [Hi Hpos]. cbn [traverse].
  destruct (Z.le_gt_cases (Z.of_nat (length a)) i) as [Hout|Hin].
  - by rewrite getitem_out_of_range.
  - destruct (getitem_in_range a i ltac:(lia)) as (x & _ & ->).
    cbn [mbind result_bind].
    apply Exists_cons in Hex as [?|Hex]; [lia|].
    by rewrite IH.
Qed.

(** Reading an array at indices below [n] does not look beyond its
    first [n] elements. *)
Lemma take_take {A} (a : list A) (n : nat) (idx : list Z) :
  Forall (in_range n) idx ->
  Np.take (take n a) idx = Np.take a idx.
Proof.
  unfold Np.take. induction 1 as [|i idx [Hi1 Hi2] _ IH]; [done|].
  cbn [traverse]. rewrite IH. f_equal.
  destruct (Z.le_gt_cases (Z.of_nat (length a)) i) as [Hout|Hin].
  - rewrite !getitem_out_of_range; [done|done|].
    rewrite length_take. lia.
  - destruct (getitem_in_range a i ltac:(lia)) as (x & Hx & ->).
    destruct (getitem_in_range (take n a) i) as (y & Hy & ->).
    { rewrite length_take. lia. }
    rewrite lookup_take_lt in Hy by lia. congruence.
Qed.

Lemma zip_take_l {A B} (a : list A) (b : list B) :
  zip (take (length b) a) b = zip a b.
Proof.
  revert a. induction b as [|y b IH]; intros [|x a]; simpl; try done.
  by rewrite IH.
Qed.

Lemma take_length_Ok {A} (a : list A) (idx : list Z) (b : list A) :
  Np.take a idx = Ok b -> length b = length idx.
Proof.
  unfold Np.take. revert b. induction idx as [|i idx IH]; intros b.
  - by intros [= <-].
  - cbn [traverse]. destruct (Np.getitem a i); [|done].
    cbn [mbind result_bind].
    destruct (traverse (Np.getitem a) idx) as [ys|]; [|done].
    cbn [mbind result_bind]. intros [= <-]. simpl. by rewrite (IH ys).
Qed.

Section AugmentTheorems.
Context {L : Type}.
Variable ladd : L -> L -> L.
Variable rng : shuffler.

(** On parallel arrays [augment] returns, and returns parallel arrays:
    for either value of [un] the three arrays have the same length, which
    is at most [runs] times the number of samples. *)
Theorem augment_returns_parallel_arrays data labels mutations runs un :
  length data = length labels ->
  length mutations = length labels ->
  exists nd nl nm,
    augment ladd rng data labels mutations runs un = Ok (nd, nl, nm) /\
    length nl = length nd /\ length nm = length nd /\
    (length nd <= runs * length labels)%nat.
Proof.
  intros Hd Hm.
  destruct (augment_rows ladd rng data labels mutations runs un Hd Hm)
    as (rows & Haug & Hlen & _).
  eexists _, _, _. split; [exact Haug|]. by rewrite !length_fmap.
Qed.

(** Every sample [augment] returns is built from two samples of the
    input: its variant is the comma-joined, sorted list of the tokens of
    the two variants, its label the sum of their labels, its mutation
    count the 64-bit sum of their counts, and that count is the number of
    distinct tokens of the new variant. *)
Theorem augment_output_origin data labels mutations runs un nd nl nm k s :
  length data = length labels ->
  length mutations = length labels ->
  augment ladd rng data labels mutations runs un = Ok (nd, nl, nm) ->
  nd !! k = Some s ->
  exists i p v1 v2 l1 l2 m1 m2,
    data !! i = Some v1 /\ data !! p = Some v2 /\
    labels !! i = Some l1 /\ labels !! p = Some l2 /\
    mutations !! i = Some m1 /\ mutations !! p = Some m2 /\
    s = PyStr.join "," (Np.sort (tokens v1 ++ tokens v2)) /\
    tokens s = Np.sort (tokens v1 ++ tokens v2) /\
    nl !! k = Some (ladd l1 l2) /\
    nm !! k = Some (Np.add64 m1 m2) /\
    Z.of_nat (length (Np.unique (tokens s))) = Np.add64 m1 m2.
Proof.
  intros Hd Hm Haug Hk.
  destruct (augment_rows ladd rng data labels mutations runs un Hd Hm)
    as (rows & Haug' & _ & Hrows).
  rewrite Haug in Haug'. injection Haug' as -> -> ->.
  rewrite list_lookup_fmap in Hk.
  destruct (rows !! k) as [r|] eqn:Hr; [|done]. injection Hk as <-.
  rewrite Forall_forall in Hrows.
  destruct (Hrows r) as (Hacc & run & i & _ & Hc).
  { apply list_elem_of_lookup. eauto. }
  destruct (candidate_row_inv ladd _ _ _ _ _ _ Hc)
    as (p & v1 & v2 & l1 & l2 & m1 & m2 & _ & D1 & D2 & L1 & L2 & M1 & M2 & ->).
  exists i, (Z.to_nat p), v1, v2, l1, l2, m1, m2.
  rewrite !list_lookup_fmap, Hr. unfold row_data. cbn [fst snd].
  split_and!; try done.
  - apply split_join_pos_new_data.
  - unfold accepted in Hacc. cbn [fst snd] in Hacc.
    by rewrite split_join_pos_new_data.
Qed.

(** The invariant of the data model that [augment] keeps. When every
    mutation count of the input is the number of tokens of its variant
    and fits 64 bits, every sample returned has a count that is the
    number of tokens of its variant and fits 64 bits, and its tokens are
    pairwise distinct: the result can be augmented again. *)
Theorem augment_keeps_counts data labels mutations runs un nd nl nm :
  length data = length labels ->
  length mutations = length labels ->
  Forall2 (fun v m => m = Z.of_nat (length (tokens v))) data mutations ->
  Forall Np.int64 mutations ->
  augment ladd rng data labels mutations runs un = Ok (nd, nl, nm) ->
  Forall2 (fun v m => m = Z.of_nat (length (tokens v))) nd nm /\
  Forall Np.int64 nm /\
  Forall (fun v => NoDup (tokens v)) nd.
Proof.
  intros Hd Hm Hcount Hint Haug.
  destruct (augment_rows ladd rng data labels mutations runs un Hd Hm)
    as (rows & Haug' & _ & Hrows).
  rewrite Haug in Haug'. injection Haug' as -> -> ->.
  assert (Forall (fun r : row L =>
                    row_count r = Z.of_nat (length (tokens (row_data r))) /\
                    Np.int64 (row_count r) /\ NoDup (tokens (row_data r)))
                 rows) as Hall.
  { eapply Forall_impl; [exact Hrows|].
    intros r (Hacc & run & i & _ & Hc).
    destruct (candidate_row_inv ladd _ _ _ _ _ _ Hc)
      as (p & v1 & v2 & l1 & l2 & m1 & m2 & _ & D1 & D2 & _ & _ & M1 & M2 & ->).
    unfold accepted in Hacc. unfold row_count, row_data.
    cbn [fst snd] in *. rewrite split_join_pos_new_data.
    pose proof (Forall2_lookup_lr _ _ _ _ _ _ Hcount D1 M1) as C1.
    pose proof (Forall2_lookup_lr _ _ _ _ _ _ Hcount D2 M2) as C2.
    cbn beta in C1, C2.
    rewrite Forall_forall in Hint.
    assert (Np.int64 m1) as I1 by (apply Hint, list_elem_of_lookup; eauto).
    assert (Np.int64 m2) as I2 by (apply Hint, list_elem_of_lookup; eauto).
    unfold Np.int64 in I1, I2.
    pose proof (length_pos_new_data v1 v2) as Hlen.
    pose proof (length_remove_dups_le (pos_new_data v1 v2)) as Hle.
    rewrite <- length_unique in Hle.
    assert (m1 + m2 < 2 ^ 63) as Hsum.
    { destruct (Z.lt_ge_cases (m1 + m2) (2 ^ 63)) as [|Hge]; [done|].
      unfold Np.add64 in Hacc. rewrite wrap64_overflow in Hacc by lia. lia. }
    assert (Np.add64 m1 m2 = m1 + m2) as Hadd.
    { unfold Np.add64. apply wrap64_small. unfold Np.int64. lia. }
    rewrite Hadd in *. split; [lia|]. split; [unfold Np.int64; lia|].
    destruct (decide (NoDup (pos_new_data v1 v2))) as [|Hdup]; [done|].
    apply length_remove_dups_lt in Hdup. rewrite <- length_unique in Hdup.
    lia. }
  split_and!.
  - apply Forall2_fmap. apply Forall_Forall2_diag.
    eapply Forall_impl; [exact Hall|]. by intros r (-> & _ & _).
  - apply Forall_fmap. eapply Forall_impl; [exact Hall|].
    by intros r (_ & ? & _).
  - apply Forall_fmap. eapply Forall_impl; [exact Hall|].
    by intros r (_ & _ & ?).
Qed.

(** The first run on arrays that are too short. *)
Lemma first_run_raises data labels mutations runs un e :
  (0 < runs)%nat ->
  run_candidates ladd data labels mutations
    (random_shuffle rng 0 (Np.arange (length labels))) = Raise e ->
  augment ladd rng data labels mutations runs un = Raise e.
Proof.
  intros Hruns Hrun. destruct runs as [|runs]; [lia|].
  unfold augment, augment_loop. cbn [seq foldlM augment_run].
  by rewrite Hrun.
Qed.

(** A mutation array, or with parallel mutations a data array, that is
    shorter than [labels] makes [augment] raise [IndexError] in its
    first run. *)
Theorem augment_short_array_raises data labels mutations runs un :
  (0 < runs)%nat ->
  (length mutations < length labels)%nat \/
  (length mutations = length labels /\ (length data < length labels)%nat) ->
  augment ladd rng data labels mutations runs un = Raise IndexError.
Proof.
  intros Hruns Hshort. apply first_run_raises; [done|].
  set (pos := random_shuffle rng 0 (Np.arange (length labels))).
  assert (pos ≡ₚ Np.arange (length labels)) as Hpos
    by apply random_shuffle_perm.
  destruct (perm_arange _ _ Hpos) as [Hrange Hlen].
  assert (Forall (fun i => 0 <= i) pos) as Hnn.
  { eapply Forall_impl; [exact Hrange|]. by intros i [? _]. }
  assert (forall k : nat, (k < length labels)%nat ->
            Exists (fun i => Z.of_nat k <= i) pos) as Hex.
  { intros k Hk. apply Exists_exists. exists (Z.of_nat k). split; [|lia].
    rewrite Hpos. apply list_elem_of_lookup. exists k.
    by apply lookup_arange. }
  unfold run_candidates.
  destruct (take_in_range labels pos Hrange) as (sl & -> & Fsl).
  cbn [mbind result_bind].
  rewrite add_same_length
    by (apply Forall2_length in Fsl; lia).
  cbn [mbind result_bind].
  destruct Hshort as [Hm|[Hm Hd]].
  - by rewrite (take_out_of_range mutations pos Hnn (Hex _ Hm)).
  - destruct (take_in_range mutations pos) as (sm & -> & Fsm);
      [by rewrite Hm|].
    cbn [mbind result_bind].
    rewrite add_same_length by (apply Forall2_length in Fsm; lia).
    cbn [mbind result_bind].
    by rewrite (take_out_of_range data pos Hnn (Hex _ Hd)).
Qed.

(** A mutation array longer than [labels] cannot be added to its
    shuffled selection, unless one of the two has a single element:
    [ValueError] in the first run. *)
Theorem augment_long_mutations_raises data labels mutations runs un :
  (0 < runs)%nat ->
  (length labels < length mutations)%nat ->
  length labels <> 1%nat -> length mutations <> 1%nat ->
  augment ladd rng data labels mutations runs un = Raise ValueError.
Proof.
  intros Hruns Hlong Hl1 Hm1. apply first_run_raises; [done|].
  set (pos := random_shuffle rng 0 (Np.arange (length labels))).
  assert (pos ≡ₚ Np.arange (length labels)) as Hpos
    by apply random_shuffle_perm.
  destruct (perm_arange _ _ Hpos) as [Hrange Hlen].
  unfold run_candidates.
  destruct (take_in_range labels pos Hrange) as (sl & -> & Fsl).
  cbn [mbind result_bind].
  rewrite add_same_length by (apply Forall2_length in Fsl; lia).
  cbn [mbind result_bind].
  destruct (take_in_range mutations pos) as (sm & -> & Fsm).
  { eapply Forall_impl; [exact Hrange|]. unfold in_range. intros i ?. lia. }
  cbn [mbind result_bind]. apply Forall2_length in Fsm.
  unfold Np.add. rewrite decide_False by lia.
  destruct mutations as [|x [|x' mutations]]; simpl in *; try lia;
    by destruct sm as [|y [|y' sm]]; simpl in *; try lia.
Qed.

(** Entries of [data] beyond the length of [labels] are never read:
    with or without them [augment] does the same. *)
Theorem augment_ignores_surplus_data data labels mutations runs un :
  augment ladd rng (take (length labels) data) labels mutations runs un
  = augment ladd rng data labels mutations runs un.
Proof.
  unfold augment, augment_loop. f_equal.
  assert (forall js pos nd nl nm,
            pos ≡ₚ Np.arange (length labels) ->
            foldlM (augment_run ladd rng (take (length labels) data) labels
                      mutations) (pos, nd, nl, nm) js
            = foldlM (augment_run ladd rng data labels mutations)
                     (pos, nd, nl, nm) js) as Hloop.
  { induction js as [|i js IH]; intros pos nd nl nm Hpos; [done|].
    cbn [foldlM].
    assert (random_shuffle rng i pos ≡ₚ Np.arange (length labels)) as Hpos'
      by (by rewrite random_shuffle_perm).
    destruct (perm_arange _ _ Hpos') as [Hrange Hlen].
    assert (augment_run ladd rng (take (length labels) data) labels mutations
              (pos, nd, nl, nm) i
            = augment_run ladd rng data labels mutations (pos, nd, nl, nm) i)
      as Hstep.
    { unfold augment_run, run_candidates.
      destruct (Np.take labels (random_shuffle rng i pos)) as [sl|]; [|done].
      cbn [mbind result_bind].
      destruct (Np.add ladd labels sl); [|done]. cbn [mbind result_bind].
      destruct (Np.take mutations (random_shuffle rng i pos)) as [sm|];
        [|done].
      cbn [mbind result_bind].
      destruct (Np.add Np.add64 mutations sm); [|done].
      cbn [mbind result_bind].
      rewrite take_take by done.
      destruct (Np.take data (random_shuffle rng i pos)) as [sd|] eqn:Hsd;
        [|done].
      cbn [mbind result_bind]. unfold scan.
      apply take_length_Ok in Hsd. rewrite <- Hlen, <- Hsd.
      by rewrite zip_take_l. }
    rewrite Hstep.
    destruct (augment_run ladd rng data labels mutations (pos, nd, nl, nm) i)
      as [[[[pos1 nd1] nl1] nm1]|] eqn:Hrun; [|done].
    cbn [mbind result_bind]. apply IH.
    unfold augment_run in Hrun.
    destruct (run_candidates ladd data labels mutations
                (random_shuffle rng i pos)) as [[[[a b] c] d]|]; [|done].
    cbn [mbind result_bind] in Hrun.
    destruct (Np.delete a d); [|done]. cbn [mbind result_bind] in Hrun.
    destruct (Np.delete b d); [|done]. cbn [mbind result_bind] in Hrun.
    destruct (Np.delete c d); [|done]. cbn [mbind result_bind] in Hrun.
    by injection Hrun as <- _ _ _. }
  by apply Hloop.
Qed.

End AugmentTheorems.

Lemma augment_returns_parallel_arrays_witness :
  (length ["V2A"; "S1A"; "D35T"] = length [10; 20; 30] /\
   length [1; 1; 1] = length [10; 20; 30]) /\
  exists nd nl nm,
    augment Z.add rotating ["V2A"; "S1A"; "D35T"] [10; 20; 30] [1; 1; 1] 2 true
    = Ok (nd, nl, nm) /\
    length nl = length nd /\ length nm = length nd /\
    (length nd <= 2 * length [10; 20; 30])%nat.
Proof.
  split; [split; reflexivity|].
  apply (augment_returns_parallel_arrays Z.add rotating
           ["V2A"; "S1A"; "D35T"] [10; 20; 30] [1; 1; 1] 2 true); reflexivity.
Defined.

Lemma augment_output_origin_witness :
  (length ["V2A"; "S1A"; "D35T"] = length [10; 20; 30] /\
   length [1; 1; 1] = length [10; 20; 30] /\
   augment Z.add rotating ["V2A"; "S1A"; "D35T"] [10; 20; 30] [1; 1; 1] 1 false
   = Ok (["S1A,V2A"; "D35T,S1A"; "D35T,V2A"], [30; 50; 40], [2; 2; 2]) /\
   ["S1A,V2A"; "D35T,S1A"; "D35T,V2A"] !! 1%nat = Some "D35T,S1A") /\
  exists i p v1 v2 l1 l2 m1 m2,
    ["V2A"; "S1A"; "D35T"] !! i = Some v1 /\
    ["V2A"; "S1A"; "D35T"] !! p = Some v2 /\
    [10; 20; 30] !! i = Some l1 /\ [10; 20; 30] !! p = Some l2 /\
    [1; 1; 1] !! i = Some m1 /\ [1; 1; 1] !! p = Some m2 /\
    "D35T,S1A" = PyStr.join "," (Np.sort (tokens v1 ++ tokens v2)) /\
    tokens "D35T,S1A" = Np.sort (tokens v1 ++ tokens v2) /\
    [30; 50; 40] !! 1%nat = Some (Z.add l1 l2) /\
    [2; 2; 2] !! 1%nat = Some (Np.add64 m1 m2) /\
    Z.of_nat (length (Np.unique (tokens "D35T,S1A"))) = Np.add64 m1 m2.
Proof.
  split; [split_and!; by vm_compute|].
  apply (augment_output_origin Z.add rotating
           ["V2A"; "S1A"; "D35T"] [10; 20; 30] [1; 1; 1] 1 false
           ["S1A,V2A"; "D35T,S1A"; "D35T,V2A"] [30; 50; 40] [2; 2; 2]
           1 "D35T,S1A"); by vm_compute.
Defined.

Lemma augment_keeps_counts_witness :
  (length ["V2A"; "S1A,D35T"] = length [10; 20] /\
   length [1; 2] = length [10; 20] /\
   Forall2 (fun v m => m = Z.of_nat (length (tokens v)))
           ["V2A"; "S1A,D35T"] [1; 2] /\
   Forall Np.int64 [1; 2] /\
   augment Z.add reversing ["V2A"; "S1A,D35T"] [10; 20] [1; 2] 1 false
   = Ok (["D35T,S1A,V2A"; "D35T,S1A,V2A"], [30; 30], [3; 3])) /\
  Forall2 (fun v m => m = Z.of_nat (length (tokens v)))
          ["D35T,S1A,V2A"; "D35T,S1A,V2A"] [3; 3] /\
  Forall Np.int64 [3; 3] /\
  Forall (fun v => NoDup (tokens v)) ["D35T,S1A,V2A"; "D35T,S1A,V2A"].
Proof.
  assert (Forall2 (fun v m => m = Z.of_nat (length (tokens v)))
            ["V2A"; "S1A,D35T"] [1; 2]) as Hcount.
  { repeat constructor. }
  assert (Forall Np.int64 [1; 2]) as Hint.
  { repeat constructor; unfold Np.int64; lia. }
  split; [split_and!; [reflexivity|reflexivity|exact Hcount|exact Hint|
                       by vm_compute]|].
  apply (augment_keeps_counts Z.add reversing ["V2A"; "S1A,D35T"] [10; 20]
           [1; 2] 1 false ["D35T,S1A,V2A"; "D35T,S1A,V2A"] [30; 30] [3; 3]);
    [reflexivity|reflexivity|exact Hcount|exact Hint|by vm_compute].
Defined.

Lemma augment_short_array_raises_witness :
  ((0 < 1)%nat /\
   ((length [1; 1] < length [10; 20; 30])%nat \/
    (length [1; 1] = length [10; 20; 30] /\
     (length ["V2A"; "S1A"; "D35T"] < length [10; 20; 30])%nat))) /\
  augment Z.add rotating ["V2A"; "S1A"; "D35T"] [10; 20; 30] [1; 1] 1 false
  = Raise IndexError.
Proof.
  split; [split; [lia|left; simpl; lia]|].
  apply (augment_short_array_raises Z.add rotating
           ["V2A"; "S1A"; "D35T"] [10; 20; 30] [1; 1] 1 false);
    [lia|left; simpl; lia].
Defined.

(** A data array one short of the labels. *)
Example augment_short_data :
  augment Z.add rotating ["V2A"; "S1A"] [10; 20; 30] [1; 1; 1] 1 false
  = Raise IndexError.
Proof. by vm_compute. Qed.

Lemma augment_long_mutations_raises_witness :
  ((0 < 1)%nat /\
   (length [10; 20] < length [1; 1; 1])%nat /\
   length [10; 20] <> 1%nat /\ length [1; 1; 1] <> 1%nat) /\
  augment Z.add rotating ["V2A"; "S1A"] [10; 20] [1; 1; 1] 1 false
  = Raise ValueError.
Proof.
  split; [split_and!; simpl; lia|].
  apply (augment_long_mutations_raises Z.add rotating
           ["V2A"; "S1A"] [10; 20] [1; 1; 1] 1 false); simpl; lia.
Defined.

(** One label and three mutation counts: the sum broadcasts, and the
    arrays returned are not parallel. *)
Example augment_broadcast_mutations :
  augment Z.add rotating ["V2A"] [10] [1; 1; 1] 1 false
  = Ok ([], [], [2; 2]).
Proof. by vm_compute. Qed.

(** A fourth variant without a label is not read. *)
Example augment_surplus_data :
  augment Z.add rotating ["V2A"; "S1A"; "D35T"; "K7R"] [10; 20; 30] [1; 1; 1]
          1 false
  = Ok (["S1A,V2A"; "D35T,S1A"; "D35T,V2A"], [30; 50; 40], [2; 2; 2]).
Proof. by vm_compute. Qed.

(** ** The wild-type encoder: shapes, errors and the values of the index
    matrix *)

Lemma length_chars (s : string) : length (chars s) = String.length s.
Proof. induction s as [|c s IH]; simpl; by rewrite ?IH. Qed.

(** Adding or subtracting [+0.0] leaves a finite non-zero float as it
    is. *)
Lemma add_sub_zero_finite (s : bool) (m : positive) (e : Z) :
  let x := S754_finite s m e in
  B64.add x B64.zero = x /\ B64.add B64.zero x = x /\ B64.sub x B64.zero = x.
Proof. by destruct s. Qed.

(** The quotient of two positive integers below [2^53], the dividend not
    above the divisor: a finite positive float [m * 2^(-k)] within half a
    unit of the exact quotient, with a unit [2^(-k)] of at most
    [2^(-52)]. *)
Lemma div_fraction_spec (N bs : Z) :
  0 < N <= bs -> bs < 2 ^ 53 ->
  exists (mr : positive) (k : Z),
    B64.div (B64.of_Z N) (B64.of_Z bs) = S754_finite false mr (- k) /\
    0 <= k /\ 2 ^ 52 <= 2 ^ k /\
    2 * Z.abs (Zpos mr * bs - N * 2 ^ k) <= bs.
Proof.
  intros HN Hbs.
  destruct (of_Z_exact bs ltac:(lia)) as (m2 & a2 & -> & Ha2 & Hm2 & Hd2).
  destruct (of_Z_exact N ltac:(lia)) as (m1 & a1 & -> & Ha1 & Hm1 & Hd1).
  destruct (div_nearest m1 m2 (- a1) (- a2) Hd1 Hd2 ltac:(lia) ltac:(lia))
    as (mr & er & R & n1 & -> & Hn1 & Hlow & Hnear & Hres).
  rewrite Hm1, Hm2 in Hlow, Hnear.
  destruct (nearest_in_ceiling N bs R n1 a1 a2 ltac:(lia) ltac:(lia)
              ltac:(lia) ltac:(lia) ltac:(lia) Hlow Hnear) as [Hk Hc].
  assert (ceil_div N bs = 1) as Hceil by (apply ceil_div_spec; lia).
  rewrite Hceil in Hc.
  set (k := a1 + 53 - a2 - n1) in *.
  set (S := 2 ^ k) in *. set (T := 2 ^ n1) in *. set (P := 2 ^ a2) in *.
  assert (0 < S) as HS by (unfold S; lia).
  assert (0 < T) as HT by (unfold T; lia).
  assert (0 < P) as HP by (unfold P; lia).
  assert (2 ^ a1 * 2 ^ 53 = S * (T * P)) as Hfac.
  { unfold S, T, P, k. rewrite <- !Z.pow_add_r by lia. f_equal. lia. }
  replace (N * 2 ^ a1 * 2 ^ 53) with (N * S * (T * P)) in Hlow, Hnear
    by (rewrite <- !Z.mul_assoc, <- Hfac; lia).
  assert (0 < T * P) as HTP by lia.
  set (TP := T * P) in *.
  replace (R * T * (bs * P) - N * S * TP) with ((R * bs - N * S) * TP)
    in Hnear by (unfold TP; lia).
  rewrite Z.abs_mul, (Z.abs_eq TP) in Hnear by lia.
  replace (T * (bs * P)) with (bs * TP) in Hnear by (unfold TP; lia).
  assert (2 * Z.abs (R * bs - N * S) <= bs) as Hnear'.
  { apply (Z.mul_le_mono_pos_r _ _ TP); lia. }
  assert (2 ^ 52 * bs <= N * S) as Hlow'.
  { apply (Z.mul_le_mono_pos_r _ _ TP); [lia|].
    replace (2 ^ (52 + n1)) with (2 ^ 52 * T) in Hlow
      by (unfold T; rewrite Z.pow_add_r by lia; done).
    unfold TP. lia. }
  assert (2 ^ 52 <= S) as HS52 by nia.
  destruct Hres as [[HR ->]|(HR & Hmr & ->)].
  - exists mr, k. replace (- a1 - - a2 - 53 + n1) with (- k) by (unfold k; lia).
    split; [done|]. split; [done|]. split; [done|]. by rewrite HR.
  - assert (53 <= k) as Hk53.
    { destruct (Z.le_gt_cases 53 k) as [|Hlt]; [done|].
      assert (2 ^ k < 2 ^ 53) by (apply Z.pow_lt_mono_r; lia).
      fold S in H. lia. }
    assert (S = 2 * 2 ^ (k - 1)) as HS2.
    { unfold S. rewrite <- (Z.pow_succ_r 2 (k - 1)) by lia. f_equal. lia. }
    assert (2 ^ 52 <= 2 ^ (k - 1)) as HS0.
    { apply Z.pow_le_mono_r; lia. }
    exists mr, (k - 1).
    replace (- a1 - - a2 - 53 + n1 + 1) with (- (k - 1)) by (unfold k; lia).
    split; [done|]. split; [lia|]. split; [done|].
    rewrite Hmr. rewrite HR, HS2 in Hnear'.
    change (2 ^ 53) with (2 * 2 ^ 52) in Hnear'. lia.
Qed.

(** Two different dividends over the same divisor below [2^52] give
    different floats. *)
Lemma div_fraction_injective (N1 N2 bs : Z) :
  0 < N1 -> N1 < N2 -> N2 <= bs -> bs < 2 ^ 52 ->
  B64.div (B64.of_Z N1) (B64.of_Z bs) <> B64.div (B64.of_Z N2) (B64.of_Z bs).
Proof.
  intros H1 H12 H2 Hbs.
  destruct (div_fraction_spec N1 bs ltac:(lia) ltac:(lia))
    as (m1 & k1 & -> & Hk1 & HS1 & Hn1).
  destruct (div_fraction_spec N2 bs ltac:(lia) ltac:(lia))
    as (m2 & k2 & -> & Hk2 & HS2 & Hn2).
  intros Heq. injection Heq as -> Hk. assert (k1 = k2) as -> by lia.
  assert (0 < 2 ^ k2) by lia. nia.
Qed.

Section EncoderShape.
Context {V CoTable CoRows : Type}.
Variable vlt : V -> V -> bool.
Variable vsub : V -> V -> V.
Variable vabs : V -> V.
Variable vdouble : V -> V.
Variables hydrophobicity h_bonding charge sasa side_chain_length aa_dict_pos
  : Dict.t V.
Variable alignment_table : string -> option string -> result (CoTable * CoRows).

Local Abbreviation data_generator_vals :=
  (WildType.data_generator_vals vlt vsub vabs vdouble hydrophobicity
     h_bonding charge sasa side_chain_length aa_dict_pos alignment_table).

(** Every converted sequence [data_generator_vals] returns has one entry
    per residue of the wild-type sequence; the three alignment values are
    there exactly when an alignment path is given, and then the converted
    positions have that length too. *)
Theorem converted_sequences_match_wt_seq wt_seq path base r :
  data_generator_vals wt_seq path base = Ok r ->
  let n := String.length wt_seq in
  length (WildType.hm_converted r) = n /\
  length (WildType.hp_converted r) = n /\
  length (WildType.cm_converted r) = n /\
  length (WildType.ia_converted r) = n /\
  length (WildType.cl_converted r) = n /\
  match path with
  | Some p =>
      exists co t rows,
        WildType.co_converted r = Some co /\ length co = n /\
        alignment_table p base = Ok (t, rows) /\
        WildType.co_table r = Some t /\ WildType.co_rows r = Some rows
  | None =>
      WildType.co_converted r = None /\ WildType.co_table r = None /\
      WildType.co_rows r = None
  end.
Proof.
  intros H n. unfold WildType.data_generator_vals in H.
  destruct (WildType.py_max vlt (Dict.values hydrophobicity)); [|done].
  destruct (WildType.py_min vlt (Dict.values hydrophobicity)); [|done].
  destruct (WildType.py_max vlt (Dict.values sasa)); [|done].
  destruct (WildType.py_max vlt (Dict.values side_chain_length)); [|done].
  cbn [mbind result_bind] in H.
  assert (forall t : Dict.t V, length (WildType.convert t wt_seq) = n) as Hlen.
  { intros t. unfold WildType.convert. by rewrite length_fmap, length_chars. }
  destruct path as [p|].
  - destruct (alignment_table p base) as [[t rows]|] eqn:Ha; [|done].
    cbn [mbind result_bind] in H.
    destruct (build_mat_index (String.length wt_seq)); [|done].
    injection H as <-. cbn. split_and!; try apply Hlen.
    exists (WildType.convert aa_dict_pos wt_seq), t, rows. by split_and!.
  - cbn [mbind result_bind] in H.
    destruct (build_mat_index (String.length wt_seq)); [|done].
    injection H as <-. cbn. by split_and!; try apply Hlen.
Qed.

(** An exception of the alignment loader leaves [data_generator_vals]
    as it is. *)
Theorem alignment_error_propagates wt_seq p base e :
  hydrophobicity <> [] -> sasa <> [] -> side_chain_length <> [] ->
  alignment_table p base = Raise e ->
  data_generator_vals wt_seq (Some p) base = Raise e.
Proof.
  intros Hh Hs Hl Ha. unfold WildType.data_generator_vals.
  pose proof (py_max_ok vlt _ (values_nonempty _ Hh)) as H1.
  pose proof (py_min_ok vlt _ (values_nonempty _ Hh)) as H2.
  pose proof (py_max_ok vlt _ (values_nonempty _ Hs)) as H3.
  pose proof (py_max_ok vlt _ (values_nonempty _ Hl)) as H4.
  destruct (WildType.py_max vlt (Dict.values hydrophobicity)); [|done].
  destruct (WildType.py_min vlt (Dict.values hydrophobicity)); [|done].
  destruct (WildType.py_max vlt (Dict.values sasa)); [|done].
  destruct (WildType.py_max vlt (Dict.values side_chain_length)); [|done].
  cbn [mbind result_bind]. by rewrite Ha.
Qed.

(** The entries of the index matrix off the diagonal. For a wild-type
    sequence of length [n] with [n * n <= 2^52], the entry for the
    residue pair [i < j], on either side of the diagonal, is the float64
    quotient of [i * n + j] by [n * n - 1]; it lies in the interval
    (0, 1], and two different pairs have different entries. *)
Theorem mat_index_identifies_pairs wt_seq path base r :
  data_generator_vals wt_seq path base = Ok r ->
  let n := String.length wt_seq in
  let M := WildType.mat_index r in
  Z.of_nat n * Z.of_nat n <= 2 ^ 52 ->
  forall i j : nat, (i < j)%nat -> (j < n)%nat ->
    Mat.entry B64.zero M i j = index_quotient n i j /\
    Mat.entry B64.zero M j i = index_quotient n i j /\
    B64.ceil_int (index_quotient n i j) = Ok 1 /\
    forall i' j' : nat, (i' < j')%nat -> (j' < n)%nat ->
      Mat.entry B64.zero M i j = Mat.entry B64.zero M i' j' ->
      i = i' /\ j = j'.
Proof.
  intros Hr n M Hn i j Hij Hj.
  destruct (data_generator_vals_converted _ _ _ _ _ _ _ _ _ _ _ _ _ _ _ Hr)
    as (_ & _ & _ & _ & _ & HM).
  destruct (build_mat_index_entries n ltac:(lia)) as (M' & HM' & _ & HE).
  fold n in HM. rewrite HM in HM'. injection HM' as <-. fold M in HE.
  assert (forall a b : nat, (a < b)%nat -> (b < n)%nat ->
            0 < Z.of_nat (a * n + b) <= Z.of_nat n * Z.of_nat n - 1) as Hk.
  { intros a b Hab Hb. nia. }
  assert (forall a b : nat, (a < b)%nat -> (b < n)%nat ->
            exists m e, index_quotient n a b = S754_finite false m e) as Hfin.
  { intros a b Hab Hb. unfold index_quotient.
    destruct (div_fraction_spec (Z.of_nat (a * n + b))
                (Z.of_nat n * Z.of_nat n - 1) (Hk a b Hab Hb) ltac:(lia))
      as (m & k & -> & _). eauto. }
  assert (forall a b : nat, (a < b)%nat -> (b < n)%nat ->
            Mat.entry B64.zero M a b = index_quotient n a b /\
            Mat.entry B64.zero M b a = index_quotient n a b) as Hval.
  { intros a b Hab Hb. rewrite !HE by lia.
    destruct (Hfin a b Hab Hb) as (m & e & Hq).
    destruct (add_sub_zero_finite false m e) as (A1 & A2 & A3).
    unfold index_entry, index_upper.
    destruct (Nat.eqb_spec a b) as [?|_]; [lia|].
    destruct (Nat.eqb_spec b a) as [?|_]; [lia|].
    destruct (Nat.ltb_spec b a) as [?|_]; [lia|].
    destruct (Nat.ltb_spec a b) as [_|?]; [|lia].
    rewrite Hq. cbv zeta in A1, A2, A3. by rewrite A1, A2, A3. }
  destruct (Hval i j Hij Hj) as [V1 V2].
  split; [done|]. split; [done|]. split.
  - pose proof (ceil_truediv (Z.of_nat (i * n + j))
                  (Z.of_nat n * Z.of_nat n - 1)) as Hc.
    unfold B64.truediv in Hc.
    pose proof (Hk i j Hij Hj) as Hkij.
    destruct (Z.eqb_spec (Z.of_nat n * Z.of_nat n - 1) 0) as [?|_]; [lia|].
    cbn [mbind result_bind] in Hc. unfold index_quotient.
    rewrite Hc by lia. f_equal. apply ceil_div_spec; lia.
  - intros i' j' Hij' Hj' Heq.
    destruct (Hval i' j' Hij' Hj') as [V1' _].
    rewrite V1, V1' in Heq. unfold index_quotient in Heq.
    pose proof (Hk i j Hij Hj) as K1. pose proof (Hk i' j' Hij' Hj') as K2.
    assert (Z.of_nat (i * n + j) = Z.of_nat (i' * n + j')) as Hsame.
    { destruct (Z.lt_trichotomy (Z.of_nat (i * n + j))
                  (Z.of_nat (i' * n + j'))) as [Hlt|[?|Hgt]]; [|done|].
      - by apply div_fraction_injective in Heq; [|lia..].
      - symmetry in Heq. by apply div_fraction_injective in Heq; [|lia..]. }
    apply Nat2Z.inj in Hsame.
    assert (i = i') by nia. subst i'. split; [done|lia].
Qed.

End EncoderShape.

Lemma converted_sequences_match_wt_seq_witness :
  exists r,
    demo_vals_aligned loaded_alignment "AVLI" (Some "aln.clw") = Ok r /\
    let n := String.length "AVLI" in
    length (WildType.hm_converted r) = n /\
    length (WildType.hp_converted r) = n /\
    length (WildType.cm_converted r) = n /\
    length (WildType.ia_converted r) = n /\
    length (WildType.cl_converted r) = n /\
    exists co t rows,
      WildType.co_converted r = Some co /\ length co = n /\
      loaded_alignment "aln.clw" None = Ok (t, rows) /\
      WildType.co_table r = Some t /\ WildType.co_rows r = Some rows.
Proof.
  destruct (demo_vals_aligned loaded_alignment "AVLI" (Some "aln.clw"))
    as [r|] eqn:Hr; [|by vm_compute in Hr].
  exists r. split; [done|]. unfold demo_vals_aligned in Hr.
  apply (converted_sequences_match_wt_seq Z.ltb Z.sub Z.abs (Z.mul 2)
           demo_table demo_table demo_table demo_table demo_table demo_table
           loaded_alignment "AVLI" (Some "aln.clw") None r Hr).
Defined.

Lemma alignment_error_propagates_witness :
  (demo_table <> [] /\ no_alignment "aln.clw" None = Raise ValueError) /\
  demo_vals_aligned no_alignment "AVLI" (Some "aln.clw") = Raise ValueError.
Proof.
  split; [split; [done|reflexivity]|].
  apply (alignment_error_propagates Z.ltb Z.sub Z.abs (Z.mul 2)
           demo_table demo_table demo_table demo_table demo_table demo_table
           no_alignment "AVLI" "aln.clw" None ValueError);
    [done|done|done|reflexivity].
Defined.

Lemma mat_index_identifies_pairs_witness :
  (Z.of_nat (String.length "AVLI") * Z.of_nat (String.length "AVLI") <= 2 ^ 52
   /\ (0 < 1)%nat /\ (1 < String.length "AVLI")%nat) /\
  exists r,
    demo_vals "AVLI" = Ok r /\
    let n := String.length "AVLI" in
    let M := WildType.mat_index r in
    Mat.entry B64.zero M 0 1 = index_quotient n 0 1 /\
    Mat.entry B64.zero M 1 0 = index_quotient n 0 1 /\
    B64.ceil_int (index_quotient n 0 1) = Ok 1 /\
    forall i' j' : nat, (i' < j')%nat -> (j' < n)%nat ->
      Mat.entry B64.zero M 0 1 = Mat.entry B64.zero M i' j' ->
      0%nat = i' /\ 1%nat = j'.
Proof.
  split; [split_and!; [by vm_compute|lia|simpl; lia]|].
  destruct (demo_vals "AVLI") as [r|] eqn:Hr; [|by vm_compute in Hr].
  exists r. split; [done|]. unfold demo_vals in Hr.
  apply (mat_index_identifies_pairs Z.ltb Z.sub Z.abs (Z.mul 2)
           demo_table demo_table demo_table demo_table demo_table demo_table
           no_alignment "AVLI" None None r Hr);
    [by vm_compute|lia|simpl; lia].
Defined.

(** The index matrix of a sequence of four residues: the six values of
    the upper triangle, [k / 15] for [k] = 1, 2, 3, 6, 7, 11. *)
Example mat_index_4 :
  exists M, build_mat_index 4 = Ok M /\
    (fun p : nat * nat => Mat.entry B64.zero M p.1 p.2)
    <$> [(0, 1); (0, 2); (0, 3); (1, 2); (1, 3); (2, 3)]%nat
    = (fun k => B64.div (B64.of_Z k) (B64.of_Z 15)) <$> [1; 2; 3; 6; 7; 11].
Proof. eexists. split; [reflexivity|]. by vm_compute. Qed.

(** ** The training callback: best losses and saved models *)

(** [<] on floats through the key. *)
Lemma flt_key (x y : spec_float) :
  CustomPrint.flt x y = true <->
  is_nan x = false /\ is_nan y = false /\
  lex3_lt (float_key x) (float_key y).
Proof.
  unfold CustomPrint.flt, SFltb, SFcompare, lex3_lt.
  destruct x as [sx|sx| |sx mx ex], y as [sy|sy| |sy my ey];
    try destruct sx; try destruct sy; cbn [float_key is_nan fst snd];
    try match goal with
        | |- context [PosDef.Pos.compare_cont Eq ?a ?b] =>
            change (PosDef.Pos.compare_cont Eq a b) with (Pos.compare a b);
            destruct (Z.compare_spec ex ey);
            destruct (Pos.compare_spec a b); cbn [CompOpp]
        end;
    (split;
     [intros Hlt;
      first [discriminate Hlt | split_and!; [reflexivity|reflexivity|lia]]
     |intros (Hx & Hy & Hxy);
      first [reflexivity | discriminate Hx | discriminate Hy
            | exfalso; lia]]).
Qed.

Lemma flt_irrefl (x : spec_float) : CustomPrint.flt x x = false.
Proof.
  destruct (CustomPrint.flt x x) eqn:H; [|done].
  apply flt_key in H as (_ & _ & H). unfold lex3_lt in H. lia.
Qed.

Lemma flt_trans (x y z : spec_float) :
  CustomPrint.flt x y = true -> CustomPrint.flt y z = true ->
  CustomPrint.flt x z = true.
Proof.
  intros (Hx & _ & H1)%flt_key (_ & Hz & H2)%flt_key. apply flt_key.
  split; [done|]. split; [done|]. unfold lex3_lt in *. lia.
Qed.

(** A number that is not below [b] is above everything below [b]. *)
Lemma flt_below (a b c : spec_float) :
  CustomPrint.flt a b = true -> CustomPrint.flt c b = false ->
  is_nan c = false -> CustomPrint.flt a c = true.
Proof.
  intros (Ha & Hb & H1)%flt_key Hcb Hc. apply flt_key.
  split; [done|]. split; [done|].
  destruct (decide (lex3_lt (float_key c) (float_key b))) as [Hlt|Hge].
  - assert (CustomPrint.flt c b = true) by (by apply flt_key). congruence.
  - unfold lex3_lt in *. lia.
Qed.

(** One more report: the best loss and its epoch follow [track]. *)
Lemma first_minimum_snoc key calls b e c l :
  first_minimum key calls b e ->
  reported key c = Some l ->
  first_minimum key (calls ++ [c])
    (track (b, e) (c.1, l)).1 (track (b, e) (c.1, l)).2.
Proof.
  intros (Hnan & Hlow & Hfirst) Hc. unfold track. cbn [fst snd].
  destruct (CustomPrint.flt l b) eqn:Hl; cbn [fst snd].
  - pose proof (proj1 (flt_key l b) Hl) as (Hlnan & _ & _).
    split; [done|]. split.
    + intros x l' [Hx|Hx%list_elem_of_singleton]%elem_of_app Hx'.
      * destruct (CustomPrint.flt l' l) eqn:Hxl; [|done].
        pose proof (flt_trans _ _ _ Hxl Hl) as Hxb.
        specialize (Hlow x l' Hx Hx'). congruence.
      * subst x. assert (l' = l) as -> by congruence. apply flt_irrefl.
    + right. exists (length calls), c.
      split; [by rewrite lookup_app_r, Nat.sub_diag by lia|].
      split; [done|]. split; [done|].
      intros j x' Hj Hx' Heq.
      rewrite lookup_app_l in Hx' by done.
      specialize (Hlow x' l ltac:(apply list_elem_of_lookup; eauto) Heq).
      congruence.
  - split; [done|]. split.
    + intros x l' [Hx|Hx%list_elem_of_singleton]%elem_of_app Hx';
        [by eapply Hlow|].
      subst x. by assert (l' = l) as -> by congruence.
    + destruct Hfirst as [?|(i & x & Hi & Hx & He & Hbefore)]; [by left|].
      right. exists i, x.
      pose proof (lookup_lt_Some _ _ _ Hi) as Hlt.
      split; [by rewrite lookup_app_l|].
      split; [done|]. split; [done|].
      intros j x' Hj Hx'. rewrite lookup_app_l in Hx' by lia. eauto.
Qed.

Lemma first_minimum_nil key : first_minimum key [] CustomPrint.inf 0.
Proof.
  split; [done|]. split; [by intros c l ?%elem_of_nil|]. by left.
Qed.

(** What one call of [on_epoch_end] does to the state. *)
Lemma on_epoch_end_step self epoch logs s' out :
  CustomPrint.on_epoch_end self epoch logs = Ok (s', out) ->
  exists l v,
    reported "loss" (epoch, logs) = Some l /\
    reported "val_loss" (epoch, logs) = Some v /\
    (CustomPrint.best_loss s', CustomPrint.bl_epoch s')
    = track (CustomPrint.best_loss self, CustomPrint.bl_epoch self) (epoch, l)
    /\
    (CustomPrint.best_val_loss s', CustomPrint.bvl_epoch s')
    = track (CustomPrint.best_val_loss self, CustomPrint.bvl_epoch self)
            (epoch, v) /\
    CustomPrint.model_save_interval s' = CustomPrint.model_save_interval self
    /\
    CustomPrint.save s' = CustomPrint.save self /\
    if existsb CustomPrint.is_save out
    then CustomPrint.save self = true /\
         CustomPrint.flt v (CustomPrint.best_val_loss self) = true /\
         CustomPrint.model_save_interval self
         <= epoch - CustomPrint.epoch_since_model_save self /\
         CustomPrint.epoch_since_model_save s' = epoch
    else CustomPrint.epoch_since_model_save s'
         = CustomPrint.epoch_since_model_save self.
Proof.
  unfold CustomPrint.on_epoch_end, CustomPrint.logs_getitem, reported, track.
  destruct logs as [d|]; [|done]. cbn [mbind option_bind fst snd].
  destruct (Dict.get d "loss") as [l|]; [|done]. cbn [mbind result_bind].
  destruct (Dict.get d "val_loss") as [v|]; [|done]. cbn [mbind result_bind].
  destruct (CustomPrint.py_mod epoch (CustomPrint.epoch_print self)) as [r|];
    [|done].
  cbn [mbind result_bind].
  destruct (CustomPrint.py_mod epoch (CustomPrint.epoch_stat_print self))
    as [r2|] eqn:Hr2.
  2:{ destruct (CustomPrint.flt l (CustomPrint.best_loss self));
        destruct (CustomPrint.flt v (CustomPrint.best_val_loss self));
        destruct (CustomPrint.save self);
        destruct (CustomPrint.model_save_interval self
                  <=? epoch - CustomPrint.epoch_since_model_save self);
        by rewrite ?Hr2. }
  intros H. exists l, v. split; [done|]. split; [done|].
  destruct (CustomPrint.flt l (CustomPrint.best_loss self));
    destruct (CustomPrint.flt v (CustomPrint.best_val_loss self)) eqn:Hv;
    destruct (CustomPrint.save self) eqn:Hsave;
    destruct (Z.leb_spec (CustomPrint.model_save_interval self)
                (epoch - CustomPrint.epoch_since_model_save self));
    rewrite ?Hr2 in H; cbn [mbind result_bind] in H;
    injection H as <- <-; cbn [CustomPrint.best_loss CustomPrint.bl_epoch
      CustomPrint.best_val_loss CustomPrint.bvl_epoch
      CustomPrint.model_save_interval CustomPrint.save
      CustomPrint.epoch_since_model_save];
    destruct (r =? 0); destruct ((r2 =? 0) && (0 <? epoch));
    cbn [app existsb CustomPrint.is_save orb]; by split_and!.
Qed.

Lemma run_epochs_snoc self calls c :
  CustomPrint.run_epochs self (calls ++ [c])
  = ('(s, tr) ← CustomPrint.run_epochs self calls;
     '(s', out) ← CustomPrint.on_epoch_end s c.1 c.2;
     Ok (s', tr ++ [(c.1, out)])).
Proof.
  unfold CustomPrint.run_epochs. rewrite foldlM_app.
  destruct (foldlM _ (self, []) calls) as [[s tr]|]; [|done].
  cbn [mbind result_bind foldlM fst snd].
  by destruct (CustomPrint.on_epoch_end s c.1 c.2) as [[s' out]|].
Qed.

Lemma spaced_snoc (d : Z) (l : list Z) (e : Z) : forall a,
  spaced d a (l ++ [e]) <-> spaced d a l /\ d <= e - default a (last l).
Proof.
  induction l as [|x l IH]; intros a; cbn [app spaced].
  - simpl. tauto.
  - rewrite IH, last_cons. destruct (last l); simpl; tauto.
Qed.

Lemma saved_epochs_snoc tr e out :
  CustomPrint.saved_epochs (tr ++ [(e, out)])
  = CustomPrint.saved_epochs tr
    ++ (if existsb CustomPrint.is_save out then [e] else []).
Proof.
  unfold CustomPrint.saved_epochs. rewrite omap_app. f_equal. simpl.
  by destruct (existsb CustomPrint.is_save out).
Qed.

(** What holds after every sequence of calls of [on_epoch_end] that
    starts from a new callback. *)
Lemma run_epochs_inv nb ep esp pb md msi sv calls : forall s' trace,
  CustomPrint.run_epochs (CustomPrint.init nb ep esp pb md msi sv) calls
  = Ok (s', trace) ->
  first_minimum "loss" calls
    (CustomPrint.best_loss s') (CustomPrint.bl_epoch s') /\
  first_minimum "val_loss" calls
    (CustomPrint.best_val_loss s') (CustomPrint.bvl_epoch s') /\
  CustomPrint.model_save_interval s' = msi /\ CustomPrint.save s' = sv /\
  fst <$> trace = fst <$> calls /\
  spaced msi 0 (CustomPrint.saved_epochs trace) /\
  CustomPrint.epoch_since_model_save s'
  = default 0 (last (CustomPrint.saved_epochs trace)) /\
  (sv = false -> CustomPrint.saved_epochs trace = []) /\
  forall i e out, trace !! i = Some (e, out) ->
    existsb CustomPrint.is_save out = true ->
    exists c v, calls !! i = Some c /\ reported "val_loss" c = Some v /\
      forall j c' v', (j < i)%nat -> calls !! j = Some c' ->
        reported "val_loss" c' = Some v' -> is_nan v' = false ->
        CustomPrint.flt v v' = true.
Proof.
  induction calls as [|[epoch logs] calls IH] using rev_ind; intros s' trace.
  - intros [= <- <-]. split_and!; try done; try apply first_minimum_nil.
  - rewrite run_epochs_snoc.
    destruct (CustomPrint.run_epochs _ calls) as [[s tr]|]; [|done].
    cbn [mbind result_bind fst snd].
    destruct (CustomPrint.on_epoch_end s epoch logs) as [[s1 out]|] eqn:Hstep;
      [|done].
    cbn [mbind result_bind]. intros [= <- <-].
    destruct (IH s tr eq_refl)
      as (Hl & Hv & Hmsi & Hsv & Hfst & Hsp & Hsince & Hoff & Himp).
    destruct (on_epoch_end_step _ _ _ _ _ Hstep)
      as (l & v & Rl & Rv & Tl & Tv & Smsi & Ssv & Hsave).
    assert (length tr = length calls) as Hlen.
    { by rewrite <- (length_fmap fst tr), Hfst, length_fmap. }
    pose proof (first_minimum_snoc "loss" calls _ _ (epoch, logs) l Hl Rl)
      as Hl'.
    pose proof (first_minimum_snoc "val_loss" calls _ _ (epoch, logs) v Hv Rv)
      as Hv'.
    cbn [fst snd] in Hl', Hv'. rewrite <- Tl in Hl'. rewrite <- Tv in Hv'.
    split; [done|]. split; [done|]. split; [congruence|].
    split; [congruence|]. split; [by rewrite !fmap_app, Hfst|].
    rewrite saved_epochs_snoc.
    destruct (existsb CustomPrint.is_save out) eqn:Hout.
    + destruct Hsave as (Hs1 & Hflt & Hint & Hsince').
      split; [apply spaced_snoc; split; [done|]; rewrite <- Hsince; lia|].
      split; [by rewrite last_snoc|].
      split; [intros ->; congruence|].
      intros i e out' Hi Hout'.
      destruct (decide (i < length tr)%nat) as [Hlt|Hge].
      * rewrite lookup_app_l in Hi by done.
        destruct (Himp i e out' Hi Hout') as (c & v0 & Hc & Hv0 & Hbefore).
        exists c, v0. split; [by rewrite lookup_app_l by lia|].
        split; [done|]. intros j c' v' Hj Hc'.
        rewrite lookup_app_l in Hc' by lia. eauto.
      * assert (i = length tr) as ->.
        { apply lookup_lt_Some in Hi. rewrite length_app in Hi.
          simpl in Hi. lia. }
        exists (epoch, logs), v.
        split; [by rewrite Hlen, lookup_app_r, Nat.sub_diag by lia|].
        split; [done|]. intros j c' v' Hj Hc' Hv0 Hnan.
        rewrite lookup_app_l in Hc' by lia.
        destruct Hv as (_ & Hlow & _).
        apply (flt_below v (CustomPrint.best_val_loss s) v'); [done| |done].
        eapply Hlow; [|done]. apply list_elem_of_lookup. eauto.
    + rewrite app_nil_r. split; [done|]. split; [congruence|].
      split; [done|].
      intros i e out' Hi Hout'.
      destruct (decide (i < length tr)%nat) as [Hlt|Hge].
      * rewrite lookup_app_l in Hi by done.
        destruct (Himp i e out' Hi Hout') as (c & v0 & Hc & Hv0 & Hbefore).
        exists c, v0. split; [by rewrite lookup_app_l by lia|].
        split; [done|]. intros j c' v' Hj Hc'.
        rewrite lookup_app_l in Hc' by lia. eauto.
      * assert (i = length tr) as ->.
        { apply lookup_lt_Some in Hi. rewrite length_app in Hi.
          simpl in Hi. lia. }
        rewrite lookup_app_r, Nat.sub_diag in Hi by lia.
        injection Hi as <- <-. congruence.
Qed.

(** After the epochs of a training, [best_loss] is the smallest training
    loss reported (no reported loss is below it, and it is never NaN) and
    [bl_epoch] is the epoch of the first call that reported it; they are
    the initial [inf] and 0 when no loss was below [inf]. The same holds
    for [best_val_loss] and [bvl_epoch] with the validation losses. *)
Theorem best_losses_are_first_minima nb ep esp pb md msi sv calls s' trace :
  CustomPrint.run_epochs (CustomPrint.init nb ep esp pb md msi sv) calls
  = Ok (s', trace) ->
  first_minimum "loss" calls
    (CustomPrint.best_loss s') (CustomPrint.bl_epoch s') /\
  first_minimum "val_loss" calls
    (CustomPrint.best_val_loss s') (CustomPrint.bvl_epoch s').
Proof.
  intros Hrun.
  destruct (run_epochs_inv _ _ _ _ _ _ _ _ _ _ Hrun) as (Hl & Hv & _).
  by split.
Qed.

(** The model is saved sparingly: never when [save] is off; the first
    time not before epoch [model_save_interval], and then at epochs at
    least [model_save_interval] apart; and only in a call whose
    validation loss is below every validation loss reported before it. *)
Theorem model_saves_are_spaced nb ep esp pb md msi sv calls s' trace :
  CustomPrint.run_epochs (CustomPrint.init nb ep esp pb md msi sv) calls
  = Ok (s', trace) ->
  spaced msi 0 (CustomPrint.saved_epochs trace) /\
  (sv = false -> CustomPrint.saved_epochs trace = []) /\
  forall i e out, trace !! i = Some (e, out) ->
    existsb CustomPrint.is_save out = true ->
    exists c v, calls !! i = Some c /\ c.1 = e /\
      reported "val_loss" c = Some v /\
      forall j c' v', (j < i)%nat -> calls !! j = Some c' ->
        reported "val_loss" c' = Some v' -> is_nan v' = false ->
        CustomPrint.flt v v' = true.
Proof.
  intros Hrun.
  destruct (run_epochs_inv _ _ _ _ _ _ _ _ _ _ Hrun)
    as (_ & _ & _ & _ & Hfst & Hsp & _ & Hoff & Himp).
  split; [done|]. split; [done|]. intros i e out Hi Hout.
  destruct (Himp i e out Hi Hout) as (c & v & Hc & Hv & Hbefore).
  exists c, v. split; [done|]. split; [|by split].
  assert ((fst <$> trace) !! i = (fst <$> calls) !! i) as Heq by congruence.
  rewrite !list_lookup_fmap, Hi, Hc in Heq. simpl in Heq. congruence.
Qed.

Lemma best_losses_are_first_minima_witness :
  exists s' trace,
    CustomPrint.run_epochs (CustomPrint.init 4 1 10 60 "model" 2 true)
      demo_calls = Ok (s', trace) /\
    first_minimum "loss" demo_calls
      (CustomPrint.best_loss s') (CustomPrint.bl_epoch s') /\
    first_minimum "val_loss" demo_calls
      (CustomPrint.best_val_loss s') (CustomPrint.bvl_epoch s').
Proof.
  destruct (CustomPrint.run_epochs (CustomPrint.init 4 1 10 60 "model" 2 true)
              demo_calls) as [[s' trace]|] eqn:Hr; [|by vm_compute in Hr].
  exists s', trace. split; [done|].
  apply (best_losses_are_first_minima 4 1 10 60 "model" 2 true demo_calls
           s' trace Hr).
Defined.

Lemma model_saves_are_spaced_witness :
  exists s' trace,
    CustomPrint.run_epochs (CustomPrint.init 4 1 10 60 "model" 2 true)
      demo_calls = Ok (s', trace) /\
    spaced 2 0 (CustomPrint.saved_epochs trace) /\
    (true = false -> CustomPrint.saved_epochs trace = []) /\
    forall i e out, trace !! i = Some (e, out) ->
      existsb CustomPrint.is_save out = true ->
      exists c v, demo_calls !! i = Some c /\ c.1 = e /\
        reported "val_loss" c = Some v /\
        forall j c' v', (j < i)%nat -> demo_calls !! j = Some c' ->
          reported "val_loss" c' = Some v' -> is_nan v' = false ->
          CustomPrint.flt v v' = true.
Proof.
  destruct (CustomPrint.run_epochs (CustomPrint.init 4 1 10 60 "model" 2 true)
              demo_calls) as [[s' trace]|] eqn:Hr; [|by vm_compute in Hr].
  exists s', trace. split; [done|].
  apply (model_saves_are_spaced 4 1 10 60 "model" 2 true demo_calls
           s' trace Hr).
Defined.

(** The four epochs of the examples: the best training loss 7 is first
    reached at epoch 1, the best validation loss 5 at epoch 3; the
    validation loss improves at epochs 0, 2 and 3, and with an interval of
    2 the model is saved at epoch 2 only. *)
Example custom_print_run :
  exists s' trace,
    CustomPrint.run_epochs (CustomPrint.init 4 1 10 60 "model" 2 true)
      demo_calls = Ok (s', trace) /\
    CustomPrint.best_loss s' = B64.of_Z 7 /\ CustomPrint.bl_epoch s' = 1 /\
    CustomPrint.best_val_loss s' = B64.of_Z 5 /\
    CustomPrint.bvl_epoch s' = 3 /\
    CustomPrint.saved_epochs trace = [2].
Proof. eexists _, _. split; [by vm_compute|]. by vm_compute. Qed.

(** A call without validation loss, and a call without logs. *)
Example custom_print_missing_logs :
  CustomPrint.on_epoch_end (CustomPrint.init 4 1 10 60 "model" 2 true) 0
    (Some [("loss", B64.of_Z 9)]) = Raise KeyError /\
  CustomPrint.on_epoch_end (CustomPrint.init 4 1 10 60 "model" 2 true) 0 None
  = Raise TypeError /\
  CustomPrint.on_epoch_end (CustomPrint.init 4 0 10 60 "model" 2 true) 0
    (Some [("loss", B64.of_Z 9); ("val_loss", B64.of_Z 8)])
  = Raise ZeroDivisionError.
Proof. split_and!; reflexivity. Qed.

(** ** The augmentation engine: one more run *)

Section AugmentMoreRuns.
Context {L : Type}.
Variable ladd : L -> L -> L.
Variable rng : shuffler.

Lemma augment_run_extends data labels mutations pos nd nl nm i
    pos' nd' nl' nm' :
  augment_run ladd rng data labels mutations (pos, nd, nl, nm) i
  = Ok (pos', nd', nl', nm') ->
  nd `prefix_of` nd' /\ nl `prefix_of` nl' /\ nm `prefix_of` nm'.
Proof.
  unfold augment_run.
  destruct (run_candidates ladd data labels mutations
              (random_shuffle rng i pos)) as [[[[a b] c] d]|]; [|done].
  cbn [mbind result_bind].
  destruct (Np.delete a d); [|done]. cbn [mbind result_bind].
  destruct (Np.delete b d); [|done]. cbn [mbind result_bind].
  destruct (Np.delete c d); [|done]. cbn [mbind result_bind].
  intros [= _ <- <- <-]. split_and!; by apply prefix_app_r.
Qed.

(** More runs only append. Without the removal of duplicates, what
    [augment] returns for [runs + 1] runs starts with what it returns for
    [runs] runs; and an exception within the first [runs] runs is the
    exception of every longer call. *)
Theorem augment_runs_extend data labels mutations runs :
  (forall nd' nl' nm',
     augment ladd rng data labels mutations (S runs) false
     = Ok (nd', nl', nm') ->
     exists nd nl nm,
       augment ladd rng data labels mutations runs false = Ok (nd, nl, nm) /\
       nd `prefix_of` nd' /\ nl `prefix_of` nl' /\ nm `prefix_of` nm') /\
  (forall e un,
     augment ladd rng data labels mutations runs false = Raise e ->
     augment ladd rng data labels mutations (S runs) un = Raise e).
Proof.
  unfold augment, augment_loop. rewrite seq_S, foldlM_app. cbn [Nat.add].
  destruct (foldlM (augment_run ladd rng data labels mutations)
              (Np.arange (length labels), [], [], []) (seq 0 runs))
    as [[[[pos nd] nl] nm]|] eqn:Hloop.
  - cbn [mbind result_bind foldlM]. split; [|done].
    intros nd' nl' nm'.
    destruct (augment_run ladd rng data labels mutations (pos, nd, nl, nm)
                runs) as [[[[pos1 nd1] nl1] nm1]|] eqn:Hrun; [|done].
    cbn [mbind result_bind]. intros [= <- <- <-].
    exists nd, nl, nm. split; [done|].
    by apply (augment_run_extends _ _ _ _ _ _ _ _ _ _ _ _ Hrun).
  - cbn [mbind result_bind]. split; [done|]. by intros e0 un [= <-].
Qed.

End AugmentMoreRuns.

Lemma augment_runs_extend_witness :
  (exists nd' nl' nm',
     augment Z.add rotating ["V2A"; "S1A"; "D35T"] [10; 20; 30] [1; 1; 1] 2
             false = Ok (nd', nl', nm') /\
     exists nd nl nm,
       augment Z.add rotating ["V2A"; "S1A"; "D35T"] [10; 20; 30] [1; 1; 1] 1
               false = Ok (nd, nl, nm) /\
       nd `prefix_of` nd' /\ nl `prefix_of` nl' /\ nm `prefix_of` nm') /\
  augment Z.add rotating ["V2A"; "S1A"] [10; 20; 30] [1; 1; 1] 1 false
  = Raise IndexError /\
  augment Z.add rotating ["V2A"; "S1A"] [10; 20; 30] [1; 1; 1] 2 true
  = Raise IndexError.
Proof.
  split.
  - destruct (augment Z.add rotating ["V2A"; "S1A"; "D35T"] [10; 20; 30]
                [1; 1; 1] 2 false) as [[[nd' nl'] nm']|] eqn:Hr;
      [|by vm_compute in Hr].
    exists nd', nl', nm'. split; [done|].
    apply (proj1 (augment_runs_extend Z.add rotating ["V2A"; "S1A"; "D35T"]
                    [10; 20; 30] [1; 1; 1] 1) nd' nl' nm' Hr).
  - assert (augment Z.add rotating ["V2A"; "S1A"] [10; 20; 30] [1; 1; 1] 1
              false = Raise IndexError) as He by (by vm_compute).
    split; [exact He|].
    apply (proj2 (augment_runs_extend Z.add rotating ["V2A"; "S1A"]
                    [10; 20; 30] [1; 1; 1] 1) IndexError true He).
Defined.

(** ** The augmentation block of [run_all] *)

(** The literal [0.2] as a double. *)
Example decay_bits :
  RunAll.decay = S754_finite false 7205759403792794 (- 55).
Proof. by vm_compute. Qed.

(** Reading an array at all its positions gives the array. *)
Lemma take_arange_id {A} (l : list A) (n : nat) :
  n = length l -> Np.take l (Np.arange n) = Ok l.
Proof.
  intros ->. destruct (take_in_range l (Np.arange (length l)))
    as (b & -> & Hb); [apply arange_in_range|].
  f_equal. apply list_eq. intros i.
  destruct (decide (i < length l)%nat) as [Hi|Hi].
  - destruct (lookup_lt_is_Some_2 l i Hi) as [x Hx].
    pose proof (Forall2_length _ _ _ Hb) as Hlen.
    rewrite length_arange in Hlen.
    destruct (lookup_lt_is_Some_2 b i) as [y Hy]; [lia|].
    pose proof (Forall2_lookup_lr _ _ _ _ _ _ Hb
                  (lookup_arange _ _ Hi) Hy) as Hl.
    cbn beta in Hl. rewrite Nat2Z.id in Hl. congruence.
  - pose proof (Forall2_length _ _ _ Hb) as Hlen.
    rewrite length_arange in Hlen.
    rewrite !lookup_ge_None_2; [done|lia|lia].
Qed.

(** One round on a parallel split: the split with something appended,
    parallel again. *)
Lemma daug_round_spec rng train_data train_labels train_mutations i :
  RunAll.parallel (train_data, train_labels, train_mutations) ->
  exists ad al am,
    RunAll.daug_round rng (train_data, train_labels, train_mutations) i
    = Ok (train_data ++ ad, train_labels ++ al, train_mutations ++ am) /\
    length ad = length al /\ length am = length al.
Proof.
  intros [Hd Hm]. cbn [fst snd] in Hd, Hm. unfold RunAll.daug_round.
  destruct (augment_rows B64.add (shift_rng (4 * i) rng) train_data
              train_labels train_mutations 4 false Hd Hm)
    as (rows & -> & _ & _).
  cbn [mbind result_bind]. eexists _, _, _. split; [done|].
  by rewrite !length_fmap.
Qed.

Lemma daug_rounds_spec rng (js : list nat) : forall td tl tm,
  RunAll.parallel (td, tl, tm) ->
  exists ad al am,
    foldlM (RunAll.daug_round rng) (td, tl, tm) js
    = Ok (td ++ ad, tl ++ al, tm ++ am) /\
    length ad = length al /\ length am = length al.
Proof.
  induction js as [|i js IH]; intros td tl tm Hp.
  - exists [], [], []. by rewrite !app_nil_r.
  - destruct (daug_round_spec rng td tl tm i Hp)
      as (ad & al & am & Hround & Had & Ham).
    cbn [foldlM]. rewrite Hround. cbn [mbind result_bind].
    destruct Hp as [Hd Hm]. cbn [fst snd] in Hd, Hm.
    destruct (IH (td ++ ad) (tl ++ al) (tm ++ am))
      as (ad' & al' & am' & -> & Had' & Ham').
    { split; cbn [fst snd]; rewrite !length_app; lia. }
    exists (ad ++ ad'), (al ++ al'), (am ++ am').
    rewrite <- !(assoc_L (++)). split; [done|].
    rewrite !length_app. lia.
Qed.

Lemma py_slice_prefix {A} (l : list A) (need : Z) :
  0 <= need -> py_slice l 0 need = take (Z.to_nat need) l.
Proof.
  intros Hn. rewrite py_slice_window by lia.
  by rewrite Z.sub_0_r.
Qed.

(** The block on parallel splits: it returns, and what it returns is
    one of three things built from the augmented split [aug]. *)
Lemma daug_with_cap_spec cap rng td tl tm otd otl otm :
  RunAll.parallel (td, tl, tm) ->
  exists ad al am,
    length ad = length al /\ length am = length al /\
    let nt := Z.of_nat (length (tl ++ al)) in
    let ot := Z.of_nat (length otl) in
    RunAll.daug_with_cap cap rng (td, tl, tm) (otd, otl, otm)
    = Ok (if cap <? nt + ot then
            if 0 <? cap - ot then
              (take (Z.to_nat (cap - ot)) (td ++ ad) ++ otd,
               take (Z.to_nat (cap - ot)) (tl ++ al) ++ otl,
               take (Z.to_nat (cap - ot)) (tm ++ am) ++ otm)
            else (otd, otl, otm)
          else ((td ++ ad) ++ otd, (tl ++ al) ++ otl, (tm ++ am) ++ otm)).
Proof.
  intros Hp.
  destruct (daug_rounds_spec rng (seq 0 3) td tl tm Hp)
    as (ad & al & am & Hrounds & Had & Ham).
  destruct Hp as [Hd Hm]. cbn [fst snd] in Hd, Hm.
  exists ad, al, am. split; [done|]. split; [done|]. cbv zeta.
  unfold RunAll.daug_with_cap. rewrite Hrounds. cbn [mbind result_bind].
  rewrite (take_arange_id (td ++ ad)) by (rewrite !length_app; lia).
  cbn [mbind result_bind].
  rewrite (take_arange_id (tl ++ al)) by done. cbn [mbind result_bind].
  rewrite (take_arange_id (tm ++ am)) by (rewrite !length_app; lia).
  cbn [mbind result_bind].
  destruct (Z.ltb_spec cap
              (Z.of_nat (length (tl ++ al)) + Z.of_nat (length otl)));
    [|done].
  destruct (Z.ltb_spec (cap - Z.of_nat (length otl)) 0) as [Hneg|Hpos].
  - change (0 <? 0) with false. cbv iota.
    by destruct (Z.ltb_spec 0 (cap - Z.of_nat (length otl))); [lia|].
  - destruct (Z.ltb_spec 0 (cap - Z.of_nat (length otl))); [|done].
    by rewrite !py_slice_prefix by lia.
Qed.

(** What the augmentation block returns on parallel splits: it does not
    raise; the three arrays are parallel again; they end with the
    original training split, in full and unchanged; and there are at most
    [cap] samples, unless the original split alone has more. *)
Theorem daug_keeps_originals_under_cap cap rng train otd otl otm :
  RunAll.parallel train -> RunAll.parallel (otd, otl, otm) ->
  exists d l m,
    RunAll.daug_with_cap cap rng train (otd, otl, otm) = Ok (d, l, m) /\
    RunAll.parallel (d, l, m) /\
    otd `suffix_of` d /\ otl `suffix_of` l /\ otm `suffix_of` m /\
    Z.of_nat (length l) <= Z.max cap (Z.of_nat (length otl)).
Proof.
  intros Hp [Hod Hom]. cbn [fst snd] in Hod, Hom.
  destruct train as [[td tl] tm].
  destruct (daug_with_cap_spec cap rng td tl tm otd otl otm Hp)
    as (ad & al & am & Had & Ham & Hres).
  cbv zeta in Hres. destruct Hp as [Hd Hm]. cbn [fst snd] in Hd, Hm.
  rewrite Hres. clear Hres.
  destruct (Z.ltb_spec cap
              (Z.of_nat (length (tl ++ al)) + Z.of_nat (length otl)))
    as [Hover|Hunder].
  - destruct (Z.ltb_spec 0 (cap - Z.of_nat (length otl))) as [Hneed|Hneed].
    + eexists _, _, _. split; [done|]. split.
      { split; cbn [fst snd]; rewrite !length_app, !length_take, !length_app;
          lia. }
      split; [by apply suffix_app_r|]. split; [by apply suffix_app_r|].
      split; [by apply suffix_app_r|].
      rewrite length_app, length_take. lia.
    + eexists _, _, _. split; [done|].
      split; [by split|]. split_and!; try done. lia.
  - eexists _, _, _. split; [done|]. split.
    { split; cbn [fst snd]; rewrite !length_app; lia. }
    split; [by apply suffix_app_r|]. split; [by apply suffix_app_r|].
    split; [by apply suffix_app_r|].
    rewrite !length_app in *. lia.
Qed.

(** The training samples are used twice. The block starts from the
    training split, which is part of the original split, and appends the
    original split at the end: when the training split and the original
    split together fit under [cap], the result begins with the training
    split and ends with the original split. *)
Theorem daug_repeats_training_samples cap rng td tl tm otd otl otm :
  RunAll.parallel (td, tl, tm) ->
  Z.of_nat (length tl) + Z.of_nat (length otl) <= cap ->
  exists md ml mm,
    RunAll.daug_with_cap cap rng (td, tl, tm) (otd, otl, otm)
    = Ok (td ++ md ++ otd, tl ++ ml ++ otl, tm ++ mm ++ otm).
Proof.
  intros Hp Hcap.
  destruct (daug_with_cap_spec cap rng td tl tm otd otl otm Hp)
    as (ad & al & am & Had & Ham & Hres).
  cbv zeta in Hres. rewrite Hres. clear Hres.
  destruct Hp as [Hd Hm]. cbn [fst snd] in Hd, Hm.
  destruct (Z.ltb_spec cap
              (Z.of_nat (length (tl ++ al)) + Z.of_nat (length otl)))
    as [Hover|Hunder].
  - set (need := Z.to_nat (cap - Z.of_nat (length otl))).
    assert (length tl <= need)%nat as Hneed by (unfold need; lia).
    destruct (Z.ltb_spec 0 (cap - Z.of_nat (length otl))) as [Hpos|Hzero].
    + exists (take (need - length td) ad), (take (need - length tl) al),
             (take (need - length tm) am).
      rewrite !take_app.
      rewrite (take_ge td), (take_ge tl), (take_ge tm) by lia.
      by rewrite <- !(assoc_L (++)).
    + assert (length tl = 0%nat) as Htl by lia.
      destruct tl; [|done]. destruct td; [|done]. destruct tm; [|done].
      by exists [], [], [].
  - exists ad, al, am. by rewrite <- !(assoc_L (++)).
Qed.

Lemma daug_keeps_originals_under_cap_witness :
  RunAll.parallel demo_split /\
  exists d l m,
    RunAll.daug_with_cap 20000 rotating demo_split demo_split = Ok (d, l, m) /\
    RunAll.parallel (d, l, m) /\
    demo_split.1.1 `suffix_of` d /\ demo_split.1.2 `suffix_of` l /\
    demo_split.2 `suffix_of` m /\
    Z.of_nat (length l) <= Z.max 20000 (Z.of_nat (length demo_split.1.2)).
Proof.
  assert (RunAll.parallel demo_split) as Hp by (split; reflexivity).
  split; [exact Hp|].
  apply (daug_keeps_originals_under_cap 20000 rotating demo_split
           demo_split.1.1 demo_split.1.2 demo_split.2 Hp Hp).
Defined.

Lemma daug_repeats_training_samples_witness :
  (RunAll.parallel demo_split /\
   Z.of_nat (length demo_split.1.2) + Z.of_nat (length demo_split.1.2)
   <= 20000) /\
  exists md ml mm,
    RunAll.daug_with_cap 20000 rotating demo_split demo_split
    = Ok (demo_split.1.1 ++ md ++ demo_split.1.1,
          demo_split.1.2 ++ ml ++ demo_split.1.2,
          demo_split.2 ++ mm ++ demo_split.2).
Proof.
  assert (RunAll.parallel demo_split) as Hp by (split; reflexivity).
  split; [split; [exact Hp|simpl; lia]|].
  apply (daug_repeats_training_samples 20000 rotating
           demo_split.1.1 demo_split.1.2 demo_split.2
           demo_split.1.1 demo_split.1.2 demo_split.2 Hp).
  simpl. lia.
Defined.

(** With room for five samples: two of the training split, then the
    three originals. *)
Example daug_cap_5 :
  RunAll.daug_with_cap 5 rotating demo_split demo_split
  = Ok (["V2A"; "S1A"; "V2A"; "S1A"; "D35T"],
        [B64.of_Z 1; B64.of_Z 2; B64.of_Z 1; B64.of_Z 2; B64.of_Z 3],
        [1; 1; 1; 1; 1]).
Proof. by vm_compute. Qed.
